(** * Metrics aggregation of the runtimes benchmark harness

    Shallow embedding of [benchmark-suites/metrics-interface.js]
    ([formatMetrics], [saveResults]), of [saveResults] of the ES module
    [metrics-interface.mjs] that the drivers import, and of the
    [benchmark] drivers of the Node.js and Bun suites, followed by the
    properties of the statistics report that the specification states.

    JavaScript Numbers are IEEE-754 binary64 values; they are modelled by
    the [spec_float] type of the standard library at precision 53 and
    maximal exponent 1024, with its correctly rounded operations.  Arrays
    live in a store and are passed by reference, as in the source. *)

From Stdlib Require Import ZArith Lia Bool List String Ascii.
From Stdlib Require Import SpecFloat.
From Stdlib Require Import Permutation Sorted.
From stdpp Require Import base list.

Local Open Scope Z_scope.

(* ===================================================================== *)
(** ** JavaScript Numbers *)
(* ===================================================================== *)

Abbreviation prec := 53 (only parsing).
Abbreviation emax := 1024 (only parsing).

Definition float : Type := spec_float.

Definition NaN : float := S754_nan.
Definition pos_zero : float := S754_zero false.

(** The four arithmetic operators of the language, rounded to nearest,
    ties to even. *)
Definition fadd : float -> float -> float := SFadd prec emax.
Definition fsub : float -> float -> float := SFsub prec emax.
Definition fmul : float -> float -> float := SFmul prec emax.
Definition fdiv : float -> float -> float := SFdiv prec emax.

(** Relational operators; every comparison with [NaN] is false. *)
Definition flt : float -> float -> bool := SFltb.
Definition fle : float -> float -> bool := SFleb.

(** The Number with the value of an integer (exact below 2^53):
    an array [length], or an integer literal. *)
Definition of_Z (z : Z) : float := binary_normalize prec emax z 0 false.
Definition of_nat (n : nat) : float := of_Z (Z.of_nat n).

(** The literals [0.95] and [0.99]: the nearest doubles,
    0x1.e666666666666p-1 and 0x1.fae147ae147aep-1. *)
Definition lit_0_95 : float := S754_finite false 8556839292003942 (-53).
Definition lit_0_99 : float := S754_finite false 8917127262193582 (-53).

(** [Math.floor]. *)
Definition Math_floor (x : float) : float :=
  match x with
  | S754_finite s m e =>
      if 0 <=? e then x
      else
        let z := cond_Zopp s (Zpos m) / 2 ^ (- e) in
        if z =? 0 then S754_zero s else of_Z z
  | _ => x
  end.

(** [Math.sqrt] and [Math.pow(x, 2)].  The language leaves the precision
    of both to the engine; the model takes the correctly rounded results,
    which is what the engines compute for a square root and for a
    square. *)
Definition Math_sqrt : float -> float := SFsqrt prec emax.
Definition Math_pow2 (x : float) : float := fmul x x.

(** The integer a Number denotes when it is an array index (an integer
    in [0, 2^32 - 2]); any other Number names no element of an array. *)
Definition to_index (x : float) : option nat :=
  match x with
  | S754_zero _ => Some 0%nat
  | S754_finite false m e =>
      if 0 <=? e then
        (if Zpos m * 2 ^ e <? 2 ^ 32 - 1
         then Some (Z.to_nat (Zpos m * 2 ^ e)) else None)
      else if Zpos m mod 2 ^ (- e) =? 0 then
        (if Zpos m / 2 ^ (- e) <? 2 ^ 32 - 1
         then Some (Z.to_nat (Zpos m / 2 ^ (- e))) else None)
      else None
  | _ => None
  end.

(* ===================================================================== *)
(** ** Values and records of the report *)
(* ===================================================================== *)

(** The result of reading an array element: a Number, or [undefined]
    when the index names no element. *)
Inductive jsval : Type :=
  | JNum (x : float)
  | JUndefined.

(** [xs[i]] for an array of Numbers. *)
Definition array_get (xs : list float) (i : float) : jsval :=
  match to_index i with
  | Some n => match xs !! n with Some x => JNum x | None => JUndefined end
  | None => JUndefined
  end.

(** A resource field as the collaborators produce it: a Number, the
    string ['unknown'] (as [totalMemory] in deno/utils/metrics.js), or a
    property that is missing ([undefined]). *)
Inductive field : Type :=
  | Known (x : float)
  | Unknown
  | Absent.

(** [ToNumber]: the string ['unknown'] is not a numeric literal and
    [undefined] has no numeric value; both convert to [NaN]. *)
Definition ToNumber (v : field) : float :=
  match v with
  | Known x => x
  | Unknown => NaN
  | Absent => NaN
  end.

(** The binary [-] operator on two fields. *)
Definition js_sub (a b : field) : float := fsub (ToNumber a) (ToNumber b).

(** [ToBoolean]: zeros and [NaN] are falsy, a non-empty string is
    truthy, [undefined] is falsy. *)
Definition truthy (v : field) : bool :=
  match v with
  | Known (S754_zero _) => false
  | Known S754_nan => false
  | Known _ => true
  | Unknown => true
  | Absent => false
  end.

(** [v || 'unknown'] on a field and on an optional string. *)
Definition or_unknown (v : field) : field :=
  if truthy v then v else Unknown.

Definition or_unknown_str (v : option string) : string :=
  match v with
  | Some EmptyString => "unknown"
  | Some s => s
  | None => "unknown"
  end.

(** A memory snapshot ([getMemoryUsage]).  Only the properties that
    [formatMetrics] reads are listed; the snapshot objects themselves
    are placed in the report unchanged. *)
Record MemorySnapshot : Type := {
  rss : field;
  heapTotal : field;
  heapUsed : field;
  external : field;
  totalMemory : option string
}.

(** A CPU snapshot ([getCpuUsage]). *)
Record CpuSnapshot : Type := {
  user : field;
  system : field
}.

(** The [memoryUsage] and [cpuUsage] arguments of [formatMetrics]. *)
Record MemoryUsageArg : Type := {
  mem_before : MemorySnapshot;
  mem_after : MemorySnapshot
}.

Record CpuUsageArg : Type := {
  cpu_before : CpuSnapshot;
  cpu_after : CpuSnapshot;
  cpu_cores : field
}.

Record MemoryDiff : Type := {
  diff_rss : float;
  diff_heapTotal : float;
  diff_heapUsed : float;
  diff_external : float
}.

Record Environment : Type := {
  env_os : string;
  env_container : bool;
  env_cpuCores : field;
  env_memory : string
}.

Record MemoryUsageReport : Type := {
  mu_before : MemorySnapshot;
  mu_after : MemorySnapshot;
  mu_diff : MemoryDiff
}.

Record CpuUsageReport : Type := {
  cu_before : CpuSnapshot;
  cu_after : CpuSnapshot;
  diffUser : float;
  diffSystem : float
}.

(** A reference to an array in the store. *)
Definition loc : Type := nat.

Record Metrics : Type := {
  executionTimes : loc;
  averageExecutionTime : float;
  memoryUsage : MemoryUsageReport;
  cpuUsage : CpuUsageReport
}.

Record Statistics : Type := {
  mean : float;
  median : jsval;
  stdDev : float;
  p95 : jsval;
  p99 : jsval
}.

(** One entry of [detailedIterationMetrics]. *)
Record IterationMetrics : Type := {
  iteration : float;
  it_executionTime : float;
  it_before : MemorySnapshot;
  it_after : MemorySnapshot;
  it_diff : MemoryDiff
}.

Record Report : Type := {
  runtime : string;
  version : string;
  experiment : string;
  timestamp : string;
  environment : Environment;
  metrics : Metrics;
  statistics : Statistics;
  detailedIterationMetrics : option (list IterationMetrics)
}.

(* ===================================================================== *)
(** ** The world a call runs in *)
(* ===================================================================== *)

(** What [JSON.stringify] writes: the report, with the contents the
    referenced array of execution times has at that moment. *)
Record Json : Type := {
  json_report : Report;
  json_times : list float
}.

Inductive stream : Type := Stdout | Stderr.

(** The store of arrays, the ambient process state, the file system and
    the console.  [denied] lists the paths that the operating system
    refuses to create or to write (permissions, full disk, invalid
    path). *)
Record World : Type := {
  heap : list (list float);
  date_iso : string;
  date_ms : string;
  platform : string;
  env_CONTAINER : option string;
  module_dir : string;
  dirs : list string;
  files : list (string * Json);
  denied : list string;
  console : list (stream * string)
}.

Definition set_heap (h : list (list float)) (w : World) : World :=
  {| heap := h; date_iso := date_iso w; date_ms := date_ms w;
     platform := platform w; env_CONTAINER := env_CONTAINER w;
     module_dir := module_dir w; dirs := dirs w; files := files w;
     denied := denied w; console := console w |}.

Definition set_dirs (d : list string) (w : World) : World :=
  {| heap := heap w; date_iso := date_iso w; date_ms := date_ms w;
     platform := platform w; env_CONTAINER := env_CONTAINER w;
     module_dir := module_dir w; dirs := d; files := files w;
     denied := denied w; console := console w |}.

Definition set_files (f : list (string * Json)) (w : World) : World :=
  {| heap := heap w; date_iso := date_iso w; date_ms := date_ms w;
     platform := platform w; env_CONTAINER := env_CONTAINER w;
     module_dir := module_dir w; dirs := dirs w; files := f;
     denied := denied w; console := console w |}.

Definition set_console (c : list (stream * string)) (w : World) : World :=
  {| heap := heap w; date_iso := date_iso w; date_ms := date_ms w;
     platform := platform w; env_CONTAINER := env_CONTAINER w;
     module_dir := module_dir w; dirs := dirs w; files := files w;
     denied := denied w; console := c |}.

(** Time passing between two calls: the clock reads something else. *)
Definition set_clock (iso ms : string) (w : World) : World :=
  {| heap := heap w; date_iso := iso; date_ms := ms;
     platform := platform w; env_CONTAINER := env_CONTAINER w;
     module_dir := module_dir w; dirs := dirs w; files := files w;
     denied := denied w; console := console w |}.

(** Exceptions.  [InvalidInput] is the error the specification names;
    no function of the source raises it. *)
Inductive Error : Type :=
  | TypeError (message : string)
  | SystemError (message : string)
  | InvalidInput (message : string).

Definition error_message (e : Error) : string :=
  match e with
  | TypeError m => m
  | SystemError m => m
  | InvalidInput m => m
  end.

(** A call either returns a value or throws. *)
Inductive completion (A : Type) : Type :=
  | Return (a : A)
  | Throw (e : Error).
Arguments Return {A} a.
Arguments Throw {A} e.

(** Computations: state passing over the world, with exceptions. *)
Definition M (A : Type) : Type := World -> completion A * World.

Definition ret {A : Type} (a : A) : M A := fun w => (Return a, w).

Definition bind {A B : Type} (m : M A) (k : A -> M B) : M B :=
  fun w =>
    match m w with
    | (Return a, w') => k a w'
    | (Throw e, w') => (Throw e, w')
    end.

Definition throw {A : Type} (e : Error) : M A := fun w => (Throw e, w).

(** [try { m } catch (error) { h error }]. *)
Definition try_catch {A : Type} (m : M A) (h : Error -> M A) : M A :=
  fun w =>
    match m w with
    | (Return a, w') => (Return a, w')
    | (Throw e, w') => h e w'
    end.

Declare Scope js_scope.
Delimit Scope js_scope with js.
Notation "x <- m ;; k" := (bind m (fun x => k))
  (at level 100, m at next level, right associativity) : js_scope.
Notation "m ;;; k" := (bind m (fun _ => k))
  (at level 100, right associativity) : js_scope.
Local Open Scope js_scope.

(** *** Arrays in the store *)

(** Reading through a reference; a reference to no array stands for a
    value on which the array methods do not exist. *)
Definition read (l : loc) : M (list float) :=
  fun w =>
    match heap w !! l with
    | Some xs => (Return xs, w)
    | None => (Throw (TypeError "not an array"), w)
    end.

(** A new array with the given elements: an array literal, [[...xs]]. *)
Definition alloc (xs : list float) : M loc :=
  fun w => (Return (length (heap w)), set_heap (heap w ++ [xs]) w).

Definition write (l : loc) (xs : list float) : M unit :=
  fun w => (Return tt, set_heap (<[l := xs]> (heap w)) w).

(** [arr.push(x)]. *)
Definition push (l : loc) (x : float) : M unit :=
  xs <- read l ;; write l (xs ++ [x]).

(** *** Sorting *)

(** [Array.prototype.sort] calls the comparator and orders [x] after [y]
    when the result is greater than zero; a [NaN] result counts as zero.
    The language fixes the outcome for a consistent comparator (the
    stable arrangement), not the algorithm; the model is the stable
    insertion sort.  With an inconsistent comparator, as [a - b] is on
    an array that holds [NaN], the language leaves the order to the
    engine, which may arrange the elements otherwise than the model. *)
Definition ordered_after (comparefn : float -> float -> float)
    (x y : float) : bool :=
  flt pos_zero (comparefn x y).

Fixpoint insert (comparefn : float -> float -> float) (x : float)
    (l : list float) : list float :=
  match l with
  | [] => [x]
  | y :: l' =>
      if ordered_after comparefn x y then y :: insert comparefn x l'
      else x :: y :: l'
  end.

Fixpoint js_sort (comparefn : float -> float -> float)
    (l : list float) : list float :=
  match l with
  | [] => []
  | x :: l' => insert comparefn x (js_sort comparefn l')
  end.

(** [arr.sort(comparefn)]: sorts the array in place and returns it. *)
Definition sort (l : loc) (comparefn : float -> float -> float) : M loc :=
  xs <- read l ;; write l (js_sort comparefn xs) ;;; ret l.

(** *** Ambient state *)

Definition new_Date_toISOString : M string := fun w => (Return (date_iso w), w).
Definition Date_now : M string := fun w => (Return (date_ms w), w).
Definition process_platform : M string := fun w => (Return (platform w), w).
Definition process_env_CONTAINER : M (option string) :=
  fun w => (Return (env_CONTAINER w), w).
Definition import_meta_dir : M string := fun w => (Return (module_dir w), w).

Definition console_log (msg : string) : M unit :=
  fun w => (Return tt, set_console (console w ++ [(Stdout, msg)]) w).
Definition console_error (msg : string) : M unit :=
  fun w => (Return tt, set_console (console w ++ [(Stderr, msg)]) w).

(* ===================================================================== *)
(** ** metrics-interface.js *)
(* ===================================================================== *)

(** [(a, b) => a - b]. *)
Definition compare_numbers (a b : float) : float := fsub a b.

(** [process.env.CONTAINER === 'true']. *)
Definition is_true_string (v : option string) : bool :=
  match v with
  | Some s => String.eqb s "true"
  | None => false
  end.

Definition formatMetrics (runtime version experiment : string)
    (executionTimes : loc) (memoryUsage : MemoryUsageArg)
    (cpuUsage : CpuUsageArg) : M Report :=
  xs <- read executionTimes ;;
  let mean := fdiv (fold_left fadd xs pos_zero) (of_nat (length xs)) in
  copy <- alloc xs ;;
  sorted <- sort copy compare_numbers ;;
  s <- read sorted ;;
  let median :=
    array_get s (Math_floor (fdiv (of_nat (length s)) (of_Z 2))) in
  ys <- read executionTimes ;;
  let stdDev :=
    Math_sqrt
      (fdiv
         (fold_left (fun sum val => fadd sum (Math_pow2 (fsub val mean)))
            ys pos_zero)
         (of_nat (length ys))) in
  let p95 := array_get s (Math_floor (fmul (of_nat (length s)) lit_0_95)) in
  let p99 := array_get s (Math_floor (fmul (of_nat (length s)) lit_0_99)) in
  now <- new_Date_toISOString ;;
  os <- process_platform ;;
  container <- process_env_CONTAINER ;;
  ret {|
    runtime := runtime;
    version := version;
    experiment := experiment;
    timestamp := now;
    environment := {|
      env_os := os;
      env_container := is_true_string container;
      env_cpuCores := or_unknown (cpu_cores cpuUsage);
      env_memory := or_unknown_str (totalMemory (mem_before memoryUsage))
    |};
    metrics := {|
      executionTimes := executionTimes;
      averageExecutionTime := mean;
      memoryUsage := {|
        mu_before := mem_before memoryUsage;
        mu_after := mem_after memoryUsage;
        mu_diff := {|
          diff_rss :=
            js_sub (rss (mem_after memoryUsage)) (rss (mem_before memoryUsage));
          diff_heapTotal :=
            js_sub (heapTotal (mem_after memoryUsage))
              (heapTotal (mem_before memoryUsage));
          diff_heapUsed :=
            js_sub (heapUsed (mem_after memoryUsage))
              (heapUsed (mem_before memoryUsage));
          diff_external :=
            js_sub (external (mem_after memoryUsage))
              (external (mem_before memoryUsage))
        |}
      |};
      cpuUsage := {|
        cu_before := cpu_before cpuUsage;
        cu_after := cpu_after cpuUsage;
        diffUser :=
          js_sub (user (cpu_after cpuUsage)) (user (cpu_before cpuUsage));
        diffSystem :=
          js_sub (system (cpu_after cpuUsage)) (system (cpu_before cpuUsage))
      |}
    |};
    statistics := {|
      mean := mean;
      median := median;
      stdDev := stdDev;
      p95 := p95;
      p99 := p99
    |};
    detailedIterationMetrics := None
  |}.

(** [path.dirname] of the POSIX flavour of the engine's path module:
    trailing slashes are skipped, then the last segment; what precedes
    the slash before it is the directory. *)
Definition slash : ascii := "/"%char.

Fixpoint scan_dirname (matchedSlash : bool) (r : list ascii) : option nat :=
  match r with
  | [] => None
  | c :: r' =>
      if Ascii.eqb c slash then
        (if matchedSlash then scan_dirname true r'
         else Some (S (length r')))
      else scan_dirname false r'
  end.

Definition dirname (path : string) : string :=
  match list_ascii_of_string path with
  | [] => "."
  | c :: rest =>
      let hasRoot := Ascii.eqb c slash in
      match scan_dirname true (rev rest) with
      | None => if hasRoot then "/" else "."
      | Some e =>
          if hasRoot && Nat.eqb e 1 then "//" else substring 0 e path
      end
  end.

Definition in_list (s : string) (l : list string) : bool :=
  existsb (String.eqb s) l.

(** [fs.existsSync], [fs.mkdirSync(dir, { recursive: true })] and
    [fs.writeFileSync]. *)
Definition fs_existsSync (dir : string) : M bool :=
  fun w => (Return (in_list dir (dirs w)), w).

Definition fs_mkdirSync (dir : string) : M unit :=
  fun w =>
    if in_list dir (denied w)
    then (Throw (SystemError ("EACCES: permission denied, mkdir " ++ dir)), w)
    else (Return tt, set_dirs (dir :: dirs w) w).

Definition fs_writeFileSync (path : string) (data : Json) : M unit :=
  fun w =>
    if negb (in_list (dirname path) (dirs w))
    then (Throw (SystemError
                   ("ENOENT: no such file or directory, open " ++ path)), w)
    else if in_list path (denied w)
    then (Throw (SystemError ("EACCES: permission denied, open " ++ path)), w)
    else (Return tt, set_files ((path, data) :: files w) w).

(** [JSON.stringify(results, null, 2)]: follows the reference to the
    array of execution times. *)
Definition JSON_stringify (results : Report) : M Json :=
  xs <- read (executionTimes (metrics results)) ;;
  ret {| json_report := results; json_times := xs |}.

Definition saveResults (results : Report) (outputPath : string) : M unit :=
  let dir := dirname outputPath in
  present <- fs_existsSync dir ;;
  (if negb present then fs_mkdirSync dir else ret tt) ;;;
  data <- JSON_stringify results ;;
  fs_writeFileSync outputPath data ;;;
  console_log ("Результаты сохранены в " ++ outputPath).

(* ===================================================================== *)
(** ** metrics-interface.mjs *)

(** The drivers import the ES module.  Its [formatMetrics] computes what
    the one above computes wherever [process] is defined; its
    [saveResults] differs: the same steps, inside [try]/[catch]. *)

(** How [console.error(text, e)] prints the error object [e] after the
    text: its name and its message.  The stack frames that a runtime
    prints after them are not in the model. *)
Definition error_name (e : Error) : string :=
  match e with
  | TypeError _ => "TypeError"
  | SystemError _ => "Error"
  | InvalidInput _ => "InvalidInput"
  end.

Definition inspect (e : Error) : string :=
  (error_name e ++ ": " ++ error_message e)%string.

(** [saveResults] of the ES module, in the branch it takes under Node.js
    and Bun ([Deno] undefined, [process] defined). *)
Definition saveResults_mjs (results : Report) (outputPath : string)
    : M unit :=
  try_catch
    (let dir := dirname outputPath in
     present <- fs_existsSync dir ;;
     (if negb present then fs_mkdirSync dir else ret tt) ;;;
     data <- JSON_stringify results ;;
     fs_writeFileSync outputPath data ;;;
     console_log ("Результаты сохранены в " ++ outputPath))
    (fun e =>
       console_error
         ("Ошибка при сохранении результатов:" ++ " " ++ inspect e)).

(* ===================================================================== *)
(** ** The benchmark drivers *)
(* ===================================================================== *)

(** The workload, the timer and the resource probes are the environment
    of [benchmark]: a [Run] records what they returned during one call,
    in the order the driver asked.  The warm-up calls and the progress
    lines on the console leave no trace in the result and are not
    modelled. *)
Record Sample : Type := {
  sample_time : float;
  sample_before : MemorySnapshot;
  sample_after : MemorySnapshot
}.

Record Run : Type := {
  run_version : string;
  run_cpuBefore : CpuSnapshot;
  run_cpuCores : field;
  run_memoryBefore : MemorySnapshot;
  run_samples : list Sample;
  run_cpuAfter : CpuSnapshot;
  run_memoryAfter : MemorySnapshot
}.

(** The recognised options; [None] is a property left out. *)
Record Options : Type := {
  opt_experiment : option string;
  opt_outputPath : option string;
  opt_detailedMetrics : option bool
}.

Definition memory_diff (before after : MemorySnapshot) : MemoryDiff :=
  {| diff_rss := js_sub (rss after) (rss before);
     diff_heapTotal := js_sub (heapTotal after) (heapTotal before);
     diff_heapUsed := js_sub (heapUsed after) (heapUsed before);
     diff_external := js_sub (external after) (external before) |}.

(** The measuring loop: one pass per sample, [i] counting from 0. *)
Fixpoint measure (detailedMetrics : bool) (executionTimes : loc)
    (i : nat) (samples : list Sample)
    (detailed : list IterationMetrics) : M (list IterationMetrics) :=
  match samples with
  | [] => ret detailed
  | s :: rest =>
      push executionTimes (sample_time s) ;;;
      let detailed' :=
        if detailedMetrics then
          detailed ++
            [{| iteration := fadd (of_nat i) (of_Z 1);
                it_executionTime := sample_time s;
                it_before := sample_before s;
                it_after := sample_after s;
                it_diff := memory_diff (sample_before s) (sample_after s) |}]
        else detailed in
      measure detailedMetrics executionTimes (S i) rest detailed'
  end.

Definition with_detailed (r : Report) (d : list IterationMetrics) : Report :=
  {| runtime := runtime r; version := version r;
     experiment := experiment r; timestamp := timestamp r;
     environment := environment r; metrics := metrics r;
     statistics := statistics r;
     detailedIterationMetrics := Some d |}.

(** What both drivers do up to the point where the report is saved. *)
Definition collect (name : string) (run : Run) (options : Options)
    : M Report :=
  let experiment := default "unknown"%string (opt_experiment options) in
  let detailedMetrics := default true (opt_detailedMetrics options) in
  executionTimes <- alloc [] ;;
  detailed <- measure detailedMetrics executionTimes 0 (run_samples run) [] ;;
  report <-
    formatMetrics name (run_version run) experiment executionTimes
      {| mem_before := run_memoryBefore run;
         mem_after := run_memoryAfter run |}
      {| cpu_before := run_cpuBefore run;
         cpu_after := run_cpuAfter run;
         cpu_cores := run_cpuCores run |} ;;
  ret (if detailedMetrics then with_detailed report detailed else report).

(** node/utils/metrics.mjs: the report is saved when a path is given
    (a non-empty string), through the [saveResults] that the driver
    imports, the one of metrics-interface.mjs. *)
Definition benchmark_node (run : Run) (options : Options) : M Report :=
  report <- collect "node" run options ;;
  (match opt_outputPath options with
   | Some EmptyString => ret tt
   | Some outputPath => saveResults_mjs report outputPath
   | None => ret tt
   end) ;;;
  ret report.

(** The Bun driver: the path defaults to a file under the results
    directory, and saving is wrapped in [try]/[catch].  The segments of
    the default path are put together as written: [path.join] also
    resolves the [..] segments, which stay in the path here. *)
Definition bun_default_path (experiment : string) : M string :=
  dir <- import_meta_dir ;;
  now <- Date_now ;;
  ret (dir ++ "/../../../results/bun_" ++ experiment ++ "_" ++ now
         ++ ".json")%string.

Definition benchmark_bun (run : Run) (options : Options) : M Report :=
  outputPath <-
    (match opt_outputPath options with
     | Some p => ret p
     | None =>
         bun_default_path (default "unknown"%string (opt_experiment options))
     end) ;;
  report <- collect "bun" run options ;;
  try_catch
    (let dir := dirname outputPath in
     present <- fs_existsSync dir ;;
     (if negb present then fs_mkdirSync dir else ret tt) ;;;
     data <- JSON_stringify report ;;
     fs_writeFileSync outputPath data ;;;
     console_log ("Результаты сохранены в " ++ outputPath))
    (fun error =>
       console_error
         ("Ошибка при сохранении результатов: " ++ error_message error)) ;;;
  ret report.

(* ===================================================================== *)
(** ** The workloads that the drivers time *)
(* ===================================================================== *)

(** The relational operators on values that are Numbers or [undefined]
    ([undefined] converts to [NaN], with which every comparison is
    false), and strict equality. *)
Definition feq : float -> float -> bool := SFeqb.

Definition to_number (v : jsval) : float :=
  match v with
  | JNum x => x
  | JUndefined => NaN
  end.

Definition js_lt (a b : jsval) : bool := flt (to_number a) (to_number b).
Definition js_gt (a b : jsval) : bool := flt (to_number b) (to_number a).

Definition js_strict_eq (a b : jsval) : bool :=
  match a, b with
  | JNum x, JNum y => feq x y
  | JUndefined, JUndefined => true
  | _, _ => false
  end.

(** *** fibonacci.js *)

(** [fibonacci(n)], the recursive implementation.  [fuel] bounds the
    depth of the nested calls: [None] is a call that needs a deeper
    stack. *)
Fixpoint fibonacci (fuel : nat) (n : float) : option float :=
  match fuel with
  | O => None
  | S fuel' =>
      if fle n (of_Z 1) then Some n
      else
        match fibonacci fuel' (fsub n (of_Z 1)) with
        | None => None
        | Some x =>
            match fibonacci fuel' (fsub n (of_Z 2)) with
            | None => None
            | Some y => Some (fadd x y)
            end
        end
  end.

(** [fibonacciIterative(n)]: the loop
    [for (let i = 2; i <= n; i++) { temp = a + b; a = b; b = temp }];
    [fuel] bounds the number of times the loop condition is tested. *)
Fixpoint fibonacciIterative_loop (fuel : nat) (n i a b : float)
    : option float :=
  match fuel with
  | O => None
  | S fuel' =>
      if fle i n then
        let temp := fadd a b in
        fibonacciIterative_loop fuel' n (fadd i (of_Z 1)) b temp
      else Some b
  end.

Definition fibonacciIterative (fuel : nat) (n : float) : option float :=
  if fle n (of_Z 1) then Some n
  else fibonacciIterative_loop fuel n (of_Z 2) (of_Z 0) (of_Z 1).

(** *** sorting.js *)

(** [quickSort(arr)] on an array of Numbers.  The pivot is read with
    the index [Math.floor(arr.length / 2)]; the three [filter] calls
    build new arrays, and so does the spread that joins the results.
    [fuel] bounds the depth of the nested calls. *)
Fixpoint quickSort (fuel : nat) (arr : list float) : option (list float) :=
  match fuel with
  | O => None
  | S fuel' =>
      if (length arr <=? 1)%nat then Some arr
      else
        let pivot :=
          array_get arr (Math_floor (fdiv (of_nat (length arr)) (of_Z 2))) in
        let left := List.filter (fun x => js_lt (JNum x) pivot) arr in
        let middle := List.filter (fun x => js_strict_eq (JNum x) pivot) arr in
        let right := List.filter (fun x => js_gt (JNum x) pivot) arr in
        match quickSort fuel' left with
        | None => None
        | Some sortedLeft =>
            match quickSort fuel' right with
            | None => None
            | Some sortedRight => Some (sortedLeft ++ middle ++ sortedRight)
            end
        end
  end.

(** Elements of an array that [insertionSort] builds: [xs[i]] reads
    [undefined] outside the array; [xs[i] = v] replaces an element,
    appends at the end, or extends the array with holes (which read as
    [undefined]); a negative [i] names a property that is no element. *)
Definition elem (xs : list jsval) (i : Z) : jsval :=
  if i <? 0 then JUndefined else default JUndefined (xs !! Z.to_nat i).

Definition store (xs : list jsval) (i : Z) (v : jsval) : list jsval :=
  if i <? 0 then xs
  else
    let n := Z.to_nat i in
    if (n <? length xs)%nat then <[n := v]> xs
    else xs ++ replicate (n - length xs) JUndefined ++ [v].

(** The inner loop of [insertionSort],
    [while (j >= 0 && result[j] > current) { result[j + 1] = result[j]; j-- }].
    The counters are integers far below 2^53, on which the arithmetic
    of Numbers is exact. *)
Fixpoint insertionSort_shift (fuel : nat) (result : list jsval)
    (current : jsval) (j : Z) : option (list jsval * Z) :=
  match fuel with
  | O => None
  | S fuel' =>
      if (0 <=? j) && js_gt (elem result j) current then
        insertionSort_shift fuel' (store result (j + 1) (elem result j))
          current (j - 1)
      else Some (result, j)
  end.

(** The outer loop, [for (let i = 1; i < result.length; i++) ...]. *)
Fixpoint insertionSort_loop (fuel : nat) (result : list jsval) (i : Z)
    : option (list jsval) :=
  match fuel with
  | O => None
  | S fuel' =>
      if i <? Z.of_nat (length result) then
        let current := elem result i in
        match insertionSort_shift fuel result current (i - 1) with
        | None => None
        | Some (result', j) =>
            insertionSort_loop fuel' (store result' (j + 1) current) (i + 1)
        end
      else Some result
  end.

(** [insertionSort(arr)]: works on the copy [[...arr]] and returns it.
    [fuel] bounds the number of times each loop condition is tested. *)
Definition insertionSort (fuel : nat) (arr : list float)
    : option (list jsval) :=
  insertionSort_loop fuel (map JNum arr) 1.

(** *** matrix.js *)

(** What a workload throws: [new Error(message)], or the [TypeError] of
    the engine for a property read from [undefined] (its message is the
    engine's). *)
Inductive exception : Type :=
  | Exception_Error (message : string)
  | Exception_TypeError.

Inductive outcome (A : Type) : Type :=
  | Value (a : A)
  | Raise (e : exception).
Arguments Value {A} a.
Arguments Raise {A} e.

Definition outcome_bind {A B : Type} (m : outcome A) (k : A -> outcome B)
    : outcome B :=
  match m with
  | Value a => k a
  | Raise e => Raise e
  end.

(** [for (let i = 0; i < n; i++) body], the bound [n] being a constant
    of the function: [for_each (seq 0 n) body]. *)
Fixpoint for_each {S : Type} (indices : list nat)
    (body : nat -> S -> outcome S) (s : S) : outcome S :=
  match indices with
  | [] => Value s
  | i :: rest => outcome_bind (body i s) (for_each rest body)
  end.

(** A matrix is an array of rows, each an array of Numbers; rows may
    differ in length. [m[i][k]] throws when there is no row [i] and
    reads [undefined] past the end of the row. *)
Definition matrix : Type := list (list float).

Definition cell (m : matrix) (i k : nat) : outcome jsval :=
  match m !! i with
  | None => Raise Exception_TypeError
  | Some row =>
      Value (match row !! k with Some x => JNum x | None => JUndefined end)
  end.

(** [result[i][j] += v]. *)
Definition add_to (result : list (list jsval)) (i j : nat) (v : float)
    : outcome (list (list jsval)) :=
  match result !! i with
  | None => Raise Exception_TypeError
  | Some row =>
      let old := elem row (Z.of_nat j) in
      Value (<[i := store row (Z.of_nat j) (JNum (fadd (to_number old) v))]>
               result)
  end.

Definition incompatible : string :=
  "Размерности матриц несовместимы для умножения".

(** The result matrix, [rows] fresh rows of [cols] zeros. *)
Definition zero_matrix (rows cols : nat) : list (list jsval) :=
  replicate rows (replicate cols (JNum pos_zero)).

(** The loop body shared by both functions,
    [result[i][j] += a[i][k] * b[k][j]]. *)
Definition multiply_add (a b : matrix) (i j k : nat)
    (result : list (list jsval)) : outcome (list (list jsval)) :=
  outcome_bind (cell a i k) (fun x =>
  outcome_bind (cell b k j) (fun y =>
  add_to result i j (fmul (to_number x) (to_number y)))).

Definition naiveMatrixMultiply (a b : matrix)
    : outcome (list (list jsval)) :=
  match a !! 0%nat, b !! 0%nat with
  | Some a0, Some b0 =>
      let rowsA := length a in
      let colsA := length a0 in
      let colsB := length b0 in
      if negb (colsA =? length b)%nat then
        Raise (Exception_Error incompatible)
      else
        for_each (seq 0 rowsA) (fun i =>
          for_each (seq 0 colsB) (fun j =>
            for_each (seq 0 colsA) (fun k => multiply_add a b i j k)))
          (zero_matrix rowsA colsB)
  | _, _ => Raise Exception_TypeError
  end.

Definition optimizedMatrixMultiply (a b : matrix)
    : outcome (list (list jsval)) :=
  match a !! 0%nat, b !! 0%nat with
  | Some a0, Some b0 =>
      let rowsA := length a in
      let colsA := length a0 in
      let colsB := length b0 in
      if negb (colsA =? length b)%nat then
        Raise (Exception_Error incompatible)
      else
        for_each (seq 0 rowsA) (fun i =>
          for_each (seq 0 colsA) (fun k =>
            for_each (seq 0 colsB) (fun j => multiply_add a b i j k)))
          (zero_matrix rowsA colsB)
  | _, _ => Raise Exception_TypeError
  end.

(* ===================================================================== *)
(** ** The Deno driver (deno/utils/metrics.js) *)
(* ===================================================================== *)

(** [v || 0] on a resource field. *)
Definition or_zero (v : field) : field :=
  if truthy v then v else Known pos_zero.

(** What the timer and the probes returned during one call of the Deno
    driver: [performance.now()] before and after each pass, in
    milliseconds. *)
Record DenoSample : Type := {
  deno_startTime : float;
  deno_endTime : float;
  deno_before : MemorySnapshot;
  deno_after : MemorySnapshot
}.

Record DenoRun : Type := {
  deno_version : string;
  deno_cpuBefore : CpuSnapshot;
  deno_cpuCores : field;
  deno_memoryBefore : MemorySnapshot;
  deno_samples : list DenoSample;
  deno_cpuAfter : CpuSnapshot;
  deno_memoryAfter : MemorySnapshot
}.

(** [(endTime - startTime) * 1_000_000], milliseconds to nanoseconds. *)
Definition deno_executionTime (s : DenoSample) : float :=
  fmul (fsub (deno_endTime s) (deno_startTime s)) (of_Z 1000000).

(** The difference of two snapshots as the loop of this driver computes
    it: a missing [external] counts as 0. *)
Definition deno_memory_diff (before after : MemorySnapshot) : MemoryDiff :=
  {| diff_rss := js_sub (rss after) (rss before);
     diff_heapTotal := js_sub (heapTotal after) (heapTotal before);
     diff_heapUsed := js_sub (heapUsed after) (heapUsed before);
     diff_external :=
       js_sub (or_zero (external after)) (or_zero (external before)) |}.

Fixpoint deno_measure (detailedMetrics : bool) (executionTimes : loc)
    (i : nat) (samples : list DenoSample)
    (detailed : list IterationMetrics) : M (list IterationMetrics) :=
  match samples with
  | [] => ret detailed
  | s :: rest =>
      let executionTime := deno_executionTime s in
      push executionTimes executionTime ;;;
      let detailed' :=
        if detailedMetrics then
          detailed ++
            [{| iteration := fadd (of_nat i) (of_Z 1);
                it_executionTime := executionTime;
                it_before := deno_before s;
                it_after := deno_after s;
                it_diff := deno_memory_diff (deno_before s) (deno_after s) |}]
        else detailed in
      deno_measure detailedMetrics executionTimes (S i) rest detailed'
  end.

(** [Deno.writeTextFileSync] and [Deno.mkdirSync(dir, { recursive: true })]
    on the same file system. *)
Definition Deno_writeTextFileSync (path : string) (data : Json) : M unit :=
  fun w =>
    if negb (in_list (dirname path) (dirs w))
    then (Throw (SystemError
                   ("No such file or directory (os error 2): writefile "
                    ++ path)), w)
    else if in_list path (denied w)
    then (Throw (SystemError
                   ("Permission denied (os error 13): writefile " ++ path)), w)
    else (Return tt, set_files ((path, data) :: files w) w).

Definition Deno_mkdirSync (dir : string) : M unit :=
  fun w =>
    if in_list dir (denied w)
    then (Throw (SystemError
                   ("Permission denied (os error 13): mkdir " ++ dir)), w)
    else (Return tt, set_dirs (dir :: dirs w) w).

Section DenoDriver.

(** [join] of the path module of the standard library and the working
    directory [Deno.cwd()]: the driver is modelled for whatever they
    return. *)
Variable join : list string -> string.
Variable cwd : string.

Definition deno_default_path (experiment : string) : M string :=
  now <- Date_now ;;
  ret (join [cwd; "../../results";
             "deno_" ++ experiment ++ "_" ++ now ++ ".json"])%string.

(** [benchmark] of deno/utils/metrics.js.  As for the other drivers,
    the warm-up calls and the progress lines leave no trace in the
    result and are not modelled. *)
Definition benchmark_deno (run : DenoRun) (options : Options) : M Report :=
  let experiment := default "unknown"%string (opt_experiment options) in
  let detailedMetrics := default true (opt_detailedMetrics options) in
  outputPath <-
    (match opt_outputPath options with
     | Some p => ret p
     | None => deno_default_path experiment
     end) ;;
  executionTimes <- alloc [] ;;
  detailed <-
    deno_measure detailedMetrics executionTimes 0 (deno_samples run) [] ;;
  report <-
    formatMetrics "deno" (deno_version run) experiment executionTimes
      {| mem_before := deno_memoryBefore run;
         mem_after := deno_memoryAfter run |}
      {| cpu_before := deno_cpuBefore run;
         cpu_after := deno_cpuAfter run;
         cpu_cores := deno_cpuCores run |} ;;
  let metrics :=
    if detailedMetrics then with_detailed report detailed else report in
  try_catch
    (data <- JSON_stringify metrics ;;
     Deno_writeTextFileSync outputPath data ;;;
     console_log ("Результаты сохранены в " ++ outputPath))
    (fun error =>
       console_error
         ("Ошибка при сохранении результатов: " ++ error_message error) ;;;
       try_catch
         (Deno_mkdirSync (dirname outputPath) ;;;
          data <- JSON_stringify metrics ;;
          Deno_writeTextFileSync outputPath data ;;;
          console_log
            ("Результаты сохранены в " ++ outputPath
             ++ " после создания директории"))
         (fun e =>
            console_error
              ("Не удалось сохранить результаты даже после создания директории: "
               ++ error_message e))) ;;;
  ret metrics.

End DenoDriver.

(* ===================================================================== *)
(** ** Notions used to state the properties *)
(* ===================================================================== *)

(** Whether rounding to nearest, ties to even, moves the mantissa
    [m / 2^n] up by one: [n] low bits of [m] are dropped, and [l] tells
    where the exact value lies between [m] and [m + 1]. *)
Definition inexact_loc (l : location) : bool :=
  match l with
  | loc_Exact => false
  | loc_Inexact _ => true
  end.

Definition round_up (m n : Z) (l : location) : bool :=
  if n <=? 0 then
    match l with
    | loc_Exact => false
    | loc_Inexact Lt => false
    | loc_Inexact Eq => Z.odd m
    | loc_Inexact Gt => true
    end
  else
    Z.odd (m / 2 ^ (n - 1))
    && ((negb (m mod 2 ^ (n - 1) =? 0) || inexact_loc l)
        || Z.odd (m / 2 ^ n)).

(** The mantissa and exponent a positive value [m * 2^e] (located by
    [l]) rounds to, when it has at least 53 digits and the result is a
    normal number in range. *)
Definition rounded (m e : Z) (l : location) : Z * Z :=
  let n := Zdigits2 m - 53 in
  let m1 := if round_up m n l then m / 2 ^ n + 1 else m / 2 ^ n in
  if m1 <? 2 ^ 53 then (m1, e + n) else (2 ^ 52, e + n + 1).

(** The canonical mantissa and exponent of a positive integer below
    2^53. *)
Definition int_mantissa (z : Z) : positive :=
  Z.to_pos (z * 2 ^ (53 - Zdigits2 z)).
Definition int_exponent (z : Z) : Z := Zdigits2 z - 53.

(** Where the exact quotient lies between [q] and [q + 1], from the
    remainder [r] of the division by [d]. *)
Definition div_loc (r d : Z) : location :=
  if r =? 0 then loc_Exact else loc_Inexact (2 * r ?= d).

(** A Number that is infinite of sign [s], or finite, non-zero, of sign
    [s], with a full mantissa of 53 digits and an exponent of at least
    [lo]. *)
Inductive normal (s : bool) (lo : Z) : float -> Prop :=
  | normal_infinity : normal s lo (S754_infinity s)
  | normal_finite (m : positive) (e : Z) :
      Zdigits2 (Zpos m) = 53 -> lo <= e -> normal s lo (S754_finite s m e).

(** Zero, or a positive Number as above. *)
Definition nonneg (lo : Z) (x : float) : Prop :=
  x = pos_zero \/ normal false lo x.

(** Durations as the data model of the specification has them:
    non-negative integers that a Number holds exactly, in an array
    (whose length is below 2^32 in the language). *)
Definition safe_durations (zs : list Z) : Prop :=
  Forall (fun z => 0 <= z < 2 ^ 53) zs /\ Z.of_nat (length zs) < 2 ^ 32.

(** The ascending arrangement of a list of integers, by the insertion
    that [js_sort] performs. *)
Fixpoint insert_int (x : Z) (l : list Z) : list Z :=
  match l with
  | [] => [x]
  | y :: l' => if y <? x then y :: insert_int x l' else x :: y :: l'
  end.

Fixpoint sort_int (l : list Z) : list Z :=
  match l with
  | [] => []
  | x :: l' => insert_int x (sort_int l')
  end.

(** Sum, least and greatest element of a list of integers. *)
Definition sum_int (l : list Z) : Z := fold_right Z.add 0 l.

Definition min_int (l : list Z) : Z :=
  match l with
  | [] => 0
  | x :: l' => fold_right Z.min x l'
  end.

Definition max_int (l : list Z) : Z :=
  match l with
  | [] => 0
  | x :: l' => fold_right Z.max x l'
  end.

(** The statistics and the differences as functions of the contents of
    the array and of the snapshots; [formatMetrics_run] shows that they
    are what [formatMetrics] computes. *)
Definition mean_of (xs : list float) : float :=
  fdiv (fold_left fadd xs pos_zero) (of_nat (length xs)).

Definition median_of (s : list float) : jsval :=
  array_get s (Math_floor (fdiv (of_nat (length s)) (of_Z 2))).

Definition stdDev_of (xs : list float) : float :=
  Math_sqrt
    (fdiv
       (fold_left
          (fun sum val => fadd sum (Math_pow2 (fsub val (mean_of xs))))
          xs pos_zero)
       (of_nat (length xs))).

(** The population standard deviation in the words of the
    specification: the square root of the mean of the squared deviations
    from the mean. *)
Definition population_stdDev (xs : list float) : float :=
  Math_sqrt (mean_of (map (fun x => Math_pow2 (fsub x (mean_of xs))) xs)).

Definition percentile_of (s : list float) (fraction : float) : jsval :=
  array_get s (Math_floor (fmul (of_nat (length s)) fraction)).

Definition statistics_of (xs : list float) : Statistics :=
  let s := js_sort compare_numbers xs in
  {| mean := mean_of xs;
     median := median_of s;
     stdDev := stdDev_of xs;
     p95 := percentile_of s lit_0_95;
     p99 := percentile_of s lit_0_99 |}.

Definition metrics_of (l : loc) (xs : list float)
    (memoryUsage : MemoryUsageArg) (cpuUsage : CpuUsageArg) : Metrics :=
  {| executionTimes := l;
     averageExecutionTime := mean_of xs;
     memoryUsage :=
       {| mu_before := mem_before memoryUsage;
          mu_after := mem_after memoryUsage;
          mu_diff :=
            memory_diff (mem_before memoryUsage) (mem_after memoryUsage) |};
     cpuUsage :=
       {| cu_before := cpu_before cpuUsage;
          cu_after := cpu_after cpuUsage;
          diffUser :=
            js_sub (user (cpu_after cpuUsage)) (user (cpu_before cpuUsage));
          diffSystem :=
            js_sub (system (cpu_after cpuUsage))
              (system (cpu_before cpuUsage)) |} |}.

Definition environment_of (w : World) (memoryUsage : MemoryUsageArg)
    (cpuUsage : CpuUsageArg) : Environment :=
  {| env_os := platform w;
     env_container := is_true_string (env_CONTAINER w);
     env_cpuCores := or_unknown (cpu_cores cpuUsage);
     env_memory := or_unknown_str (totalMemory (mem_before memoryUsage)) |}.

Definition report_of (runtime version experiment : string) (l : loc)
    (xs : list float) (memoryUsage : MemoryUsageArg)
    (cpuUsage : CpuUsageArg) (w : World) : Report :=
  {| runtime := runtime;
     version := version;
     experiment := experiment;
     timestamp := date_iso w;
     environment := environment_of w memoryUsage cpuUsage;
     metrics := metrics_of l xs memoryUsage cpuUsage;
     statistics := statistics_of xs;
     detailedIterationMetrics := None |}.

(** Concrete inputs on which the statements are exercised. *)
Definition example_snapshot : MemorySnapshot :=
  {| rss := Known (of_Z 52428800);
     heapTotal := Known (of_Z 8388608);
     heapUsed := Known (of_Z 4194304);
     external := Known (of_Z 1024);
     totalMemory := Some "16384MB"%string |}.

Definition unknown_snapshot : MemorySnapshot :=
  {| rss := Unknown;
     heapTotal := Known (of_Z 8388608);
     heapUsed := Unknown;
     external := Known (of_Z 1024);
     totalMemory := None |}.

Definition example_cpu : CpuSnapshot :=
  {| user := Known (of_Z 1200); system := Known (of_Z 300) |}.

Definition example_memory : MemoryUsageArg :=
  {| mem_before := example_snapshot; mem_after := example_snapshot |}.

Definition unknown_memory : MemoryUsageArg :=
  {| mem_before := unknown_snapshot; mem_after := example_snapshot |}.

Definition example_cpuUsage : CpuUsageArg :=
  {| cpu_before := example_cpu; cpu_after := example_cpu;
     cpu_cores := Known (of_Z 8) |}.

(** A world whose store holds one array, at reference 0. *)
Definition example_world (xs : list float) : World :=
  {| heap := [xs];
     date_iso := "2025-01-01T00:00:00.000Z";
     date_ms := "1735689600000";
     platform := "linux";
     env_CONTAINER := Some "true"%string;
     module_dir := "/app/benchmark-suites/bun/utils";
     dirs := ["/app/results"%string];
     files := [];
     denied := [];
     console := [] |}.

(** The same world with a results directory that cannot be created. *)
Definition readonly_world : World :=
  {| heap := [];
     date_iso := "2025-01-01T00:00:00.000Z";
     date_ms := "1735689600000";
     platform := "linux";
     env_CONTAINER := Some "true"%string;
     module_dir := "/app/benchmark-suites/bun/utils";
     dirs := [];
     files := [];
     denied := ["/readonly/results"%string];
     console := [] |}.

Definition example_run : Run :=
  {| run_version := "v20.11.0";
     run_cpuBefore := example_cpu;
     run_cpuCores := Known (of_Z 8);
     run_memoryBefore := example_snapshot;
     run_samples :=
       [ {| sample_time := of_Z 100; sample_before := example_snapshot;
            sample_after := example_snapshot |};
         {| sample_time := of_Z 300; sample_before := example_snapshot;
            sample_after := example_snapshot |};
         {| sample_time := of_Z 200; sample_before := example_snapshot;
            sample_after := example_snapshot |} ];
     run_cpuAfter := example_cpu;
     run_memoryAfter := example_snapshot |}.

Definition readonly_options : Options :=
  {| opt_experiment := Some "fibonacci"%string;
     opt_outputPath := Some "/readonly/results/out.json"%string;
     opt_detailedMetrics := None |}.

(** Persisting to [path] fails in world [w]: the directory is missing
    and cannot be created, or the file cannot be written. *)
Definition save_fails (path : string) (w : World) : Prop :=
  if in_list (dirname path) (dirs w)
  then in_list path (denied w) = true
  else in_list (dirname path) (denied w) = true
       \/ in_list path (denied w) = true.

(** Thirty-three durations of about nineteen days each: integers below
    2^53 whose sum is not. *)
Definition long_durations : list Z := repeat 1625066396464188 33.

(** *** Notions used to state the properties of the workloads *)

(** The Fibonacci numbers. *)
Fixpoint fib_pair (n : nat) : Z * Z :=
  match n with
  | O => (0, 1)
  | S n' => let '(a, b) := fib_pair n' in (b, a + b)
  end.

Definition fib (n : nat) : Z := fst (fib_pair n).

(** Whether a Number is [NaN]; ascending order of Numbers. *)
Definition is_nan (x : float) : bool :=
  match x with
  | S754_nan => true
  | _ => false
  end.

Definition ascending (l : list float) : Prop :=
  StronglySorted (fun x y => fle x y = true) l.

(** The same for the values of an array that may hold [undefined]. *)
Definition val_gt (current : jsval) (x : jsval) : Prop :=
  js_gt x current = true.

Definition val_le (a b : jsval) : Prop :=
  fle (to_number a) (to_number b) = true.

Definition val_number (v : jsval) : Prop := is_nan (to_number v) = false.

(** The value of [m[i][k]] for a row [i] that exists, the product that
    one step adds to cell (i, j), the sum of the first [n] products in
    the order of [k], and the matrix of given cells. *)
Definition entry (m : matrix) (i k : nat) : jsval :=
  match m !! i with
  | Some row => match row !! k with Some x => JNum x | None => JUndefined end
  | None => JUndefined
  end.

Definition term (a b : matrix) (i j k : nat) : float :=
  fmul (to_number (entry a i k)) (to_number (entry b k j)).

Definition partial_dot (a b : matrix) (i j n : nat) : float :=
  fold_left (fun acc k => fadd acc (term a b i j k)) (seq 0 n) pos_zero.

Definition grid (rows cols : nat) (f : nat -> nat -> float)
    : list (list jsval) :=
  map (fun i => map (fun j => JNum (f i j)) (seq 0 cols)) (seq 0 rows).

(** The same sum over integers. *)
Definition int_entry (m : list (list Z)) (i k : nat) : Z :=
  nth k (nth i m []) 0.

Definition int_dot (a b : list (list Z)) (i j n : nat) : Z :=
  fold_left (fun acc k => acc + int_entry a i k * int_entry b k j)
    (seq 0 n) 0.

(** The result matrix while the naive loop nest is at (i, j, k), and
    while the interchanged loop nest is at (i, k, j); [n] is the number
    of products in a cell. *)
Definition naive_state (a b : matrix) (rows cols n i j k : nat)
    : list (list jsval) :=
  grid rows cols (fun i' j' =>
    if (i' <? i)%nat || ((i' =? i)%nat && (j' <? j)%nat)
    then partial_dot a b i' j' n
    else if (i' =? i)%nat && (j' =? j)%nat then partial_dot a b i' j' k
    else pos_zero).

Definition optimized_state (a b : matrix) (rows cols n i k j : nat)
    : list (list jsval) :=
  grid rows cols (fun i' j' =>
    if (i' <? i)%nat then partial_dot a b i' j' n
    else if (i' =? i)%nat then
      (if (j' <? j)%nat then partial_dot a b i' j' (S k)
       else partial_dot a b i' j' k)
    else pos_zero).

(** The entries that the measuring loop appends to
    [detailedIterationMetrics], the first of them for pass [i]. *)
Fixpoint iteration_entries (i : nat) (samples : list Sample)
    : list IterationMetrics :=
  match samples with
  | [] => []
  | s :: rest =>
      {| iteration := fadd (of_nat i) (of_Z 1);
         it_executionTime := sample_time s;
         it_before := sample_before s;
         it_after := sample_after s;
         it_diff := memory_diff (sample_before s) (sample_after s) |}
      :: iteration_entries (S i) rest
  end.

(** The report that a driver named [name] builds from a run, and the
    store after it: the array of execution times and its sorted copy
    are new. *)
Definition driver_report (name : string) (run : Run) (options : Options)
    (w : World) : Report :=
  let times := map sample_time (run_samples run) in
  let r :=
    report_of name (run_version run)
      (default "unknown"%string (opt_experiment options))
      (length (heap w)) times
      {| mem_before := run_memoryBefore run;
         mem_after := run_memoryAfter run |}
      {| cpu_before := run_cpuBefore run;
         cpu_after := run_cpuAfter run;
         cpu_cores := run_cpuCores run |} w in
  if default true (opt_detailedMetrics options)
  then with_detailed r (iteration_entries 0 (run_samples run))
  else r.

Definition driver_heap (run : Run) (w : World) : list (list float) :=
  let times := map sample_time (run_samples run) in
  heap w ++ [times; js_sort compare_numbers times].

(** The lines that went to the error stream. *)
Definition stderr_lines (w : World) : list string :=
  map snd (List.filter (fun line => match fst line with
                                    | Stderr => true
                                    | Stdout => false
                                    end) (console w)).

(** A computation that leaves the store of arrays as it found it. *)
Definition keeps_heap {A : Type} (m : M A) : Prop :=
  forall w, heap (snd (m w)) = heap w.

(** The entry of [detailedIterationMetrics] for the sample [s] measured
    in pass [k] (counted from 0): passes are numbered from 1. *)
Definition entry_of (k : nat) (s : Sample) : IterationMetrics :=
  {| iteration := of_Z (Z.of_nat k + 1);
     it_executionTime := sample_time s;
     it_before := sample_before s;
     it_after := sample_after s;
     it_diff := memory_diff (sample_before s) (sample_after s) |}.

(** Nothing stands in the way of saving to [path]: its directory exists
    or can be created, and the file can be written. *)
Definition save_possible (path : string) (w : World) : Prop :=
  (in_list (dirname path) (dirs w) = true
   \/ in_list (dirname path) (denied w) = false)
  /\ in_list path (denied w) = false.

Definition writable_world : World :=
  {| heap := []; date_iso := "2025-01-01T00:00:00.000Z";
     date_ms := "1735689600000"; platform := "linux";
     env_CONTAINER := Some "true"%string; module_dir := "/app/bun";
     dirs := []; files := []; denied := ["/results/locked.json"%string];
     console := [] |}.

Definition results_options (path : string) : Options :=
  {| opt_experiment := Some "fibonacci"%string;
     opt_outputPath := Some path;
     opt_detailedMetrics := None |}.

Definition no_path_options : Options :=
  {| opt_experiment := Some "fibonacci"%string;
     opt_outputPath := None;
     opt_detailedMetrics := Some false |}.

(** The report and the store of the Deno driver, as [driver_report] and
    [driver_heap] for the others. *)
Fixpoint deno_entries (i : nat) (samples : list DenoSample)
    : list IterationMetrics :=
  match samples with
  | [] => []
  | s :: rest =>
      {| iteration := fadd (of_nat i) (of_Z 1);
         it_executionTime := deno_executionTime s;
         it_before := deno_before s;
         it_after := deno_after s;
         it_diff := deno_memory_diff (deno_before s) (deno_after s) |}
      :: deno_entries (S i) rest
  end.

Definition deno_report (run : DenoRun) (options : Options) (w : World)
    : Report :=
  let times := map deno_executionTime (deno_samples run) in
  let r :=
    report_of "deno" (deno_version run)
      (default "unknown"%string (opt_experiment options))
      (length (heap w)) times
      {| mem_before := deno_memoryBefore run;
         mem_after := deno_memoryAfter run |}
      {| cpu_before := deno_cpuBefore run;
         cpu_after := deno_cpuAfter run;
         cpu_cores := deno_cpuCores run |} w in
  if default true (opt_detailedMetrics options)
  then with_detailed r (deno_entries 0 (deno_samples run))
  else r.

Definition deno_heap (run : DenoRun) (w : World) : list (list float) :=
  let times := map deno_executionTime (deno_samples run) in
  heap w ++ [times; js_sort compare_numbers times].

(** The two attempts of the Deno driver at saving [r] to [p]. *)
Definition deno_first_attempt (r : Report) (p : string) : M unit :=
  data <- JSON_stringify r ;;
  Deno_writeTextFileSync p data ;;;
  console_log ("Результаты сохранены в " ++ p).

Definition deno_second_attempt (r : Report) (p : string) : M unit :=
  Deno_mkdirSync (dirname p) ;;;
  data <- JSON_stringify r ;;
  Deno_writeTextFileSync p data ;;;
  console_log ("Результаты сохранены в " ++ p
               ++ " после создания директории").

Definition deno_save (r : Report) (p : string) : M unit :=
  try_catch (deno_first_attempt r p)
    (fun error =>
       console_error
         ("Ошибка при сохранении результатов: " ++ error_message error) ;;;
       try_catch (deno_second_attempt r p)
         (fun e =>
            console_error
              ("Не удалось сохранить результаты даже после создания директории: "
               ++ error_message e))).

Definition example_deno_run : DenoRun :=
  {| deno_version := "1.40.0";
     deno_cpuBefore := example_cpu;
     deno_cpuCores := Known (of_Z 8);
     deno_memoryBefore := unknown_snapshot;
     deno_samples :=
       [ {| deno_startTime := of_Z 10; deno_endTime := of_Z 12;
            deno_before := example_snapshot;
            deno_after := example_snapshot |};
         {| deno_startTime := of_Z 40; deno_endTime := of_Z 45;
            deno_before := example_snapshot;
            deno_after := example_snapshot |} ];
     deno_cpuAfter := example_cpu;
     deno_memoryAfter := unknown_snapshot |}.

(** A [join] for the examples: the segments put together with slashes
    (the library also normalises the result). *)
Definition example_join (segments : list string) : string :=
  String.concat "/" segments.

(* ===================================================================== *)
(** ** Binary64 arithmetic: digits, shifts and rounding *)
(* ===================================================================== *)

(** *** Number of binary digits *)

Lemma digits2_pos_size (p : positive) : digits2_pos p = Pos.size p.
Proof. induction p; simpl; congruence. Qed.

Lemma Zdigits2_log2 (p : positive) :
  Zdigits2 (Zpos p) = Z.log2 (Zpos p) + 1.
Proof.
  unfold Zdigits2. rewrite digits2_pos_size.
  destruct p; simpl; lia.
Qed.

Lemma Zdigits2_bounds (m : Z) :
  0 < m -> 2 ^ (Zdigits2 m - 1) <= m < 2 ^ Zdigits2 m.
Proof.
  intros Hm. destruct m as [|p|p]; try lia.
  rewrite Zdigits2_log2.
  replace (Z.log2 (Z.pos p) + 1 - 1) with (Z.log2 (Z.pos p)) by lia.
  pose proof (Z.log2_spec (Z.pos p) ltac:(lia)) as H.
  replace (Z.succ (Z.log2 (Z.pos p))) with (Z.log2 (Z.pos p) + 1) in H by lia.
  exact H.
Qed.

Lemma Zdigits2_unique (m d : Z) :
  2 ^ (d - 1) <= m < 2 ^ d -> 0 < m -> Zdigits2 m = d.
Proof.
  intros H Hm. destruct m as [|p|p]; try lia.
  rewrite Zdigits2_log2.
  assert (0 < d).
  { destruct (Z_lt_le_dec 0 d) as [|Hd]; [easy|].
    rewrite (Z.pow_neg_r 2 (d - 1)) in H by lia.
    destruct (Z.eq_dec d 0) as [->|]; [simpl in H; lia|].
    rewrite (Z.pow_neg_r 2 d) in H by lia. lia. }
  assert (Z.log2 (Z.pos p) = d - 1); [|lia].
  apply Z.log2_unique; [lia|].
  replace (Z.succ (d - 1)) with d by lia. exact H.
Qed.

Lemma Zdigits2_pos_positive (p : positive) : 0 < Zdigits2 (Zpos p).
Proof. simpl. lia. Qed.

(** *** Shifting the mantissa right *)

Lemma iter_pos_nat {A : Type} (f : A -> A) (p : positive) (x : A) :
  SpecFloat.iter_pos f p x = Nat.iter (Pos.to_nat p) f x.
Proof.
  revert x. induction p as [p IH|p IH|]; intros x.
  - rewrite Pos2Nat.inj_xI.
    replace (S (2 * Pos.to_nat p)) with (Pos.to_nat p + (Pos.to_nat p + 1))%nat
      by lia.
    rewrite !Nat.iter_add. simpl. rewrite !IH. reflexivity.
  - rewrite Pos2Nat.inj_xO.
    replace (2 * Pos.to_nat p)%nat with (Pos.to_nat p + Pos.to_nat p)%nat
      by lia.
    rewrite Nat.iter_add. simpl. rewrite !IH. reflexivity.
  - reflexivity.
Qed.

Lemma shr_1_nonneg (m : Z) (r s : bool) :
  0 <= m ->
  shr_1 {| shr_m := m; shr_r := r; shr_s := s |} =
  {| shr_m := m / 2; shr_r := Z.odd m; shr_s := r || s |}.
Proof.
  intros Hm. destruct m as [|[p|p|]|p]; try lia; simpl.
  - reflexivity.
  - f_equal. rewrite Pos2Z.inj_xI.
    apply Z.div_unique with (r := 1); lia.
  - f_equal. rewrite Pos2Z.inj_xO.
    apply Z.div_unique with (r := 0); lia.
  - reflexivity.
Qed.

(** After [k+1] single shifts the record holds the quotient, the last
    bit shifted out and whether anything nonzero was shifted out before
    it. *)
Lemma shr_iter (k : nat) (m : Z) (r s : bool) :
  0 <= m ->
  Nat.iter (S k) shr_1 {| shr_m := m; shr_r := r; shr_s := s |} =
  {| shr_m := m / 2 ^ Z.of_nat (S k);
     shr_r := Z.odd (m / 2 ^ Z.of_nat k);
     shr_s := negb (m mod 2 ^ Z.of_nat k =? 0) || (r || s) |}.
Proof.
  intros Hm. induction k as [|k IH].
  - cbn [Nat.iter nat_rect]. rewrite shr_1_nonneg by lia.
    change (2 ^ Z.of_nat 1) with 2. change (2 ^ Z.of_nat 0) with 1.
    rewrite Z.div_1_r, Z.mod_1_r. reflexivity.
  - change (Nat.iter (S (S k)) shr_1 ?x) with (shr_1 (Nat.iter (S k) shr_1 x)).
    rewrite IH.
    assert (Hp : 0 < 2 ^ Z.of_nat k) by (apply Z.pow_pos_nonneg; lia).
    assert (Hs : 2 ^ Z.of_nat (S k) = 2 ^ Z.of_nat k * 2).
    { rewrite Nat2Z.inj_succ, Z.pow_succ_r by lia. lia. }
    assert (Hss : 2 ^ Z.of_nat (S (S k)) = 2 ^ Z.of_nat (S k) * 2).
    { rewrite (Nat2Z.inj_succ (S k)), Z.pow_succ_r by lia. lia. }
    rewrite shr_1_nonneg by (apply Z.div_pos; lia).
    f_equal.
    + rewrite Hss, Z.div_div by lia. reflexivity.
    + pose proof (Z.mod_pos_bound m (2 ^ Z.of_nat k) Hp) as Hb.
      assert (Hmod : m mod 2 ^ Z.of_nat (S k) =
                    m mod 2 ^ Z.of_nat k
                    + 2 ^ Z.of_nat k * ((m / 2 ^ Z.of_nat k) mod 2)).
      { rewrite Hs. rewrite Z.rem_mul_r by lia. lia. }
      rewrite Hmod.
      rewrite (Zmod_odd (m / 2 ^ Z.of_nat k)).
      destruct (Z.odd (m / 2 ^ Z.of_nat k)).
      * simpl. destruct (m mod 2 ^ Z.of_nat k + 2 ^ Z.of_nat k * 1 =? 0) eqn:E.
        { apply Z.eqb_eq in E. lia. }
        reflexivity.
      * rewrite Z.mul_0_r, Z.add_0_r. simpl.
        destruct (m mod 2 ^ Z.of_nat k =? 0); reflexivity.
Qed.

Lemma shr_pos (m : Z) (r s : bool) (e : Z) (n : positive) :
  0 <= m ->
  shr {| shr_m := m; shr_r := r; shr_s := s |} e (Zpos n) =
  ({| shr_m := m / 2 ^ Zpos n;
      shr_r := Z.odd (m / 2 ^ (Zpos n - 1));
      shr_s := negb (m mod 2 ^ (Zpos n - 1) =? 0) || (r || s) |},
   e + Zpos n).
Proof.
  intros Hm. unfold shr. rewrite iter_pos_nat.
  destruct (Pos.to_nat n) as [|k] eqn:Hk; [lia|].
  rewrite shr_iter by lia.
  replace (Z.of_nat (S k)) with (Zpos n) by lia.
  replace (Z.of_nat k) with (Zpos n - 1) by lia.
  reflexivity.
Qed.

(** *** Rounding a mantissa of at least 53 digits *)

Lemma fexp_normal (x : Z) : -1074 <= x - 53 -> fexp 53 1024 x = x - 53.
Proof. unfold fexp, emin. lia. Qed.

Lemma loc_of_shr_record_of_loc (m : Z) (l : location) :
  loc_of_shr_record (shr_record_of_loc m l) = l.
Proof. destruct l as [|[]]; reflexivity. Qed.

Lemma shr_m_of_loc (m : Z) (l : location) : shr_m (shr_record_of_loc m l) = m.
Proof. destruct l as [|[]]; reflexivity. Qed.

Lemma binary_round_aux_rounded (s : bool) (m e : Z) (l : location) :
  0 < m -> 53 <= Zdigits2 m -> -1074 <= Zdigits2 m + e - 53 ->
  binary_round_aux 53 1024 s m e l =
  if snd (rounded m e l) <=? 971
  then S754_finite s (Z.to_pos (fst (rounded m e l))) (snd (rounded m e l))
  else S754_infinity s.
Proof.
  intros Hm Hd Hlo.
  pose proof (Zdigits2_bounds m Hm) as Hb.
  unfold binary_round_aux, rounded, shr_fexp.
  rewrite fexp_normal by lia.
  set (d := Zdigits2 m) in *.
  replace (d + e - 53 - e) with (d - 53) by lia.
  set (n := d - 53).
  assert (Hq : 2 ^ 52 <= m / 2 ^ n < 2 ^ 53).
  { assert (0 < 2 ^ n) by (apply Z.pow_pos_nonneg; lia).
    assert (2 ^ (d - 1) = 2 ^ 52 * 2 ^ n).
    { rewrite <- Z.pow_add_r by lia. f_equal. lia. }
    assert (2 ^ d = 2 ^ 53 * 2 ^ n).
    { rewrite <- Z.pow_add_r by lia. f_equal. lia. }
    split.
    - apply Z.div_le_lower_bound; lia.
    - apply Z.div_lt_upper_bound; lia. }
  (* first shift *)
  assert (Hfirst :
    exists mrs, shr (shr_record_of_loc m l) e n = (mrs, e + n) /\
      shr_m mrs = m / 2 ^ n /\
      round_nearest_even (shr_m mrs) (loc_of_shr_record mrs) =
      (if round_up m n l then m / 2 ^ n + 1 else m / 2 ^ n)).
  { destruct n as [|p|p] eqn:Hn; try lia.
    - exists (shr_record_of_loc m l). simpl shr.
      rewrite loc_of_shr_record_of_loc, shr_m_of_loc.
      replace (e + 0) with e by lia.
      change (2 ^ 0) with 1. rewrite Z.div_1_r.
      repeat split.
      unfold round_up. simpl. destruct l as [|[]]; simpl; try reflexivity.
      rewrite <- Z.negb_odd. destruct (Z.odd m); reflexivity.
    - assert (Hrec : shr_record_of_loc m l =
        {| shr_m := m; shr_r := shr_r (shr_record_of_loc m l);
           shr_s := shr_s (shr_record_of_loc m l) |}).
      { destruct l as [|[]]; reflexivity. }
      rewrite Hrec, shr_pos by lia.
      eexists. split; [reflexivity|]. split; [reflexivity|].
      unfold round_up. cbn [shr_m shr_r shr_s loc_of_shr_record].
      replace (Z.pos p <=? 0) with false by (symmetry; apply Z.leb_gt; lia).
      assert (Hrs : shr_r (shr_record_of_loc m l) || shr_s (shr_record_of_loc m l)
                    = inexact_loc l).
      { destruct l as [|[]]; reflexivity. }
      rewrite Hrs.
      destruct (Z.odd (m / 2 ^ (Z.pos p - 1)));
        destruct (negb (m mod 2 ^ (Z.pos p - 1) =? 0) || inexact_loc l);
        simpl; try reflexivity.
      rewrite <- Z.negb_odd. destruct (Z.odd (m / 2 ^ Z.pos p)); reflexivity. }
  destruct Hfirst as (mrs & -> & Hmrs & ->).
  set (m1 := if round_up m n l then m / 2 ^ n + 1 else m / 2 ^ n).
  assert (Hm1 : 2 ^ 52 <= m1 <= 2 ^ 53).
  { unfold m1. destruct (round_up m n l); lia. }
  destruct (m1 <? 2 ^ 53) eqn:Hlt.
  - apply Z.ltb_lt in Hlt.
    assert (Hd1 : Zdigits2 m1 = 53) by (apply Zdigits2_unique; simpl; lia).
    rewrite Hd1, fexp_normal by lia.
    replace (53 + (e + n) - 53 - (e + n)) with 0 by lia.
    cbn [shr shr_record_of_loc shr_m fst snd].
    destruct m1 as [|p1|p1] eqn:E1; try lia.
    change (1024 - 53) with 971. reflexivity.
  - apply Z.ltb_ge in Hlt.
    assert (Hm1' : m1 = 2 ^ 53) by lia.
    rewrite Hm1'.
    change (Zdigits2 (2 ^ 53)) with 54.
    rewrite fexp_normal by lia.
    replace (54 + (e + n) - 53 - (e + n)) with 1 by lia.
    change (shr_record_of_loc (2 ^ 53) loc_Exact)
      with {| shr_m := 2 ^ 53; shr_r := false; shr_s := false |}.
    rewrite shr_pos by lia.
    cbn [shr_m fst snd].
    change (2 ^ 53 / 2 ^ 1) with (Z.pos (Z.to_pos (2 ^ 52))).
    cbv iota. change (1024 - 53) with 971. reflexivity.
Qed.

(** The mantissa that [rounded] yields has 53 digits; its exponent is
    that of the leading 53 digits, or one more. *)
Lemma rounded_range (m e : Z) (l : location) :
  0 < m -> 53 <= Zdigits2 m ->
  2 ^ 52 <= fst (rounded m e l) < 2 ^ 53 /\
  e + (Zdigits2 m - 53) <= snd (rounded m e l) <= e + (Zdigits2 m - 53) + 1.
Proof.
  intros Hm Hd. pose proof (Zdigits2_bounds m Hm) as Hb.
  unfold rounded. set (d := Zdigits2 m) in *. set (n := d - 53).
  assert (Hq : 2 ^ 52 <= m / 2 ^ n < 2 ^ 53).
  { assert (0 < 2 ^ n) by (apply Z.pow_pos_nonneg; lia).
    assert (2 ^ (d - 1) = 2 ^ 52 * 2 ^ n).
    { rewrite <- Z.pow_add_r by lia. f_equal. lia. }
    assert (2 ^ d = 2 ^ 53 * 2 ^ n).
    { rewrite <- Z.pow_add_r by lia. f_equal. lia. }
    split.
    - apply Z.div_le_lower_bound; lia.
    - apply Z.div_lt_upper_bound; lia. }
  set (m1 := if round_up m n l then m / 2 ^ n + 1 else m / 2 ^ n).
  assert (Hm1 : 2 ^ 52 <= m1 <= 2 ^ 53)
    by (unfold m1; destruct (round_up m n l); lia).
  destruct (m1 <? 2 ^ 53) eqn:Hlt; cbn [fst snd].
  - apply Z.ltb_lt in Hlt. lia.
  - lia.
Qed.

Lemma binary_round_aux_normal (s : bool) (m e : Z) (l : location) :
  0 < m -> 53 <= Zdigits2 m ->
  -1074 <= Zdigits2 m + e - 53 -> Zdigits2 m + e - 52 <= 971 ->
  binary_round_aux 53 1024 s m e l =
  S754_finite s (Z.to_pos (fst (rounded m e l))) (snd (rounded m e l)).
Proof.
  intros Hm Hd Hlo Hhi.
  rewrite binary_round_aux_rounded by assumption.
  pose proof (rounded_range m e l Hm Hd) as [_ Hr].
  replace (snd (rounded m e l) <=? 971) with true
    by (symmetry; apply Z.leb_le; lia).
  reflexivity.
Qed.

(** *** Aligning mantissas and normalising *)

Lemma pos_iter_xO (p k : positive) :
  Zpos (Pos.iter xO p k) = Zpos p * 2 ^ Zpos k.
Proof.
  induction k as [|k IH] using Pos.peano_ind.
  - simpl. lia.
  - rewrite Pos.iter_succ, Pos2Z.inj_xO, IH, Pos2Z.inj_succ.
    rewrite Z.pow_succ_r by lia. lia.
Qed.

Lemma shl_align_le (mx : positive) (ex ex' : Z) :
  ex' <= ex ->
  shl_align mx ex ex' = (Z.to_pos (Zpos mx * 2 ^ (ex - ex')), ex').
Proof.
  intros H. unfold shl_align.
  destruct (ex' - ex) as [|d|d] eqn:E; try lia.
  - replace (ex - ex') with 0 by lia. rewrite Z.mul_1_r.
    simpl. f_equal. lia.
  - replace (ex - ex') with (Zpos d) by lia.
    rewrite <- pos_iter_xO. simpl. reflexivity.
Qed.

Lemma shl_align_ge (mx : positive) (ex ex' : Z) :
  ex <= ex' -> shl_align mx ex ex' = (mx, ex).
Proof.
  intros H. unfold shl_align.
  destruct (ex' - ex) as [|d|d] eqn:E; try lia; reflexivity.
Qed.

Lemma Zdigits2_mul_pow2 (m k : Z) :
  0 < m -> 0 <= k -> Zdigits2 (m * 2 ^ k) = Zdigits2 m + k.
Proof.
  intros Hm Hk. pose proof (Zdigits2_bounds m Hm) as Hb.
  assert (0 < 2 ^ k) by (apply Z.pow_pos_nonneg; lia).
  assert (0 < Zdigits2 m) by (destruct m; try lia; apply Zdigits2_pos_positive).
  apply Zdigits2_unique; [|nia].
  replace (Zdigits2 m + k - 1) with (Zdigits2 m - 1 + k) by lia.
  rewrite !Z.pow_add_r by lia. nia.
Qed.

(** A value with at least 53 digits whose dropped bits are all zero is
    not changed by rounding. *)
Lemma rounded_exact (m e : Z) :
  0 < m -> 53 <= Zdigits2 m -> m mod 2 ^ (Zdigits2 m - 53) = 0 ->
  rounded m e loc_Exact = (m / 2 ^ (Zdigits2 m - 53), e + (Zdigits2 m - 53)).
Proof.
  intros Hm Hd Hmod.
  pose proof (Zdigits2_bounds m Hm) as Hb.
  unfold rounded. set (n := Zdigits2 m - 53) in *.
  assert (Hpn : 0 < 2 ^ n) by (apply Z.pow_pos_nonneg; lia).
  assert (Hup : round_up m n loc_Exact = false).
  { unfold round_up. destruct (n <=? 0) eqn:E; [reflexivity|].
    apply Z.leb_gt in E.
    assert (Hn1 : 2 ^ n = 2 ^ (n - 1) * 2).
    { replace n with (n - 1 + 1) at 1 by lia.
      rewrite Z.pow_add_r by lia. lia. }
    assert (Hp1 : 0 < 2 ^ (n - 1)) by (apply Z.pow_pos_nonneg; lia).
    apply Z.mod_divide in Hmod; [|lia]. destruct Hmod as [c Hc].
    assert (Hdiv : m / 2 ^ (n - 1) = c * 2).
    { rewrite Hc, Hn1.
      replace (c * (2 ^ (n - 1) * 2)) with (c * 2 * 2 ^ (n - 1)) by lia.
      apply Z.div_mul. lia. }
    rewrite Hdiv, Z.odd_mul. simpl. rewrite andb_false_r. reflexivity. }
  rewrite Hup.
  assert (Hq : m / 2 ^ n < 2 ^ 53).
  { apply Z.div_lt_upper_bound; [lia|].
    rewrite <- Z.pow_add_r by lia. replace (n + 53) with (Zdigits2 m) by lia.
    lia. }
  replace (m / 2 ^ n <? 2 ^ 53) with true by (symmetry; apply Z.ltb_lt; lia).
  reflexivity.
Qed.

(** [binary_round] of any representation [m * 2^e] of a positive integer
    below 2^53 yields its one canonical representation. *)

Lemma binary_round_int (s : bool) (m : positive) (e z : Z) :
  0 < z < 2 ^ 53 -> e <= 0 -> Zpos m = z * 2 ^ (- e) ->
  binary_round 53 1024 s m e =
  S754_finite s (int_mantissa z) (int_exponent z).
Proof.
  intros Hz He Hm.
  pose proof (Zdigits2_bounds z ltac:(lia)) as Hbz.
  assert (Hdz : 0 < Zdigits2 z <= 53).
  { split.
    - destruct z; try lia. apply Zdigits2_pos_positive.
    - destruct (Z_le_gt_dec (Zdigits2 z) 53) as [|Hgt]; [easy|].
      assert (2 ^ 53 <= 2 ^ (Zdigits2 z - 1)) by (apply Z.pow_le_mono_r; lia).
      lia. }
  assert (Hd : Zdigits2 (Zpos m) = Zdigits2 z - e).
  { rewrite Hm, Zdigits2_mul_pow2 by lia. lia. }
  unfold binary_round, int_mantissa, int_exponent.
  change (Z.pos (digits2_pos m)) with (Zdigits2 (Zpos m)).
  rewrite Hd. replace (Zdigits2 z - e + e) with (Zdigits2 z) by lia.
  rewrite fexp_normal by lia.
  destruct (Z_le_gt_dec (Zdigits2 z - 53) e) as [Hle|Hgt].
  - (* fewer than 53 digits: shift left, nothing is rounded *)
    rewrite shl_align_le by lia.
    set (mz := Zpos m * 2 ^ (e - (Zdigits2 z - 53))).
    assert (Hmz : mz = z * 2 ^ (53 - Zdigits2 z)).
    { unfold mz. rewrite Hm, <- Z.mul_assoc, <- Z.pow_add_r by lia.
      do 2 f_equal. lia. }
    assert (Hmzpos : 0 < mz).
    { rewrite Hmz. apply Z.mul_pos_pos; [lia|apply Z.pow_pos_nonneg; lia]. }
    assert (Hdm : Zdigits2 mz = 53).
    { rewrite Hmz, Zdigits2_mul_pow2 by lia. lia. }
    rewrite Z2Pos.id by lia.
    rewrite binary_round_aux_normal by lia.
    rewrite rounded_exact.
    + rewrite Hdm. cbn [fst snd]. change (2 ^ (53 - 53)) with 1.
      rewrite Z.div_1_r. rewrite Hmz. f_equal. lia.
    + lia.
    + lia.
    + rewrite Hdm. change (2 ^ (53 - 53)) with 1. apply Z.mod_1_r.
  - (* more than 53 digits, the surplus being zero bits *)
    rewrite shl_align_ge by lia.
    rewrite binary_round_aux_normal by lia.
    assert (Hn : Zdigits2 (Zpos m) - 53 = Zdigits2 z - 53 - e) by lia.
    assert (Hsplit : Zpos m = z * 2 ^ (53 - Zdigits2 z) * 2 ^ (Zdigits2 z - 53 - e)).
    { rewrite Hm, <- Z.mul_assoc, <- Z.pow_add_r by lia. do 2 f_equal. lia. }
    assert (Hpp : 0 < 2 ^ (Zdigits2 z - 53 - e)) by (apply Z.pow_pos_nonneg; lia).
    rewrite rounded_exact.
    + rewrite Hn. cbn [fst snd]. rewrite Hsplit at 1.
      rewrite Z.div_mul by lia. f_equal. lia.
    + lia.
    + lia.
    + rewrite Hn, Hsplit. apply Z.mod_mul. lia.
Qed.

Lemma of_Z_pos (z : Z) :
  0 < z < 2 ^ 53 ->
  of_Z z = S754_finite false (int_mantissa z) (int_exponent z).
Proof.
  intros Hz. unfold of_Z, binary_normalize.
  destruct z as [|p|p]; try lia.
  apply binary_round_int; [lia|lia|]. simpl. lia.
Qed.

Lemma of_Z_neg (z : Z) :
  0 < z < 2 ^ 53 ->
  of_Z (- z) = S754_finite true (int_mantissa z) (int_exponent z).
Proof.
  intros Hz. unfold of_Z, binary_normalize.
  destruct z as [|p|p]; try lia. simpl Z.opp.
  apply binary_round_int; [lia|lia|]. simpl. lia.
Qed.

Lemma of_Z_zero : of_Z 0 = pos_zero.
Proof. reflexivity. Qed.

(** *** Sums and differences of integers are exact *)

Lemma int_digits_range (z : Z) : 0 < z < 2 ^ 53 -> 0 < Zdigits2 z <= 53.
Proof.
  intros Hz. pose proof (Zdigits2_bounds z ltac:(lia)) as Hbz. split.
  - destruct z; try lia. apply Zdigits2_pos_positive.
  - destruct (Z_le_gt_dec (Zdigits2 z) 53) as [|Hgt]; [easy|].
    assert (2 ^ 53 <= 2 ^ (Zdigits2 z - 1)) by (apply Z.pow_le_mono_r; lia).
    lia.
Qed.

Lemma int_mantissa_pos (z : Z) :
  0 < z < 2 ^ 53 -> Zpos (int_mantissa z) = z * 2 ^ (53 - Zdigits2 z).
Proof.
  intros Hz. pose proof (int_digits_range z Hz).
  unfold int_mantissa. rewrite Z2Pos.id; [reflexivity|].
  apply Z.mul_pos_pos; [lia|apply Z.pow_pos_nonneg; lia].
Qed.

(** The mantissa of an integer, aligned to an exponent [ez] not above
    its own. *)
Lemma int_aligned (z ez : Z) :
  0 < z < 2 ^ 53 -> ez <= int_exponent z ->
  Zpos (fst (shl_align (int_mantissa z) (int_exponent z) ez)) = z * 2 ^ (- ez).
Proof.
  intros Hz He. pose proof (int_digits_range z Hz).
  rewrite shl_align_le by lia. cbn [fst].
  rewrite int_mantissa_pos by lia. unfold int_exponent in *.
  assert (0 < 2 ^ (53 - Zdigits2 z)) by (apply Z.pow_pos_nonneg; lia).
  assert (0 < 2 ^ (Zdigits2 z - 53 - ez)) by (apply Z.pow_pos_nonneg; lia).
  rewrite Z2Pos.id by nia.
  rewrite <- Z.mul_assoc, <- Z.pow_add_r by lia. do 2 f_equal. lia.
Qed.

Lemma fsub_int (a b : Z) :
  0 <= a < 2 ^ 53 -> 0 <= b < 2 ^ 53 ->
  fsub (of_Z a) (of_Z b) = of_Z (a - b).
Proof.
  intros Ha Hb.
  destruct (Z.eq_dec a 0) as [->|Ha0]; destruct (Z.eq_dec b 0) as [->|Hb0].
  - reflexivity.
  - rewrite of_Z_zero. rewrite (of_Z_pos b) by lia.
    replace (0 - b) with (- b) by lia. rewrite of_Z_neg by lia. reflexivity.
  - rewrite of_Z_zero. rewrite Z.sub_0_r. rewrite (of_Z_pos a) by lia.
    reflexivity.
  - rewrite (of_Z_pos a), (of_Z_pos b) by lia.
    unfold fsub, SFsub. cbn [cond_Zopp].
    set (ez := Z.min (int_exponent a) (int_exponent b)).
    pose proof (int_digits_range a ltac:(lia)).
    pose proof (int_digits_range b ltac:(lia)).
    assert (Hez : ez <= 0) by (unfold ez, int_exponent; lia).
    rewrite !int_aligned by (unfold ez; lia).
    assert (Hp : 0 < 2 ^ (- ez)) by (apply Z.pow_pos_nonneg; lia).
    replace (a * 2 ^ (- ez) - b * 2 ^ (- ez)) with ((a - b) * 2 ^ (- ez)) by lia.
    destruct (Z.lt_trichotomy a b) as [Hlt|[Heq|Hgt]].
    + destruct ((a - b) * 2 ^ (- ez)) as [|p|p] eqn:E; try nia.
      unfold binary_normalize.
      replace (a - b) with (- (b - a)) by lia. rewrite of_Z_neg by lia.
      apply binary_round_int; [lia|lia|nia].
    + subst b. rewrite Z.sub_diag. reflexivity.
    + destruct ((a - b) * 2 ^ (- ez)) as [|p|p] eqn:E; try nia.
      unfold binary_normalize. rewrite of_Z_pos by lia.
      apply binary_round_int; [lia|lia|nia].
Qed.

Lemma fadd_int (a b : Z) :
  0 <= a -> 0 <= b -> a + b < 2 ^ 53 ->
  fadd (of_Z a) (of_Z b) = of_Z (a + b).
Proof.
  intros Ha Hb Hab.
  destruct (Z.eq_dec a 0) as [->|Ha0]; destruct (Z.eq_dec b 0) as [->|Hb0].
  - reflexivity.
  - rewrite of_Z_zero. rewrite Z.add_0_l. rewrite (of_Z_pos b) by lia.
    reflexivity.
  - rewrite of_Z_zero. rewrite Z.add_0_r. rewrite (of_Z_pos a) by lia.
    reflexivity.
  - rewrite (of_Z_pos a), (of_Z_pos b), (of_Z_pos (a + b)) by lia.
    unfold fadd, SFadd. cbn [cond_Zopp].
    set (ez := Z.min (int_exponent a) (int_exponent b)).
    pose proof (int_digits_range a ltac:(lia)).
    pose proof (int_digits_range b ltac:(lia)).
    assert (Hez : ez <= 0) by (unfold ez, int_exponent; lia).
    rewrite !int_aligned by (unfold ez; lia).
    assert (Hp : 0 < 2 ^ (- ez)) by (apply Z.pow_pos_nonneg; lia).
    replace (a * 2 ^ (- ez) + b * 2 ^ (- ez)) with ((a + b) * 2 ^ (- ez)) by lia.
    destruct ((a + b) * 2 ^ (- ez)) as [|p|p] eqn:E; try nia.
    unfold binary_normalize.
    apply binary_round_int; [lia|lia|nia].
Qed.

(** *** Products and quotients of normal numbers *)

Lemma Zdigits2_mul_53 (mx my : positive) :
  Zdigits2 (Zpos mx) = 53 -> Zdigits2 (Zpos my) = 53 ->
  105 <= Zdigits2 (Zpos (mx * my)) <= 106.
Proof.
  intros Hx Hy.
  pose proof (Zdigits2_bounds (Zpos mx) ltac:(lia)) as Bx.
  pose proof (Zdigits2_bounds (Zpos my) ltac:(lia)) as By.
  rewrite Hx in Bx. rewrite Hy in By.
  change (2 ^ (53 - 1)) with (2 ^ 52) in *.
  pose proof (Zdigits2_bounds (Zpos (mx * my)) ltac:(lia)) as B.
  rewrite Pos2Z.inj_mul in *.
  set (d := Zdigits2 (Z.pos mx * Z.pos my)) in *.
  assert (Hlo : 2 ^ 104 <= Z.pos mx * Z.pos my).
  { change (2 ^ 104) with (2 ^ 52 * 2 ^ 52). nia. }
  assert (Hhi : Z.pos mx * Z.pos my < 2 ^ 106).
  { change (2 ^ 106) with (2 ^ 53 * 2 ^ 53). nia. }
  split.
  - destruct (Z_le_gt_dec 105 d) as [|Hgt]; [easy|].
    assert (2 ^ d <= 2 ^ 104) by (apply Z.pow_le_mono_r; lia). lia.
  - destruct (Z_le_gt_dec d 106) as [|Hgt]; [easy|].
    assert (2 ^ 106 <= 2 ^ (d - 1)) by (apply Z.pow_le_mono_r; lia). lia.
Qed.

Lemma fmul_normal (mx my : positive) (ex ey : Z) :
  Zdigits2 (Zpos mx) = 53 -> Zdigits2 (Zpos my) = 53 ->
  -1074 <= 52 + ex + ey -> 54 + ex + ey <= 971 ->
  fmul (S754_finite false mx ex) (S754_finite false my ey) =
  S754_finite false
    (Z.to_pos (fst (rounded (Zpos mx * Zpos my) (ex + ey) loc_Exact)))
    (snd (rounded (Zpos mx * Zpos my) (ex + ey) loc_Exact)).
Proof.
  intros Hx Hy Hlo Hhi.
  pose proof (Zdigits2_mul_53 mx my Hx Hy) as Hd.
  unfold fmul, SFmul. cbn [xorb].
  rewrite binary_round_aux_normal by lia.
  rewrite Pos2Z.inj_mul. reflexivity.
Qed.

Lemma new_location_spec (nb k : Z) :
  0 < nb -> 0 <= k < nb ->
  new_location nb k =
  if k =? 0 then loc_Exact else loc_Inexact (2 * k ?= nb).
Proof.
  intros Hnb Hk. unfold new_location.
  destruct (Z.even nb) eqn:Ev;
    unfold new_location_even, new_location_odd;
    destruct (k =? 0) eqn:E; try reflexivity.
  apply Z.eqb_neq in E. f_equal.
  assert (Hodd : nb mod 2 = 1).
  { rewrite Zmod_odd, <- Z.negb_even, Ev. reflexivity. }
  destruct (2 * k + 1 ?= nb) eqn:C.
  - apply Z.compare_eq in C. symmetry. apply Z.compare_lt_iff. lia.
  - rewrite Z.compare_lt_iff in C. symmetry. apply Z.compare_lt_iff. lia.
  - rewrite Z.compare_gt_iff in C. symmetry. apply Z.compare_gt_iff.
    assert (2 * k <> nb); [|lia].
    intros <-. rewrite Z.mul_comm, Z.mod_mul in Hodd; lia.
Qed.

Lemma fdiv_core (mx my : positive) (ex ey : Z) :
  Zdigits2 (Zpos mx) = 53 -> Zdigits2 (Zpos my) = 53 ->
  -1074 <= ex - ey - 53 ->
  let q := Zpos mx * 2 ^ 53 / Zpos my in
  let l := div_loc (Zpos mx * 2 ^ 53 mod Zpos my) (Zpos my) in
  fdiv (S754_finite false mx ex) (S754_finite false my ey) =
  binary_round_aux 53 1024 false q (ex - ey - 53) l
  /\ 0 < q /\ 53 <= Zdigits2 q <= 54.
Proof.
  intros Hx Hy Hlo q l.
  pose proof (Zdigits2_bounds (Zpos mx) ltac:(lia)) as Bx.
  pose proof (Zdigits2_bounds (Zpos my) ltac:(lia)) as By.
  rewrite Hx in Bx. rewrite Hy in By.
  change (2 ^ (53 - 1)) with (2 ^ 52) in *.
  unfold fdiv, SFdiv, SFdiv_core_binary. cbn [xorb].
  rewrite Hx, Hy.
  replace (53 + ex - (53 + ey)) with (ex - ey) by lia.
  rewrite fexp_normal by lia.
  replace (Z.min (ex - ey - 53) (ex - ey)) with (ex - ey - 53) by lia.
  replace (ex - ey - (ex - ey - 53)) with 53 by lia.
  cbv beta iota. rewrite Z.shiftl_mul_pow2 by lia.
  pose proof (Z_div_mod (Z.pos mx * 2 ^ 53) (Z.pos my) ltac:(lia)) as Hdm.
  assert (Hq : q = fst (Z.div_eucl (Z.pos mx * 2 ^ 53) (Z.pos my)))
    by reflexivity.
  assert (Hr : Z.pos mx * 2 ^ 53 mod Z.pos my =
               snd (Z.div_eucl (Z.pos mx * 2 ^ 53) (Z.pos my)))
    by reflexivity.
  destruct (Z.div_eucl (Z.pos mx * 2 ^ 53) (Z.pos my)) as [q0 r0] eqn:E.
  cbn [fst snd] in Hq, Hr. destruct Hdm as [Hdm Hr0].
  rewrite new_location_spec by lia.
  assert (Hqlo : 2 ^ 52 <= q0).
  { destruct (Z_le_gt_dec (2 ^ 52) q0) as [|Hgt]; [easy|]. nia. }
  assert (Hqhi : q0 < 2 ^ 54).
  { destruct (Z_lt_le_dec q0 (2 ^ 54)) as [|Hge]; [easy|].
    change (2 ^ 54) with (2 * 2 ^ 53) in Hge. nia. }
  assert (Hdq : 53 <= Zdigits2 q0 <= 54).
  { pose proof (Zdigits2_bounds q0 ltac:(lia)) as Bq.
    set (d := Zdigits2 q0) in *. split.
    - destruct (Z_le_gt_dec 53 d) as [|Hgt]; [easy|].
      assert (2 ^ d <= 2 ^ 52) by (apply Z.pow_le_mono_r; lia). lia.
    - destruct (Z_le_gt_dec d 54) as [|Hgt]; [easy|].
      assert (2 ^ 54 <= 2 ^ (d - 1)) by (apply Z.pow_le_mono_r; lia). lia. }
  unfold l, div_loc. rewrite Hr, Hq. cbn [fst snd].
  split; [reflexivity|]. split; lia.
Qed.

Lemma fdiv_normal (mx my : positive) (ex ey : Z) :
  Zdigits2 (Zpos mx) = 53 -> Zdigits2 (Zpos my) = 53 ->
  -1074 <= ex - ey - 53 -> ex - ey + 1 <= 971 ->
  let q := Zpos mx * 2 ^ 53 / Zpos my in
  let l := div_loc (Zpos mx * 2 ^ 53 mod Zpos my) (Zpos my) in
  fdiv (S754_finite false mx ex) (S754_finite false my ey) =
  S754_finite false (Z.to_pos (fst (rounded q (ex - ey - 53) l)))
    (snd (rounded q (ex - ey - 53) l)).
Proof.
  intros Hx Hy Hlo Hhi q l.
  destruct (fdiv_core mx my ex ey Hx Hy Hlo) as (E & Hq & Hd).
  fold q l in E, Hq, Hd. rewrite E.
  apply binary_round_aux_normal; lia.
Qed.

(** *** Array indices computed with [Math.floor] *)

Lemma to_index_of_Z (z : Z) :
  0 <= z < 2 ^ 32 - 1 -> to_index (of_Z z) = Some (Z.to_nat z).
Proof.
  intros Hz. destruct (Z.eq_dec z 0) as [->|Hz0]; [reflexivity|].
  assert (Hz53 : 0 < z < 2 ^ 53).
  { split; [lia|]. assert (2 ^ 32 < 2 ^ 53) by (apply Z.pow_lt_mono_r; lia). lia. }
  pose proof (int_digits_range z Hz53) as Hd.
  assert (Hd32 : Zdigits2 z <= 32).
  { pose proof (Zdigits2_bounds z ltac:(lia)) as B.
    destruct (Z_le_gt_dec (Zdigits2 z) 32) as [|Hgt]; [easy|].
    assert (2 ^ 32 <= 2 ^ (Zdigits2 z - 1)) by (apply Z.pow_le_mono_r; lia).
    lia. }
  rewrite of_Z_pos by lia. unfold to_index.
  rewrite int_mantissa_pos by lia. unfold int_exponent.
  replace (0 <=? Zdigits2 z - 53) with false by (symmetry; apply Z.leb_gt; lia).
  replace (- (Zdigits2 z - 53)) with (53 - Zdigits2 z) by lia.
  assert (0 < 2 ^ (53 - Zdigits2 z)) by (apply Z.pow_pos_nonneg; lia).
  rewrite Z.mod_mul, Z.div_mul by lia.
  rewrite Z.eqb_refl.
  replace (z <? 2 ^ 32 - 1) with true by (symmetry; apply Z.ltb_lt; lia).
  reflexivity.
Qed.

Lemma to_index_floor (m : positive) (e : Z) :
  e < 0 -> Zpos m / 2 ^ (- e) < 2 ^ 32 - 1 ->
  to_index (Math_floor (S754_finite false m e)) =
  Some (Z.to_nat (Zpos m / 2 ^ (- e))).
Proof.
  intros He Hz. unfold Math_floor.
  replace (0 <=? e) with false by (symmetry; apply Z.leb_gt; lia).
  cbn [cond_Zopp].
  assert (0 <= Zpos m / 2 ^ (- e)).
  { apply Z.div_pos; [lia|apply Z.pow_pos_nonneg; lia]. }
  destruct (Zpos m / 2 ^ (- e) =? 0) eqn:E.
  - apply Z.eqb_eq in E. rewrite E. reflexivity.
  - apply to_index_of_Z. lia.
Qed.

Lemma int_small_digits (N : Z) : 0 < N < 2 ^ 32 -> 0 < Zdigits2 N <= 32.
Proof.
  intros HN.
  assert (HN53 : 0 < N < 2 ^ 53).
  { split; [lia|]. assert (2 ^ 32 < 2 ^ 53) by (apply Z.pow_lt_mono_r; lia). lia. }
  pose proof (int_digits_range N HN53).
  pose proof (Zdigits2_bounds N ltac:(lia)) as B.
  split; [lia|].
  destruct (Z_le_gt_dec (Zdigits2 N) 32) as [|Hgt]; [easy|].
  assert (2 ^ 32 <= 2 ^ (Zdigits2 N - 1)) by (apply Z.pow_le_mono_r; lia).
  lia.
Qed.

Lemma int_mantissa_digits (z : Z) :
  0 < z < 2 ^ 53 -> Zdigits2 (Zpos (int_mantissa z)) = 53.
Proof.
  intros Hz. pose proof (int_digits_range z Hz).
  rewrite int_mantissa_pos, Zdigits2_mul_pow2 by lia. lia.
Qed.

(** [Math.floor(N / 2)] is the integer quotient. *)
Lemma index_half (N : Z) :
  0 <= N < 2 ^ 32 ->
  to_index (Math_floor (fdiv (of_Z N) (of_Z 2))) = Some (Z.to_nat (N / 2)).
Proof.
  intros HN. destruct (Z.eq_dec N 0) as [->|HN0]; [reflexivity|].
  assert (HN53 : 0 < N < 2 ^ 53).
  { split; [lia|]. assert (2 ^ 32 < 2 ^ 53) by (apply Z.pow_lt_mono_r; lia). lia. }
  pose proof (int_small_digits N ltac:(lia)) as Hd.
  rewrite (of_Z_pos N) by lia.
  change (of_Z 2) with (S754_finite false (Z.to_pos (2 ^ 52)) (-51)).
  rewrite fdiv_normal;
    [|apply int_mantissa_digits; lia|reflexivity
     |unfold int_exponent; lia|unfold int_exponent; lia].
  cbv zeta.
  rewrite int_mantissa_pos by lia.
  set (k := 53 - Zdigits2 N).
  assert (Hk : 0 < 2 ^ k) by (apply Z.pow_pos_nonneg; lia).
  change (Z.pos (Z.to_pos (2 ^ 52))) with (2 ^ 52).
  assert (Hq : N * 2 ^ k * 2 ^ 53 = N * 2 ^ k * 2 * 2 ^ 52).
  { change (2 ^ 53) with (2 * 2 ^ 52). lia. }
  rewrite Hq, Z.mod_mul, Z.div_mul by lia.
  change (div_loc 0 (2 ^ 52)) with loc_Exact.
  assert (Hdig : Zdigits2 (N * 2 ^ k * 2) = 54).
  { replace (N * 2 ^ k * 2) with (N * 2 ^ (k + 1)).
    - rewrite Zdigits2_mul_pow2 by lia. lia.
    - rewrite Z.pow_add_r by lia. lia. }
  rewrite rounded_exact;
    [|nia|lia|rewrite Hdig; change (2 ^ (54 - 53)) with 2; apply Z.mod_mul; lia].
  rewrite Hdig. cbn [fst snd]. change (2 ^ (54 - 53)) with 2.
  rewrite Z.div_mul by lia.
  assert (Hpos : 0 < N * 2 ^ k) by nia.
  unfold int_exponent.
  assert (He : Zdigits2 N - 53 - -51 - 53 + (54 - 53) = - (k + 1)) by lia.
  rewrite He.
  assert (Hval : Z.pos (Z.to_pos (N * 2 ^ k)) / 2 ^ (- - (k + 1)) = N / 2).
  { rewrite Z2Pos.id by lia. rewrite Z.opp_involutive.
    rewrite Z.pow_add_r by lia. change (2 ^ 1) with 2.
    replace (2 ^ k * 2) with (2 * 2 ^ k) by lia.
    rewrite Z.div_mul_cancel_r by lia. reflexivity. }
  rewrite to_index_floor; rewrite ?Hval; try reflexivity; try lia.
  assert (N / 2 <= N) by (apply Z.div_le_upper_bound; lia).
  assert (N / 2 < 2 ^ 32 - 1); [|lia].
  apply Z.div_lt_upper_bound; lia.
Qed.

(** *** The percentile indices *)

(** Rounding to nearest, seen from the remainder of the dropped bits. *)
Lemma round_up_spec (P n : Z) :
  0 <= P -> 0 < n ->
  (round_up P n loc_Exact = true -> 2 ^ n <= 2 * (P mod 2 ^ n)) /\
  (round_up P n loc_Exact = false -> 2 * (P mod 2 ^ n) <= 2 ^ n).
Proof.
  intros HP Hn. unfold round_up.
  replace (n <=? 0) with false by (symmetry; apply Z.leb_gt; lia).
  change (inexact_loc loc_Exact) with false. rewrite orb_false_r.
  assert (Hp1 : 0 < 2 ^ (n - 1)) by (apply Z.pow_pos_nonneg; lia).
  assert (Hn1 : 2 ^ n = 2 ^ (n - 1) * 2).
  { replace n with (n - 1 + 1) at 1 by lia.
    rewrite Z.pow_add_r by lia. lia. }
  assert (Hmod : P mod 2 ^ n =
                 P mod 2 ^ (n - 1) + 2 ^ (n - 1) * ((P / 2 ^ (n - 1)) mod 2)).
  { rewrite Hn1. rewrite Z.rem_mul_r by lia. lia. }
  pose proof (Z.mod_pos_bound P (2 ^ (n - 1)) Hp1) as Hb.
  pose proof (Zmod_odd (P / 2 ^ (n - 1))) as Hodd.
  rewrite Hmod, Hn1.
  destruct (Z.odd (P / 2 ^ (n - 1))); rewrite Hodd; cbn [andb].
  - split; [intros _; lia|].
    destruct (Z.eqb_spec (P mod 2 ^ (n - 1)) 0) as [E|E]; cbn [negb orb].
    + intros _. lia.
    + discriminate.
  - split; [discriminate|intros _; lia].
Qed.
Lemma div_between (a b q : Z) : 0 < b -> q * b <= a < (q + 1) * b -> a / b = q.
Proof.
  intros Hb H. symmetry. apply Z.div_unique with (r := a - q * b); lia.
Qed.

(** The arithmetic core of a percentile index: the mantissa of [N]
    times the mantissa [c] of the literal, rounded to 53 bits and then
    floored, is the integer quotient [N * num / den].  [K] stands for
    the power of two that normalises [N]; with it and the products [W]
    and [Bk] named, every step is linear. *)
Ltac index_core N c num den :=
  intros HN;
  assert (HN53 : 0 < N < 2 ^ 53)
    by (split; [lia|];
        assert (2 ^ 32 < 2 ^ 53) by (apply Z.pow_lt_mono_r; lia); lia);
  pose proof (int_small_digits N HN) as Hd;
  pose proof (int_mantissa_digits N HN53) as HdM;
  pose proof (Zdigits2_bounds (Zpos (int_mantissa N)) ltac:(lia)) as BM;
  rewrite HdM in BM;
  rewrite int_mantissa_pos in * by lia; unfold int_exponent;
  set (d := Zdigits2 N) in *;
  replace (2 ^ (53 - d)) with (2 * 2 ^ (52 - d)) in *
    by (replace (53 - d) with (1 + (52 - d)) by lia;
        rewrite Z.pow_add_r by lia; reflexivity);
  set (K := 2 ^ (52 - d)) in *;
  assert (HK : 2 ^ 20 <= K) by (apply Z.pow_le_mono_r; lia);
  assert (H2K : forall k, 0 <= k -> 2 ^ (52 - d + k) = K * 2 ^ k)
    by (intros k Hk; unfold K; apply Z.pow_add_r; lia);
  set (A := N * num / den);
  assert (HA : 0 <= num * N - den * A <= den - 1)
    by (unfold A; Z.div_mod_to_equations; lia);
  set (b := num * N - den * A) in *;
  assert (HW : 2 * (den * (A * K) + b * K) = num * (N * (2 * K)))
    by (unfold b; ring);
  assert (HBk : 0 <= b * K <= (den - 1) * K)
    by (split; [apply Z.mul_nonneg_nonneg; lia
               |apply Z.mul_le_mono_nonneg_r; lia]);
  assert (HBk0 : b * K = 0 \/ K <= b * K)
    by (destruct (Z.eq_dec b 0) as [Hb0|Hb0];
        [left; rewrite Hb0; reflexivity
        |right; rewrite <- (Z.mul_1_l K) at 1;
         apply Z.mul_le_mono_nonneg_r; lia]);
  assert (HAK : forall k, A * (K * k) = k * (A * K)) by (intros; ring);
  assert (HAK1 : forall k, (A + 1) * (K * k) = k * (A * K) + k * K)
    by (intros; ring);
  set (M := N * (2 * K)) in *;
  set (W := A * K) in *; set (Bk := b * K) in *;
  clearbody M W Bk K; clear HA; clearbody b A; clear HdM;
  cbv zeta; unfold rounded;
  set (P := M * c);
  assert (HP : P = M * c) by reflexivity; clearbody P;
  change (2 ^ 53) with 9007199254740992 in *;
  change (2 ^ (53 - 1)) with 4503599627370496 in *;
  change (2 ^ 20) with 1048576 in *;
  destruct (Z_lt_le_dec P (2 ^ 105)) as [Hlt|Hge];
  [ rewrite (Zdigits2_unique P 105) by (simpl; lia);
    change (105 - 53) with 52;
    pose proof (round_up_spec P 52 ltac:(lia) ltac:(lia)) as [Hup Hdn];
    change (2 ^ 105) with 40564819207303340847894502572032 in *;
    change (2 ^ 52) with 4503599627370496 in *;
    destruct (round_up P 52 loc_Exact);
    [specialize (Hup eq_refl); clear Hdn|specialize (Hdn eq_refl); clear Hup];
    match goal with |- context [?a <? ?c] => destruct (Z.ltb_spec a c) end;
    cbn [fst snd];
    replace (- (d - 53 + -53 + 52)) with (52 - d + 2) by lia;
    replace (- (d - 53 + -53 + 52 + 1)) with (52 - d + 1) by lia
  | rewrite (Zdigits2_unique P 106) by (simpl; lia);
    change (106 - 53) with 53;
    pose proof (round_up_spec P 53 ltac:(lia) ltac:(lia)) as [Hup Hdn];
    change (2 ^ 105) with 40564819207303340847894502572032 in *;
    change (2 ^ 53) with 9007199254740992 in *;
    change (2 ^ 52) with 4503599627370496 in *;
    destruct (round_up P 53 loc_Exact);
    [specialize (Hup eq_refl); clear Hdn|specialize (Hdn eq_refl); clear Hup];
    match goal with |- context [?a <? ?c] => destruct (Z.ltb_spec a c) end;
    cbn [fst snd];
    replace (- (d - 53 + -53 + 53)) with (52 - d + 1) by lia;
    replace (- (d - 53 + -53 + 53 + 1)) with (52 - d + 0) by lia ];
  rewrite !H2K by lia;
  change (2 ^ 2) with 4; change (2 ^ 1) with 2; change (2 ^ 0) with 1;
  (split; [lia|split; [Z.div_mod_to_equations; lia|]]);
  (apply div_between; [lia|]);
  rewrite HAK, HAK1;
  destruct HBk0; Z.div_mod_to_equations; lia.

Lemma mul_floor_95 (N : Z) :
  0 < N < 2 ^ 32 ->
  let r := rounded (Zpos (int_mantissa N) * 8556839292003942)
             (int_exponent N + -53) loc_Exact in
  snd r < 0 /\ 0 < fst r /\ fst r / 2 ^ (- snd r) = N * 95 / 100.
Proof. index_core N 8556839292003942 95 100. Qed.

Lemma mul_floor_99 (N : Z) :
  0 < N < 2 ^ 32 ->
  let r := rounded (Zpos (int_mantissa N) * 8917127262193582)
             (int_exponent N + -53) loc_Exact in
  snd r < 0 /\ 0 < fst r /\ fst r / 2 ^ (- snd r) = N * 99 / 100.
Proof. index_core N 8917127262193582 99 100. Qed.

Lemma index_scaled (N c num den : Z) :
  0 < N < 2 ^ 32 -> 0 < c -> Zdigits2 c = 53 -> 0 < num < den ->
  (let r := rounded (Zpos (int_mantissa N) * c) (int_exponent N + -53)
              loc_Exact in
   snd r < 0 /\ 0 < fst r /\ fst r / 2 ^ (- snd r) = N * num / den) ->
  to_index (Math_floor (fmul (of_Z N) (S754_finite false (Z.to_pos c) (-53))))
  = Some (Z.to_nat (N * num / den)).
Proof.
  intros HN Hc Hdc Hnd Hr. cbv zeta in Hr. destruct Hr as (Hs & Hf & Hv).
  assert (HN53 : 0 < N < 2 ^ 53).
  { split; [lia|]. assert (2 ^ 32 < 2 ^ 53) by (apply Z.pow_lt_mono_r; lia). lia. }
  pose proof (int_small_digits N HN) as Hd.
  rewrite (of_Z_pos N) by lia.
  rewrite fmul_normal;
    [|apply int_mantissa_digits; lia|rewrite Z2Pos.id by lia; exact Hdc
     |unfold int_exponent; lia|unfold int_exponent; lia].
  rewrite (Z2Pos.id c) by lia.
  assert (Hlt : N * num / den < 2 ^ 32 - 1).
  { assert (N * num / den < N); [|lia].
    apply Z.div_lt_upper_bound; [lia|]. nia. }
  rewrite to_index_floor; rewrite ?Z2Pos.id by lia; rewrite ?Hv;
    try reflexivity; lia.
Qed.

(** [Math.floor(N * 0.95)] and [Math.floor(N * 0.99)] are the integer
    quotients of [95 N] and [99 N] by 100. *)
Lemma index_95 (N : Z) :
  0 <= N < 2 ^ 32 ->
  to_index (Math_floor (fmul (of_Z N) lit_0_95)) =
  Some (Z.to_nat (N * 95 / 100)).
Proof.
  intros HN. destruct (Z.eq_dec N 0) as [->|HN0]; [reflexivity|].
  apply (index_scaled N 8556839292003942 95 100);
    [lia|lia|reflexivity|lia|apply mul_floor_95; lia].
Qed.

Lemma index_99 (N : Z) :
  0 <= N < 2 ^ 32 ->
  to_index (Math_floor (fmul (of_Z N) lit_0_99)) =
  Some (Z.to_nat (N * 99 / 100)).
Proof.
  intros HN. destruct (Z.eq_dec N 0) as [->|HN0]; [reflexivity|].
  apply (index_scaled N 8917127262193582 99 100);
    [lia|lia|reflexivity|lia|apply mul_floor_99; lia].
Qed.

(* ===================================================================== *)
(** ** Sorting integer durations *)
(* ===================================================================== *)

Lemma flt_zero_of_Z (z : Z) :
  - 2 ^ 53 < z < 2 ^ 53 -> flt pos_zero (of_Z z) = (0 <? z).
Proof.
  intros Hz. destruct (Z.lt_trichotomy z 0) as [Hlt|[->|Hgt]].
  - replace z with (- (- z)) by lia. rewrite of_Z_neg by lia.
    symmetry. apply Z.ltb_ge. lia.
  - reflexivity.
  - rewrite of_Z_pos by lia. symmetry. apply Z.ltb_lt. lia.
Qed.

Lemma ordered_after_int (a b : Z) :
  0 <= a < 2 ^ 53 -> 0 <= b < 2 ^ 53 ->
  ordered_after compare_numbers (of_Z a) (of_Z b) = (b <? a).
Proof.
  intros Ha Hb. unfold ordered_after, compare_numbers.
  rewrite fsub_int, flt_zero_of_Z by lia.
  destruct (Z.ltb_spec 0 (a - b)); destruct (Z.ltb_spec b a); lia || reflexivity.
Qed.

Lemma insert_int_spec (x : Z) (l : list Z) :
  0 <= x < 2 ^ 53 -> Forall (fun z => 0 <= z < 2 ^ 53) l ->
  insert compare_numbers (of_Z x) (map of_Z l) = map of_Z (insert_int x l).
Proof.
  intros Hx Hl. induction Hl as [|y l Hy Hl IH]; [reflexivity|].
  cbn [map insert insert_int]. rewrite ordered_after_int by lia.
  destruct (y <? x); cbn [map]; [rewrite IH|]; reflexivity.
Qed.

Lemma insert_int_Forall (P : Z -> Prop) (x : Z) (l : list Z) :
  P x -> Forall P l -> Forall P (insert_int x l).
Proof.
  intros Hx Hl. induction Hl as [|y l Hy Hl IH]; cbn [insert_int].
  - constructor; [exact Hx|constructor].
  - destruct (y <? x); repeat constructor; assumption.
Qed.

Lemma sort_int_Forall (P : Z -> Prop) (l : list Z) :
  Forall P l -> Forall P (sort_int l).
Proof.
  induction 1 as [|x l Hx Hl IH]; cbn [sort_int]; [constructor|].
  apply insert_int_Forall; assumption.
Qed.

(** On integer durations the comparator [(a, b) => a - b] is exact, and
    sorting the Numbers sorts the integers. *)
Lemma js_sort_int (zs : list Z) :
  Forall (fun z => 0 <= z < 2 ^ 53) zs ->
  js_sort compare_numbers (map of_Z zs) = map of_Z (sort_int zs).
Proof.
  induction 1 as [|x l Hx Hl IH]; [reflexivity|].
  cbn [map js_sort sort_int]. rewrite IH.
  apply insert_int_spec; [exact Hx|apply sort_int_Forall; exact Hl].
Qed.

Lemma insert_int_perm (x : Z) (l : list Z) :
  Permutation (x :: l) (insert_int x l).
Proof.
  induction l as [|y l IH]; cbn [insert_int]; [reflexivity|].
  destruct (y <? x); [|reflexivity].
  rewrite perm_swap. apply perm_skip. exact IH.
Qed.

Lemma sort_int_perm (l : list Z) : Permutation l (sort_int l).
Proof.
  induction l as [|x l IH]; cbn [sort_int]; [reflexivity|].
  rewrite <- insert_int_perm. apply perm_skip. exact IH.
Qed.

Lemma sort_int_length (l : list Z) : length (sort_int l) = length l.
Proof. symmetry. apply Permutation_length, sort_int_perm. Qed.

Lemma insert_int_sorted (x : Z) (l : list Z) :
  StronglySorted Z.le l -> StronglySorted Z.le (insert_int x l).
Proof.
  induction 1 as [|y l Hl IH Hy]; cbn [insert_int].
  - repeat constructor.
  - destruct (Z.ltb_spec y x) as [Hlt|Hge].
    + constructor; [exact IH|].
      apply (Permutation_Forall (insert_int_perm x l)).
      constructor; [lia|exact Hy].
    + constructor; [constructor; assumption|].
      constructor; [exact Hge|].
      eapply List.Forall_impl; [|exact Hy]. intros z Hz. simpl in Hz. lia.
Qed.

Lemma sort_int_sorted (l : list Z) : StronglySorted Z.le (sort_int l).
Proof.
  induction l as [|x l IH]; cbn [sort_int]; [constructor|].
  apply insert_int_sorted, IH.
Qed.

Lemma sorted_nth_le (l : list Z) (i j : nat) :
  StronglySorted Z.le l -> (i <= j < length l)%nat ->
  nth i l 0 <= nth j l 0.
Proof.
  intros Hs. revert i j. induction Hs as [|x l Hl IH Hx]; intros i j Hij.
  - simpl in Hij. lia.
  - destruct i as [|i]; destruct j as [|j]; cbn [nth]; simpl in Hij.
    + lia.
    + rewrite List.Forall_forall in Hx. apply Hx, nth_In. lia.
    + lia.
    + apply IH. lia.
Qed.

Lemma fold_min_max_bounds (l : list Z) (y : Z) :
  (fold_right Z.min y l <= y <= fold_right Z.max y l) /\
  (forall x, In x l -> fold_right Z.min y l <= x <= fold_right Z.max y l).
Proof.
  induction l as [|z l [IHy IHx]]; cbn [fold_right].
  - split; [lia|intros x []].
  - split; [lia|]. intros x [->|Hin].
    + lia.
    + specialize (IHx x Hin). lia.
Qed.

Lemma min_max_int_In (l : list Z) (x : Z) :
  In x l -> min_int l <= x <= max_int l.
Proof.
  destruct l as [|y l]; [contradiction|]. cbn [min_int max_int].
  pose proof (fold_min_max_bounds l y) as [Hy Hx].
  intros [<-|Hin]; [exact Hy|apply Hx, Hin].
Qed.

(* ===================================================================== *)
(** ** What a call of [formatMetrics] does *)
(* ===================================================================== *)

Lemma heap_lookup_alloc (h : list (list float)) (xs ys : list float) (l : loc) :
  h !! l = Some xs -> (h ++ [ys]) !! l = Some xs.
Proof.
  intros H. rewrite lookup_app_l; [exact H|].
  apply lookup_lt_Some in H. exact H.
Qed.

Lemma heap_lookup_new (h : list (list float)) (ys : list float) :
  (h ++ [ys]) !! length h = Some ys.
Proof. apply list_lookup_middle. reflexivity. Qed.

Lemma heap_insert_new (h : list (list float)) (xs ys : list float) :
  <[length h := ys]> (h ++ [xs]) = h ++ [ys].
Proof.
  rewrite insert_app_r_alt by lia. rewrite Nat.sub_diag. reflexivity.
Qed.

(** Each effect, followed by the rest of the computation. *)
Lemma bind_ret {A B : Type} (a : A) (k : A -> M B) (w : World) :
  bind (ret a) k w = k a w.
Proof. reflexivity. Qed.

Lemma bind_bind {A B C : Type} (m : M A) (k : A -> M B) (k' : B -> M C)
    (w : World) :
  bind (bind m k) k' w = bind m (fun a => bind (k a) k') w.
Proof. unfold bind. destruct (m w) as [[a|e] w']; reflexivity. Qed.

Lemma bind_read {B : Type} (l : loc) (xs : list float) (k : list float -> M B)
    (w : World) :
  heap w !! l = Some xs -> bind (read l) k w = k xs w.
Proof. intros H. unfold bind, read. rewrite H. reflexivity. Qed.

Lemma bind_alloc {B : Type} (xs : list float) (k : loc -> M B) (w : World) :
  bind (alloc xs) k w = k (length (heap w)) (set_heap (heap w ++ [xs]) w).
Proof. reflexivity. Qed.

Lemma bind_write {B : Type} (l : loc) (xs : list float) (k : unit -> M B)
    (w : World) :
  bind (write l xs) k w = k tt (set_heap (<[l := xs]> (heap w)) w).
Proof. reflexivity. Qed.

Lemma bind_sort {B : Type} (l : loc) (cmp : float -> float -> float)
    (xs : list float) (k : loc -> M B) (w : World) :
  heap w !! l = Some xs ->
  bind (sort l cmp) k w =
  k l (set_heap (<[l := js_sort cmp xs]> (heap w)) w).
Proof.
  intros H. unfold sort. rewrite bind_bind, (bind_read _ _ _ _ H).
  rewrite bind_bind, bind_write, bind_ret. reflexivity.
Qed.

(** [formatMetrics] reads the array of execution times, sorts a fresh
    copy of it and returns the report; the store gains the sorted copy
    and is otherwise as before. *)
Lemma formatMetrics_run (runtime version experiment : string) (l : loc)
    (memoryUsage : MemoryUsageArg) (cpuUsage : CpuUsageArg) (w : World)
    (xs : list float) :
  heap w !! l = Some xs ->
  formatMetrics runtime version experiment l memoryUsage cpuUsage w =
  (Return (report_of runtime version experiment l xs memoryUsage cpuUsage w),
   set_heap (heap w ++ [js_sort compare_numbers xs]) w).
Proof.
  intros Hl. unfold formatMetrics.
  rewrite (bind_read _ _ _ _ Hl), bind_alloc.
  rewrite (bind_sort _ _ xs) by (cbn [heap set_heap]; apply heap_lookup_new).
  cbn [heap set_heap]. rewrite heap_insert_new.
  rewrite (bind_read _ (js_sort compare_numbers xs))
    by (cbn [heap set_heap]; apply heap_lookup_new).
  rewrite (bind_read _ xs)
    by (cbn [heap set_heap]; apply heap_lookup_alloc, Hl).
  reflexivity.
Qed.

(* ===================================================================== *)
(** ** Properties of the report *)
(* ===================================================================== *)

(** *** Empty input *)

(** C1, as stated, fails: on an empty array of durations [formatMetrics]
    raises nothing; it returns a report whose mean and standard
    deviation are [NaN] and whose median and percentiles are
    [undefined]. *)
Lemma empty_durations_not_rejected :
  (exists r w',
     formatMetrics "node" "v20.11.0" "fibonacci" 0%nat example_memory
       example_cpuUsage (example_world []) = (Return r, w') /\
     mean (statistics r) = NaN /\ median (statistics r) = JUndefined) /\
  ~ (exists msg w',
       formatMetrics "node" "v20.11.0" "fibonacci" 0%nat example_memory
         example_cpuUsage (example_world []) = (Throw (InvalidInput msg), w')).
Proof.
  rewrite (formatMetrics_run _ _ _ _ _ _ _ []) by reflexivity.
  split.
  - eexists _, _. split; [reflexivity|]. split; reflexivity.
  - intros (msg & w' & H). discriminate H.
Qed.

(** C1, amended: [formatMetrics] never fails on an array of durations.
    It returns a report for every array, empty or not; for the empty
    array the mean and the standard deviation are [NaN] and the median
    and both percentiles are [undefined]. *)
Theorem formatMetrics_total (runtime version experiment : string) (l : loc)
    (memoryUsage : MemoryUsageArg) (cpuUsage : CpuUsageArg) (w : World)
    (xs : list float) :
  heap w !! l = Some xs ->
  exists r w',
    formatMetrics runtime version experiment l memoryUsage cpuUsage w
    = (Return r, w') /\
    (xs = [] ->
     mean (statistics r) = NaN /\ stdDev (statistics r) = NaN /\
     median (statistics r) = JUndefined /\
     p95 (statistics r) = JUndefined /\ p99 (statistics r) = JUndefined).
Proof.
  intros Hl. rewrite (formatMetrics_run _ _ _ _ _ _ _ xs Hl).
  eexists _, _. split; [reflexivity|].
  intros ->. repeat split.
Qed.

Lemma formatMetrics_total_witness :
  exists r w',
    formatMetrics "node" "v20.11.0" "fibonacci" 0%nat example_memory
      example_cpuUsage (example_world []) = (Return r, w') /\
    (@nil float = [] ->
     mean (statistics r) = NaN /\ stdDev (statistics r) = NaN /\
     median (statistics r) = JUndefined /\
     p95 (statistics r) = JUndefined /\ p99 (statistics r) = JUndefined).
Proof.
  apply (formatMetrics_total "node" "v20.11.0" "fibonacci" 0%nat
           example_memory example_cpuUsage (example_world []) []).
  reflexivity.
Defined.

(** *** Unknown resource fields *)

Lemma fsub_NaN_l (x : float) : fsub NaN x = NaN.
Proof. reflexivity. Qed.

Lemma fsub_NaN_r (x : float) : fsub x NaN = NaN.
Proof. destruct x; reflexivity. Qed.

Lemma js_sub_unknown (a b : field) :
  a = Unknown \/ b = Unknown -> js_sub a b = NaN.
Proof.
  intros [->| ->]; unfold js_sub; cbn [ToNumber];
    [apply fsub_NaN_l|apply fsub_NaN_r].
Qed.

(** C2, as stated, fails: with [rss] marked 'unknown' in the first
    snapshot, the [rss] of the difference is the Number [NaN], not the
    marker. *)
Lemma unknown_diff_not_propagated :
  exists r w',
    formatMetrics "deno" "1.40.0" "sorting" 0%nat unknown_memory
      example_cpuUsage (example_world [of_Z 10]) = (Return r, w') /\
    rss (mu_before (memoryUsage (metrics r))) = Unknown /\
    diff_rss (mu_diff (memoryUsage (metrics r))) = NaN /\
    Known (diff_rss (mu_diff (memoryUsage (metrics r)))) <> Unknown.
Proof.
  rewrite (formatMetrics_run _ _ _ _ _ _ _ [of_Z 10]) by reflexivity.
  eexists _, _. split; [reflexivity|].
  split; [reflexivity|]. split; [reflexivity|]. discriminate.
Qed.

(** C2, amended: when a field is 'unknown' in either snapshot (or in
    both), the corresponding field of the difference in the report is
    [NaN]: not zero, not any other number, and not the string
    'unknown'. *)
Theorem unknown_diff_is_NaN (runtime version experiment : string) (l : loc)
    (mem : MemoryUsageArg) (cpu : CpuUsageArg) (w : World)
    (xs : list float) :
  heap w !! l = Some xs ->
  exists r w',
    formatMetrics runtime version experiment l mem cpu w
    = (Return r, w') /\
    let before := mem_before mem in
    let after := mem_after mem in
    let d := mu_diff (memoryUsage (metrics r)) in
    (rss before = Unknown \/ rss after = Unknown -> diff_rss d = NaN) /\
    (heapTotal before = Unknown \/ heapTotal after = Unknown ->
     diff_heapTotal d = NaN) /\
    (heapUsed before = Unknown \/ heapUsed after = Unknown ->
     diff_heapUsed d = NaN) /\
    (external before = Unknown \/ external after = Unknown ->
     diff_external d = NaN) /\
    (user (cpu_before cpu) = Unknown \/
     user (cpu_after cpu) = Unknown ->
     diffUser (cpuUsage (metrics r)) = NaN) /\
    (system (cpu_before cpu) = Unknown \/
     system (cpu_after cpu) = Unknown ->
     diffSystem (cpuUsage (metrics r)) = NaN).
Proof.
  intros Hl. rewrite (formatMetrics_run _ _ _ _ _ _ _ xs Hl).
  eexists _, _. split; [reflexivity|].
  cbn. repeat split; intros H; apply js_sub_unknown; tauto.
Qed.

Lemma unknown_diff_is_NaN_witness :
  heap (example_world [of_Z 10]) !! 0%nat = Some [of_Z 10] /\
  exists r w',
    formatMetrics "deno" "1.40.0" "sorting" 0%nat unknown_memory
      example_cpuUsage (example_world [of_Z 10]) = (Return r, w') /\
    (rss unknown_snapshot = Unknown \/ rss example_snapshot = Unknown ->
     diff_rss (mu_diff (memoryUsage (metrics r))) = NaN).
Proof.
  split; [reflexivity|].
  destruct (unknown_diff_is_NaN "deno"%string "1.40.0"%string
              "sorting"%string 0%nat unknown_memory
              example_cpuUsage (example_world [of_Z 10]) [of_Z 10] eq_refl)
    as (r & w' & Hrun & Hrss & _).
  exists r, w'. split; [exact Hrun|exact Hrss].
Defined.

(** *** The execution times in the report *)

(** C7: the report refers to the very array it was given, so
    [metrics.executionTimes] reads as the durations in execution order;
    no array that existed before the call is changed, the input array
    in particular; the sorted sequence is a new array. *)
Theorem executionTimes_preserved (runtime version experiment : string)
    (l : loc) (mem : MemoryUsageArg) (cpu : CpuUsageArg) (w : World)
    (xs : list float) :
  heap w !! l = Some xs ->
  exists r w',
    formatMetrics runtime version experiment l mem cpu w = (Return r, w') /\
    executionTimes (metrics r) = l /\
    heap w' !! executionTimes (metrics r) = Some xs /\
    (forall l' ys, heap w !! l' = Some ys -> heap w' !! l' = Some ys) /\
    heap w' = heap w ++ [js_sort compare_numbers xs].
Proof.
  intros Hl. rewrite (formatMetrics_run _ _ _ _ _ _ _ xs Hl).
  eexists _, _. split; [reflexivity|].
  cbn [metrics report_of metrics_of executionTimes heap set_heap].
  repeat split.
  - apply heap_lookup_alloc, Hl.
  - intros l' ys H. apply heap_lookup_alloc, H.
Qed.

Lemma executionTimes_preserved_witness :
  heap (example_world [of_Z 300; of_Z 100; of_Z 200]) !! 0%nat
  = Some [of_Z 300; of_Z 100; of_Z 200] /\
  exists r w',
    formatMetrics "node" "v20.11.0" "fibonacci" 0%nat example_memory
      example_cpuUsage (example_world [of_Z 300; of_Z 100; of_Z 200])
    = (Return r, w') /\
    heap w' !! executionTimes (metrics r)
    = Some [of_Z 300; of_Z 100; of_Z 200].
Proof.
  split; [reflexivity|].
  destruct (executionTimes_preserved "node"%string "v20.11.0"%string
              "fibonacci"%string 0%nat
              example_memory example_cpuUsage
              (example_world [of_Z 300; of_Z 100; of_Z 200])
              [of_Z 300; of_Z 100; of_Z 200] eq_refl)
    as (r & w' & Hrun & _ & Hread & _).
  exists r, w'. split; [exact Hrun|exact Hread].
Defined.

(** *** Determinism *)

(** C8: a second call with the same arguments, made after the first
    and at another time, returns a report with the same metrics and the
    same statistics; the two reports differ in the timestamp only. *)
Theorem formatMetrics_deterministic (rt ver exp : string)
    (l : loc) (mem : MemoryUsageArg) (cpu : CpuUsageArg) (w : World)
    (xs : list float) (iso ms : string) :
  heap w !! l = Some xs ->
  exists r1 w1 r2 w2,
    formatMetrics rt ver exp l mem cpu w = (Return r1, w1) /\
    formatMetrics rt ver exp l mem cpu (set_clock iso ms w1)
    = (Return r2, w2) /\
    metrics r1 = metrics r2 /\
    statistics r1 = statistics r2 /\
    runtime r1 = runtime r2 /\
    version r1 = version r2 /\
    experiment r1 = experiment r2 /\
    environment r1 = environment r2 /\
    detailedIterationMetrics r1 = detailedIterationMetrics r2 /\
    timestamp r1 = date_iso w /\ timestamp r2 = iso.
Proof.
  intros Hl. eexists _, _, _, _.
  split; [apply (formatMetrics_run _ _ _ _ _ _ _ xs Hl)|].
  split.
  - apply (formatMetrics_run _ _ _ _ _ _ _ xs).
    cbn [heap set_clock set_heap]. apply heap_lookup_alloc, Hl.
  - repeat split.
Qed.

Lemma formatMetrics_deterministic_witness :
  heap (example_world [of_Z 300; of_Z 100; of_Z 200]) !! 0%nat
  = Some [of_Z 300; of_Z 100; of_Z 200] /\
  exists r1 w1 r2 w2,
    formatMetrics "node" "v20.11.0" "fibonacci" 0%nat example_memory
      example_cpuUsage (example_world [of_Z 300; of_Z 100; of_Z 200])
    = (Return r1, w1) /\
    formatMetrics "node" "v20.11.0" "fibonacci" 0%nat example_memory
      example_cpuUsage
      (set_clock "2025-06-30T12:00:00.000Z" "1751284800000" w1)
    = (Return r2, w2) /\
    metrics r1 = metrics r2 /\ statistics r1 = statistics r2.
Proof.
  split; [reflexivity|].
  destruct (formatMetrics_deterministic "node"%string "v20.11.0"%string
              "fibonacci"%string 0%nat example_memory example_cpuUsage
              (example_world [of_Z 300; of_Z 100; of_Z 200])
              [of_Z 300; of_Z 100; of_Z 200]
              "2025-06-30T12:00:00.000Z"%string "1751284800000"%string
              eq_refl)
    as (r1 & w1 & r2 & w2 & H1 & H2 & Hm & Hs & _).
  exists r1, w1, r2, w2. repeat split; assumption.
Defined.

(** *** Saving the report *)

Lemma set_heap_set_heap (h1 h2 : list (list float)) (w : World) :
  set_heap h2 (set_heap h1 w) = set_heap h2 w.
Proof. reflexivity. Qed.

Lemma set_heap_id (w : World) : set_heap (heap w) w = w.
Proof. destruct w; reflexivity. Qed.

Lemma push_run (l : loc) (x : float) (xs : list float) (w : World) :
  heap w !! l = Some xs ->
  push l x w = (Return tt, set_heap (<[l := xs ++ [x]]> (heap w)) w).
Proof.
  intros H. unfold push. rewrite (bind_read _ _ _ _ H). reflexivity.
Qed.

(** The measuring loop appends the time of every sample, in order, to
    the array of execution times and touches nothing else. *)
Lemma measure_run (detailedMetrics : bool) (l : loc) (samples : list Sample) :
  forall (i : nat) (acc : list IterationMetrics) (xs : list float) (w : World),
    heap w !! l = Some xs ->
    exists detailed,
      measure detailedMetrics l i samples acc w =
      (Return detailed,
       set_heap (<[l := xs ++ map sample_time samples]> (heap w)) w).
Proof.
  induction samples as [|s rest IH]; intros i acc xs w Hl.
  - exists acc. cbn [measure map]. rewrite app_nil_r.
    rewrite list_insert_id by exact Hl. rewrite set_heap_id. reflexivity.
  - cbn [measure map]. unfold bind at 1. rewrite (push_run _ _ _ _ Hl).
    assert (Hl' : heap (set_heap (<[l := xs ++ [sample_time s]]> (heap w)) w) !! l
                  = Some (xs ++ [sample_time s])).
    { cbn [heap set_heap]. apply list_lookup_insert_eq.
      apply lookup_lt_Some in Hl. exact Hl. }
    destruct (IH (S i)
                (if detailedMetrics
                 then acc ++
                      [{| iteration := fadd (of_nat i) (of_Z 1);
                          it_executionTime := sample_time s;
                          it_before := sample_before s;
                          it_after := sample_after s;
                          it_diff :=
                            memory_diff (sample_before s) (sample_after s) |}]
                 else acc)
                _ _ Hl') as [detailed Hd].
    exists detailed. rewrite Hd. cbn [heap set_heap].
    rewrite list_insert_insert_eq, <- app_assoc. reflexivity.
Qed.

(** Up to the point of saving, a driver returns a report and changes
    nothing but the store. *)
Lemma collect_run (name : string) (run : Run) (options : Options) (w : World) :
  exists r h,
    collect name run options w = (Return r, set_heap h w) /\
    h !! executionTimes (metrics r)
    = Some (map sample_time (run_samples run)).
Proof.
  unfold collect. rewrite bind_alloc.
  set (l := length (heap w)).
  set (w1 := set_heap (heap w ++ [[]]) w).
  assert (Hl : heap w1 !! l = Some []) by apply heap_lookup_new.
  destruct (measure_run (default true (opt_detailedMetrics options)) l
              (run_samples run) 0 [] [] w1 Hl) as [detailed Hm].
  unfold bind at 1. rewrite Hm. cbn [app].
  set (w2 := set_heap _ w1).
  assert (Hl2 : heap w2 !! l = Some (map sample_time (run_samples run))).
  { unfold w2. cbn [heap set_heap]. apply list_lookup_insert_eq.
    unfold w1, l. cbn [heap set_heap]. rewrite length_app. simpl. lia. }
  unfold bind at 1. rewrite (formatMetrics_run _ _ _ _ _ _ _ _ Hl2).
  unfold ret. eexists _, _. split.
  - unfold w2, w1. rewrite !set_heap_set_heap. reflexivity.
  - destruct (default true (opt_detailedMetrics options));
      cbn [metrics with_detailed report_of metrics_of executionTimes];
      apply heap_lookup_alloc; exact Hl2.
Qed.

Lemma in_list_head (s : string) (l : list string) : in_list s (s :: l) = true.
Proof. unfold in_list. cbn [existsb]. rewrite String.eqb_refl. reflexivity. Qed.

(** When persisting fails, the steps of [saveResults] throw, as does
    [saveResults] of metrics-interface.js, which has no [try]; nothing is
    written and nothing is printed. *)
Lemma saveResults_fails (results : Report) (path : string) (w : World)
    (xs : list float) :
  save_fails path w ->
  heap w !! executionTimes (metrics results) = Some xs ->
  exists msg w',
    saveResults results path w = (Throw (SystemError msg), w') /\
    console w' = console w /\ files w' = files w /\ heap w' = heap w.
Proof.
  unfold save_fails. intros Hf Hl. unfold saveResults.
  unfold bind at 1. unfold fs_existsSync.
  destruct (in_list (dirname path) (dirs w)) eqn:Hdir; cbn [negb].
  - rewrite bind_ret. unfold JSON_stringify.
    rewrite bind_bind, (bind_read _ _ _ _ Hl), bind_ret.
    unfold bind, fs_writeFileSync. rewrite Hdir, Hf. cbn [negb].
    eexists _, _. repeat split.
  - unfold bind at 1. unfold fs_mkdirSync.
    destruct (in_list (dirname path) (denied w)) eqn:Hden.
    + eexists _, _. repeat split.
    + destruct Hf as [Hf|Hf]; [discriminate|].
      unfold JSON_stringify.
      rewrite bind_bind, (bind_read _ xs) by exact Hl.
      rewrite bind_ret.
      unfold bind, fs_writeFileSync. cbn [dirs denied set_dirs].
      rewrite in_list_head, Hf. cbn [negb].
      eexists _, _. repeat split.
Qed.

Lemma try_catch_console_error (m : M unit) (f : Error -> string) (w : World) :
  exists w', try_catch m (fun e => console_error (f e)) w = (Return tt, w').
Proof.
  unfold try_catch. destruct (m w) as [[[]|e] w1]; eexists; reflexivity.
Qed.

(** The Bun driver returns its report whatever happens while saving. *)
Lemma benchmark_bun_returns (run : Run) (options : Options) (w : World) :
  exists r w', benchmark_bun run options w = (Return r, w').
Proof.
  unfold benchmark_bun.
  assert (Hpath : exists p,
    (match opt_outputPath options with
     | Some p => ret p
     | None =>
         bun_default_path (default "unknown"%string (opt_experiment options))
     end) w = (Return p, w)).
  { destruct (opt_outputPath options); eexists; reflexivity. }
  destruct Hpath as [p Hp]. unfold bind at 1. rewrite Hp.
  destruct (collect_run "bun" run options w) as (r & h & Hc & _).
  unfold bind at 1. rewrite Hc.
  change (try_catch _ ?handler) with (try_catch (saveResults r p) handler).
  destruct (try_catch_console_error (saveResults r p)
              (fun e => ("Ошибка при сохранении результатов: "
                         ++ error_message e)%string) (set_heap h w))
    as [w1 Hw1].
  unfold bind. rewrite Hw1. eexists _, _. reflexivity.
Qed.

(** In the Bun driver a failed write is caught: the message goes to the
    error stream and the report is returned. *)
Theorem benchmark_bun_write_failure (run : Run) (options : Options)
    (w : World) (path : string) :
  opt_outputPath options = Some path -> save_fails path w ->
  exists r w' msg,
    benchmark_bun run options w = (Return r, w') /\
    console w' =
    console w ++
      [(Stderr, ("Ошибка при сохранении результатов: " ++ msg)%string)] /\
    files w' = files w.
Proof.
  intros Hp Hf. unfold benchmark_bun. rewrite Hp. rewrite bind_ret.
  destruct (collect_run "bun" run options w) as (r & h & Hc & Hl).
  unfold bind at 1. rewrite Hc.
  change (try_catch _ ?handler) with (try_catch (saveResults r path) handler).
  destruct (saveResults_fails r path (set_heap h w) _ Hf Hl)
    as (msg & w1 & Hs & Hcon & Hfiles & _).
  unfold bind, try_catch. rewrite Hs.
  unfold console_error, ret. cbn [error_message].
  eexists _, _, msg. split; [reflexivity|].
  cbn [console files set_console]. rewrite Hcon, Hfiles. split; reflexivity.
Qed.

(** [saveResults] of the ES module does what the steps inside its [try]
    do when they succeed, and turns what they throw into a line on the
    error stream. *)
Lemma saveResults_mjs_returned (results : Report) (path : string)
    (w w' : World) :
  saveResults results path w = (Return tt, w') ->
  saveResults_mjs results path w = (Return tt, w').
Proof.
  intros H. unfold saveResults_mjs.
  change (try_catch _ ?handler)
    with (try_catch (saveResults results path) handler).
  unfold try_catch. rewrite H. reflexivity.
Qed.

Lemma saveResults_mjs_caught (results : Report) (path : string)
    (w w' : World) (e : Error) :
  saveResults results path w = (Throw e, w') ->
  saveResults_mjs results path w =
  (Return tt,
   set_console
     (console w' ++
      [(Stderr, ("Ошибка при сохранении результатов: " ++ inspect e)%string)])
     w').
Proof.
  intros H. unfold saveResults_mjs.
  change (try_catch _ ?handler)
    with (try_catch (saveResults results path) handler).
  unfold try_catch. rewrite H. reflexivity.
Qed.

(** [saveResults] of the ES module never throws: when persisting fails
    nothing is written, and the error goes to the error stream, in one
    line after everything printed before. *)
Lemma saveResults_mjs_fails (results : Report) (path : string) (w : World)
    (xs : list float) :
  save_fails path w ->
  heap w !! executionTimes (metrics results) = Some xs ->
  exists msg w',
    saveResults_mjs results path w = (Return tt, w') /\
    console w' =
    console w ++
      [(Stderr, ("Ошибка при сохранении результатов: " ++ msg)%string)] /\
    files w' = files w /\ heap w' = heap w.
Proof.
  intros Hf Hl. unfold saveResults_mjs.
  change (try_catch _ ?handler)
    with (try_catch (saveResults results path) handler).
  destruct (saveResults_fails results path w _ Hf Hl)
    as (msg & w1 & Hs & Hcon & Hfiles & Hheap).
  unfold try_catch. rewrite Hs. unfold console_error.
  eexists (inspect (SystemError msg)), _. split; [reflexivity|].
  cbn [console files heap set_console]. rewrite Hcon, Hfiles, Hheap.
  repeat split.
Qed.

(** What the failure adds to the error stream. *)
Lemma stderr_lines_snoc (w w' : World) (msg : string) :
  console w' = console w ++ [(Stderr, msg)] ->
  stderr_lines w' = stderr_lines w ++ [msg].
Proof.
  intros H. unfold stderr_lines. rewrite H.
  rewrite List.filter_app, map_app. reflexivity.
Qed.

(** C9.  When persisting fails, no driver loses the report: the call of
    [benchmark] returns it, with the measured times, no file is written,
    and the failure is reported, in one line of the error stream that
    starts with the announcement and carries the error, the last line
    printed.  The Node.js driver saves when the path is not empty. *)
Theorem failed_write_is_reported_and_report_returned (run : Run)
    (options : Options) (w : World) (path : string) :
  opt_outputPath options = Some path -> save_fails path w ->
  (path <> ""%string ->
   exists r w' msg,
     benchmark_node run options w = (Return r, w') /\
     files w' = files w /\
     stderr_lines w' =
     stderr_lines w
       ++ [("Ошибка при сохранении результатов: " ++ msg)%string] /\
     last (console w')
     = Some (Stderr, ("Ошибка при сохранении результатов: " ++ msg)%string) /\
     heap w' !! executionTimes (metrics r)
     = Some (map sample_time (run_samples run))) /\
  (exists r w' msg,
     benchmark_bun run options w = (Return r, w') /\
     files w' = files w /\
     stderr_lines w' =
     stderr_lines w
       ++ [("Ошибка при сохранении результатов: " ++ msg)%string] /\
     last (console w')
     = Some (Stderr, ("Ошибка при сохранении результатов: " ++ msg)%string) /\
     heap w' !! executionTimes (metrics r)
     = Some (map sample_time (run_samples run))).
Proof.
  intros Hp Hf. split.
  - intros Hne. unfold benchmark_node. rewrite Hp.
    destruct (collect_run "node" run options w) as (r & h & Hc & Hl).
    unfold bind at 1. rewrite Hc.
    destruct (saveResults_mjs_fails r path (set_heap h w) _ Hf Hl)
      as (msg & w1 & Hs & Hcon & Hfiles & Hheap).
    destruct path as [|c path]; [contradiction|].
    unfold bind. rewrite Hs. unfold ret.
    exists r, w1, msg. split; [reflexivity|].
    split; [exact Hfiles|]. split; [|split].
    + apply stderr_lines_snoc. exact Hcon.
    + rewrite Hcon. apply last_snoc.
    + rewrite Hheap. exact Hl.
  - unfold benchmark_bun. rewrite Hp. rewrite bind_ret.
    destruct (collect_run "bun" run options w) as (r & h & Hc & Hl).
    unfold bind at 1. rewrite Hc.
    change (try_catch _ ?handler)
      with (try_catch (saveResults r path) handler).
    destruct (saveResults_fails r path (set_heap h w) _ Hf Hl)
      as (msg & w1 & Hs & Hcon & Hfiles & Hheap).
    unfold bind, try_catch. rewrite Hs.
    unfold console_error, ret. cbn [error_message].
    eexists r, _, msg. split; [reflexivity|].
    cbn [console files heap set_console].
    split; [exact Hfiles|]. split; [|split].
    + unfold stderr_lines. cbn [console set_console]. rewrite Hcon.
      rewrite List.filter_app, map_app. reflexivity.
    + apply last_snoc.
    + rewrite Hheap. exact Hl.
Qed.

Lemma failed_write_is_reported_and_report_returned_witness :
  (exists r w' msg,
     benchmark_node example_run readonly_options readonly_world
     = (Return r, w') /\
     files w' = [] /\
     stderr_lines w' =
     [("Ошибка при сохранении результатов: " ++ msg)%string]) /\
  (exists r w' msg,
     benchmark_bun example_run readonly_options readonly_world
     = (Return r, w') /\
     files w' = [] /\
     stderr_lines w' =
     [("Ошибка при сохранении результатов: " ++ msg)%string]).
Proof.
  destruct (failed_write_is_reported_and_report_returned example_run
              readonly_options readonly_world "/readonly/results/out.json"
              eq_refl) as [Hnode Hbun].
  - vm_compute. left. reflexivity.
  - split.
    + destruct Hnode as (r & w' & msg & Hrun & Hfiles & Herr & _);
        [discriminate|].
      exists r, w', msg. split; [exact Hrun|]. split; [exact Hfiles|exact Herr].
    + destruct Hbun as (r & w' & msg & Hrun & Hfiles & Herr & _).
      exists r, w', msg. split; [exact Hrun|]. split; [exact Hfiles|exact Herr].
Defined.

(** The Bun driver where the results directory cannot be created: the
    report is returned and the failure is on the error stream. *)
Lemma benchmark_bun_survives_failed_write :
  exists r w',
    benchmark_bun example_run readonly_options readonly_world = (Return r, w') /\
    console w' =
    [(Stderr,
      "Ошибка при сохранении результатов: EACCES: permission denied, mkdir /readonly/results"%string)].
Proof. eexists _, _. split; vm_compute; reflexivity. Qed.

Lemma benchmark_bun_write_failure_witness :
  opt_outputPath readonly_options = Some "/readonly/results/out.json"%string /\
  save_fails "/readonly/results/out.json" readonly_world /\
  exists r w' msg,
    benchmark_bun example_run readonly_options readonly_world = (Return r, w') /\
    console w' =
    console readonly_world ++
      [(Stderr, ("Ошибка при сохранении результатов: " ++ msg)%string)] /\
    files w' = files readonly_world.
Proof.
  split; [reflexivity|]. split; [vm_compute; left; reflexivity|].
  apply (benchmark_bun_write_failure example_run readonly_options
           readonly_world "/readonly/results/out.json").
  - reflexivity.
  - vm_compute. left. reflexivity.
Defined.

(** *** Order statistics of integer durations *)

Lemma digits_mono (a b : Z) :
  0 < a <= b -> Zdigits2 a <= Zdigits2 b.
Proof.
  intros H.
  pose proof (Zdigits2_bounds a ltac:(lia)) as Ba.
  pose proof (Zdigits2_bounds b ltac:(lia)) as Bb.
  destruct (Z_le_gt_dec (Zdigits2 a) (Zdigits2 b)) as [|Hgt]; [easy|].
  assert (2 ^ Zdigits2 b <= 2 ^ (Zdigits2 a - 1)).
  { apply Z.pow_le_mono_r; lia. }
  lia.
Qed.

Lemma fle_lex (ma mb : positive) (ea eb : Z) :
  ea < eb \/ (ea = eb /\ (ma <= mb)%positive) ->
  fle (S754_finite false ma ea) (S754_finite false mb eb) = true.
Proof.
  intros H. unfold fle, SFleb, SFcompare.
  destruct H as [H|[-> H]].
  - apply Z.compare_lt_iff in H. rewrite H. reflexivity.
  - rewrite Z.compare_refl.
    change (Pos.compare_cont Eq ma mb) with (Pos.compare ma mb).
    destruct (Pos.compare_spec ma mb); try reflexivity. lia.
Qed.

Lemma fle_lex_inv (ma mb : positive) (ea eb : Z) :
  fle (S754_finite false ma ea) (S754_finite false mb eb) = true ->
  ea < eb \/ (ea = eb /\ (ma <= mb)%positive).
Proof.
  unfold fle, SFleb, SFcompare.
  destruct (Z.compare_spec ea eb) as [->|Hlt|Hgt]; try discriminate.
  - change (Pos.compare_cont Eq ma mb) with (Pos.compare ma mb).
    destruct (Pos.compare_spec ma mb); try discriminate; intros _; right; lia.
  - intros _. left; exact Hlt.
Qed.

(** The order of integers is the order of the Numbers that hold them. *)
Lemma fle_int (a b : Z) :
  0 <= a < 2 ^ 53 -> 0 <= b < 2 ^ 53 -> a <= b ->
  fle (of_Z a) (of_Z b) = true.
Proof.
  intros Ha Hb Hab.
  destruct (Z.eq_dec a 0) as [->|Ha0].
  - destruct (Z.eq_dec b 0) as [->|Hb0]; [reflexivity|].
    rewrite of_Z_zero, of_Z_pos by lia. reflexivity.
  - rewrite (of_Z_pos a), (of_Z_pos b) by lia. apply fle_lex.
    pose proof (digits_mono a b ltac:(lia)) as Hd.
    pose proof (int_digits_range b ltac:(lia)) as Hdb.
    unfold int_exponent.
    destruct (Z.eq_dec (Zdigits2 a) (Zdigits2 b)) as [E|E]; [right|left; lia].
    split; [lia|].
    assert (Zpos (int_mantissa a) <= Zpos (int_mantissa b)); [|lia].
    rewrite !int_mantissa_pos by lia. rewrite E.
    apply Z.mul_le_mono_nonneg_r; [apply Z.pow_nonneg; lia|lia].
Qed.

Lemma array_get_int (sorted : list Z) (i : float) (n : nat) :
  to_index i = Some n -> (n < length sorted)%nat ->
  array_get (map of_Z sorted) i = JNum (of_Z (nth n sorted 0)).
Proof.
  intros Hi Hn. unfold array_get. rewrite Hi.
  rewrite list_lookup_fmap.
  destruct (sorted !! n) eqn:E.
  - rewrite nth_lookup, E. reflexivity.
  - apply lookup_ge_None in E. lia.
Qed.

Lemma sorted_int_length (zs : list Z) :
  length (map of_Z (sort_int zs)) = length zs.
Proof. rewrite length_map. apply sort_int_length. Qed.

Lemma median_of_int (zs : list Z) :
  safe_durations zs -> zs <> [] ->
  (length zs / 2 < length zs)%nat /\
  median_of (js_sort compare_numbers (map of_Z zs)) =
  JNum (of_Z (nth (length zs / 2) (sort_int zs) 0)).
Proof.
  intros [Hs Hlen] Hne.
  assert (Hpos : (0 < length zs)%nat) by (destruct zs; [contradiction|simpl; lia]).
  assert (Hidx : (length zs / 2 < length zs)%nat)
    by (apply Nat.div_lt; lia).
  split; [exact Hidx|].
  rewrite js_sort_int by exact Hs. unfold median_of.
  rewrite sorted_int_length. unfold of_nat.
  apply array_get_int; [|rewrite sort_int_length; exact Hidx].
  rewrite index_half by lia. f_equal.
  change 2 with (Z.of_nat 2). rewrite <- Nat2Z.inj_div. apply Nat2Z.id.
Qed.

Lemma percentile_of_int (zs : list Z) (fraction : float) (num : nat) :
  safe_durations zs -> zs <> [] -> (num < 100)%nat ->
  (forall N, 0 <= N < 2 ^ 32 ->
     to_index (Math_floor (fmul (of_Z N) fraction)) =
     Some (Z.to_nat (N * Z.of_nat num / 100))) ->
  (length zs * num / 100 < length zs)%nat /\
  percentile_of (js_sort compare_numbers (map of_Z zs)) fraction =
  JNum (of_Z (nth (length zs * num / 100) (sort_int zs) 0)).
Proof.
  intros [Hs Hlen] Hne Hnum Hindex.
  assert (Hpos : (0 < length zs)%nat) by (destruct zs; [contradiction|simpl; lia]).
  assert (Hidx : (length zs * num / 100 < length zs)%nat).
  { apply Nat.Div0.div_lt_upper_bound. nia. }
  split; [exact Hidx|].
  rewrite js_sort_int by exact Hs. unfold percentile_of.
  rewrite sorted_int_length. unfold of_nat.
  apply array_get_int; [|rewrite sort_int_length; exact Hidx].
  rewrite Hindex by lia. f_equal.
  change 100 with (Z.of_nat 100).
  rewrite <- Nat2Z.inj_mul, <- Nat2Z.inj_div. apply Nat2Z.id.
Qed.

Lemma p95_of_int (zs : list Z) :
  safe_durations zs -> zs <> [] ->
  (length zs * 95 / 100 < length zs)%nat /\
  percentile_of (js_sort compare_numbers (map of_Z zs)) lit_0_95 =
  JNum (of_Z (nth (length zs * 95 / 100) (sort_int zs) 0)).
Proof.
  intros Hs Hne. apply percentile_of_int; [exact Hs|exact Hne|lia|].
  intros N HN. apply index_95. exact HN.
Qed.

Lemma p99_of_int (zs : list Z) :
  safe_durations zs -> zs <> [] ->
  (length zs * 99 / 100 < length zs)%nat /\
  percentile_of (js_sort compare_numbers (map of_Z zs)) lit_0_99 =
  JNum (of_Z (nth (length zs * 99 / 100) (sort_int zs) 0)).
Proof.
  intros Hs Hne. apply percentile_of_int; [exact Hs|exact Hne|lia|].
  intros N HN. apply index_99. exact HN.
Qed.

Lemma sort_int_nth_In (zs : list Z) (n : nat) :
  (n < length zs)%nat -> In (nth n (sort_int zs) 0) zs.
Proof.
  intros Hn. apply (Permutation_in _ (Permutation_sym (sort_int_perm zs))).
  apply nth_In. rewrite sort_int_length. exact Hn.
Qed.

(** C3: for non-empty integer durations the median of the report is the
    element at index [floor(N / 2)] of the ascending arrangement of the
    durations, the upper median: the single value when N = 1, the larger
    of the two when N = 2. *)
Theorem median_is_upper_median (rt ver exp : string) (l : loc)
    (mem : MemoryUsageArg) (cpu : CpuUsageArg) (w : World) (zs : list Z) :
  heap w !! l = Some (map of_Z zs) -> safe_durations zs -> zs <> [] ->
  exists r w',
    formatMetrics rt ver exp l mem cpu w = (Return r, w') /\
    Permutation zs (sort_int zs) /\
    Sorted Z.le (sort_int zs) /\
    (length zs / 2 < length zs)%nat /\
    median (statistics r) =
    JNum (of_Z (nth (length zs / 2) (sort_int zs) 0)) /\
    (forall a, zs = [a] -> median (statistics r) = JNum (of_Z a)) /\
    (forall a b, zs = [a; b] ->
       median (statistics r) = JNum (of_Z (Z.max a b))).
Proof.
  intros Hl Hs Hne. rewrite (formatMetrics_run _ _ _ _ _ _ _ _ Hl).
  eexists _, _. split; [reflexivity|].
  cbn [statistics report_of statistics_of median].
  destruct (median_of_int zs Hs Hne) as [Hidx Hmed].
  split; [apply sort_int_perm|].
  split; [apply StronglySorted_Sorted, sort_int_sorted|].
  split; [exact Hidx|]. split; [exact Hmed|]. split.
  - intros a ->. rewrite Hmed. reflexivity.
  - intros a b ->. rewrite Hmed.
    change (length [a; b] / 2)%nat with 1%nat.
    cbn [sort_int insert_int].
    destruct (Z.ltb_spec b a); cbn [nth]; do 2 f_equal; lia.
Qed.

Lemma median_is_upper_median_witness :
  heap (example_world (map of_Z [300; 100; 200; 400])) !! 0%nat
  = Some (map of_Z [300; 100; 200; 400]) /\
  safe_durations [300; 100; 200; 400] /\
  exists r w',
    formatMetrics "node" "v20.11.0" "fibonacci" 0%nat example_memory
      example_cpuUsage (example_world (map of_Z [300; 100; 200; 400]))
    = (Return r, w') /\
    median (statistics r) =
    JNum (of_Z (nth (length [300; 100; 200; 400] / 2)
                  (sort_int [300; 100; 200; 400]) 0)).
Proof.
  assert (Hs : safe_durations [300; 100; 200; 400]).
  { split; [repeat constructor; lia|simpl; lia]. }
  split; [reflexivity|]. split; [exact Hs|].
  destruct (median_is_upper_median "node"%string "v20.11.0"%string
              "fibonacci"%string 0%nat example_memory example_cpuUsage
              (example_world (map of_Z [300; 100; 200; 400]))
              [300; 100; 200; 400] eq_refl Hs ltac:(discriminate))
    as (r & w' & Hrun & _ & _ & _ & Hmed & _).
  exists r, w'. split; [exact Hrun|exact Hmed].
Defined.

(** C4: for non-empty integer durations, p95 and p99 are the elements
    at indices [floor(N * 0.95)] and [floor(N * 0.99)] of the ascending
    arrangement.  The computed index is always below N, so clamping it
    to N - 1 changes nothing; both values are elements of the durations
    and lie between the least and the greatest of them. *)
Theorem percentiles_defined (rt ver exp : string) (l : loc)
    (mem : MemoryUsageArg) (cpu : CpuUsageArg) (w : World) (zs : list Z) :
  heap w !! l = Some (map of_Z zs) -> safe_durations zs -> zs <> [] ->
  exists r w',
    formatMetrics rt ver exp l mem cpu w = (Return r, w') /\
    let N := length zs in
    let i95 := (N * 95 / 100)%nat in
    let i99 := (N * 99 / 100)%nat in
    let v95 := nth (Nat.min i95 (N - 1)) (sort_int zs) 0 in
    let v99 := nth (Nat.min i99 (N - 1)) (sort_int zs) 0 in
    Permutation zs (sort_int zs) /\ Sorted Z.le (sort_int zs) /\
    (i95 < N)%nat /\ (i99 < N)%nat /\
    Nat.min i95 (N - 1) = i95 /\ Nat.min i99 (N - 1) = i99 /\
    p95 (statistics r) = JNum (of_Z v95) /\
    p99 (statistics r) = JNum (of_Z v99) /\
    In v95 zs /\ In v99 zs /\
    min_int zs <= v95 <= max_int zs /\ min_int zs <= v99 <= max_int zs.
Proof.
  intros Hl Hs Hne. rewrite (formatMetrics_run _ _ _ _ _ _ _ _ Hl).
  eexists _, _. split; [reflexivity|].
  cbn [statistics report_of statistics_of p95 p99]. cbv zeta.
  destruct (p95_of_int zs Hs Hne) as [H95 Hp95].
  destruct (p99_of_int zs Hs Hne) as [H99 Hp99].
  assert (E95 : Nat.min (length zs * 95 / 100) (length zs - 1)
                = (length zs * 95 / 100)%nat) by lia.
  assert (E99 : Nat.min (length zs * 99 / 100) (length zs - 1)
                = (length zs * 99 / 100)%nat) by lia.
  rewrite E95, E99.
  pose proof (sort_int_nth_In zs _ H95) as In95.
  pose proof (sort_int_nth_In zs _ H99) as In99.
  split; [apply sort_int_perm|].
  split; [apply StronglySorted_Sorted, sort_int_sorted|].
  repeat split; try assumption; try reflexivity;
    try (apply min_max_int_In; assumption).
Qed.

Lemma percentiles_defined_witness :
  heap (example_world (map of_Z [300; 100; 200; 400])) !! 0%nat
  = Some (map of_Z [300; 100; 200; 400]) /\
  safe_durations [300; 100; 200; 400] /\
  exists r w',
    formatMetrics "node" "v20.11.0" "fibonacci" 0%nat example_memory
      example_cpuUsage (example_world (map of_Z [300; 100; 200; 400]))
    = (Return r, w') /\
    p95 (statistics r) =
    JNum (of_Z (nth (Nat.min (4 * 95 / 100) (4 - 1))
                  (sort_int [300; 100; 200; 400]) 0)).
Proof.
  assert (Hs : safe_durations [300; 100; 200; 400]).
  { split; [repeat constructor; lia|simpl; lia]. }
  split; [reflexivity|]. split; [exact Hs|].
  destruct (percentiles_defined "node"%string "v20.11.0"%string
              "fibonacci"%string 0%nat example_memory example_cpuUsage
              (example_world (map of_Z [300; 100; 200; 400]))
              [300; 100; 200; 400] eq_refl Hs ltac:(discriminate))
    as (r & w' & Hrun & _ & _ & _ & _ & _ & _ & Hp & _).
  exists r, w'. split; [exact Hrun|exact Hp].
Defined.

Lemma index_order (N : nat) :
  (N / 2 <= N * 95 / 100)%nat /\ (N * 95 / 100 <= N * 99 / 100)%nat.
Proof.
  split.
  - assert (E : (N / 2 = N * 50 / 100)%nat).
    { rewrite <- (Nat.Div0.div_mul_cancel_r N 2 50) by lia. reflexivity. }
    rewrite E. apply Nat.Div0.div_le_mono. lia.
  - apply Nat.Div0.div_le_mono. lia.
Qed.

(** C10: for non-empty integer durations the three order statistics are
    elements of the durations, and median <= p95 <= p99, both as
    integers and in the order of Numbers. *)
Theorem order_statistics_consistent (rt ver exp : string) (l : loc)
    (mem : MemoryUsageArg) (cpu : CpuUsageArg) (w : World) (zs : list Z) :
  heap w !! l = Some (map of_Z zs) -> safe_durations zs -> zs <> [] ->
  exists r w' m p q,
    formatMetrics rt ver exp l mem cpu w = (Return r, w') /\
    median (statistics r) = JNum (of_Z m) /\
    p95 (statistics r) = JNum (of_Z p) /\
    p99 (statistics r) = JNum (of_Z q) /\
    In m zs /\ In p zs /\ In q zs /\
    m <= p <= q /\
    fle (of_Z m) (of_Z p) = true /\ fle (of_Z p) (of_Z q) = true.
Proof.
  intros Hl Hs Hne. rewrite (formatMetrics_run _ _ _ _ _ _ _ _ Hl).
  destruct (median_of_int zs Hs Hne) as [Hm Hmed].
  destruct (p95_of_int zs Hs Hne) as [H95 Hp95].
  destruct (p99_of_int zs Hs Hne) as [H99 Hp99].
  destruct (index_order (length zs)) as [O1 O2].
  pose proof (sort_int_sorted zs) as Hsorted.
  assert (Hle1 : nth (length zs / 2) (sort_int zs) 0
                 <= nth (length zs * 95 / 100) (sort_int zs) 0).
  { apply sorted_nth_le; [exact Hsorted|rewrite sort_int_length; lia]. }
  assert (Hle2 : nth (length zs * 95 / 100) (sort_int zs) 0
                 <= nth (length zs * 99 / 100) (sort_int zs) 0).
  { apply sorted_nth_le; [exact Hsorted|rewrite sort_int_length; lia]. }
  pose proof (sort_int_nth_In zs _ Hm) as InM.
  pose proof (sort_int_nth_In zs _ H95) as In95.
  pose proof (sort_int_nth_In zs _ H99) as In99.
  destruct Hs as [Hsafe Hlen].
  rewrite List.Forall_forall in Hsafe.
  eexists _, _, _, _, _. split; [reflexivity|].
  cbn [statistics report_of statistics_of median p95 p99].
  split; [exact Hmed|]. split; [exact Hp95|]. split; [exact Hp99|].
  repeat split; try assumption; apply fle_int; auto.
Qed.

Lemma order_statistics_consistent_witness :
  heap (example_world (map of_Z [300; 100; 200; 400])) !! 0%nat
  = Some (map of_Z [300; 100; 200; 400]) /\
  safe_durations [300; 100; 200; 400] /\
  exists r w' m p q,
    formatMetrics "node" "v20.11.0" "fibonacci" 0%nat example_memory
      example_cpuUsage (example_world (map of_Z [300; 100; 200; 400]))
    = (Return r, w') /\
    median (statistics r) = JNum (of_Z m) /\
    p95 (statistics r) = JNum (of_Z p) /\
    p99 (statistics r) = JNum (of_Z q) /\
    m <= p <= q.
Proof.
  assert (Hs : safe_durations [300; 100; 200; 400]).
  { split; [repeat constructor; lia|simpl; lia]. }
  split; [reflexivity|]. split; [exact Hs|].
  destruct (order_statistics_consistent "node"%string "v20.11.0"%string
              "fibonacci"%string 0%nat example_memory example_cpuUsage
              (example_world (map of_Z [300; 100; 200; 400]))
              [300; 100; 200; 400] eq_refl Hs ltac:(discriminate))
    as (r & w' & m & p & q & Hrun & Hm & Hp & Hq & _ & _ & _ & Hle & _).
  exists r, w', m, p, q. repeat split; try assumption; apply Hle.
Defined.

(* ===================================================================== *)
(** ** The mean of integer durations *)
(* ===================================================================== *)

(** How a quotient mantissa of 53 or 54 digits is rounded. *)
Lemma rounded_div_cases (q e : Z) (l : location) :
  2 ^ 52 <= q < 2 ^ 54 ->
  (q < 2 ^ 53 /\
   (rounded q e l = (q, e) \/
    (rounded q e l = (q + 1, e) /\ q + 1 < 2 ^ 53 /\ l <> loc_Exact) \/
    (rounded q e l = (2 ^ 52, e + 1) /\ q + 1 = 2 ^ 53 /\ l <> loc_Exact)))
  \/
  (2 ^ 53 <= q /\
   (rounded q e l = (q / 2, e + 1) \/
    (rounded q e l = (q / 2 + 1, e + 1) /\ q / 2 + 1 < 2 ^ 53 /\
     Z.odd q = true) \/
    (rounded q e l = (2 ^ 52, e + 2) /\ q / 2 + 1 = 2 ^ 53 /\
     Z.odd q = true))).
Proof.
  intros Hq. unfold rounded.
  destruct (Z_lt_le_dec q (2 ^ 53)) as [Hlt|Hge]; [left|right];
    (split; [assumption|]).
  - rewrite (Zdigits2_unique q 53) by (simpl; lia).
    change (53 - 53) with 0. change (2 ^ 0) with 1. rewrite Z.div_1_r.
    replace (e + 0) with e by lia.
    assert (Hup : round_up q 0 l = true -> l <> loc_Exact).
    { unfold round_up. simpl. destruct l; [discriminate|intros _; discriminate]. }
    destruct (round_up q 0 l).
    + specialize (Hup eq_refl).
      destruct (Z.ltb_spec (q + 1) (2 ^ 53)).
      * right; left. repeat split; [lia|exact Hup].
      * right; right. repeat split; [lia|exact Hup].
    + replace (q <? 2 ^ 53) with true by (symmetry; apply Z.ltb_lt; lia).
      left. reflexivity.
  - rewrite (Zdigits2_unique q 54) by (simpl; lia).
    change (54 - 53) with 1. change (2 ^ 1) with 2.
    assert (Hup : round_up q 1 l = true -> Z.odd q = true).
    { unfold round_up. simpl. rewrite Z.div_1_r.
      destruct (Z.odd q); [reflexivity|discriminate]. }
    assert (Hq2 : 2 ^ 52 <= q / 2 < 2 ^ 53).
    { change (2 ^ 53) with (2 ^ 52 * 2) in Hge.
      change (2 ^ 54) with (2 ^ 53 * 2) in Hq.
      split; [apply Z.div_le_lower_bound; lia
             |apply Z.div_lt_upper_bound; lia]. }
    destruct (round_up q 1 l).
    + specialize (Hup eq_refl).
      destruct (Z.ltb_spec (q / 2 + 1) (2 ^ 53)).
      * right; left. repeat split; [lia|exact Hup].
      * right; right. replace (e + 1 + 1) with (e + 2) by lia.
        repeat split; [lia|exact Hup].
    + replace (q / 2 <? 2 ^ 53) with true by (symmetry; apply Z.ltb_lt; lia).
      left. reflexivity.
Qed.

(** The quotient of two 53-digit mantissas, with its remainder. *)
Lemma quotient_bounds (mx my : Z) :
  2 ^ 52 <= mx < 2 ^ 53 -> 2 ^ 52 <= my < 2 ^ 53 ->
  let q := mx * 2 ^ 53 / my in
  let r := mx * 2 ^ 53 mod my in
  mx * 2 ^ 53 = my * q + r /\ 0 <= r < my /\ 2 ^ 52 <= q < 2 ^ 54 /\
  (q < 2 ^ 53 <-> mx < my).
Proof.
  intros Hx Hy q r.
  pose proof (Z.div_mod (mx * 2 ^ 53) my ltac:(lia)) as Hdm.
  pose proof (Z.mod_pos_bound (mx * 2 ^ 53) my ltac:(lia)) as Hr.
  fold q in Hdm. fold r in Hdm, Hr.
  change (2 ^ 54) with (2 * 2 ^ 53) in *.
  change (2 ^ 53) with 9007199254740992 in *.
  change (2 ^ 52) with 4503599627370496 in *.
  split; [exact Hdm|]. split; [exact Hr|]. clearbody q r.
  split; [split|split]; intros; nia.
Qed.
Lemma pow2_ge (t k : Z) : 0 <= k <= t -> 2 ^ k <= 2 ^ t.
Proof. intros H. apply Z.pow_le_mono_r; lia. Qed.

Lemma mul_lt_cancel (p a b : Z) : 0 < p -> a * p < b * p -> a < b.
Proof. intros Hp H. apply (Z.mul_lt_mono_pos_r p); assumption. Qed.

Lemma mul_le_cancel (p a b : Z) : 0 < p -> a * p <= b * p -> a <= b.
Proof. intros Hp H. apply (Z.mul_le_mono_pos_r _ _ p); assumption. Qed.

(** A 53-digit mantissa [ma] at exponent [e + t] is not above the
    rounded quotient when its product with the divisor is not above
    the dividend. *)
Lemma div_lower_core (ma mx my t e : Z) (l : location) :
  2 ^ 52 <= ma < 2 ^ 53 -> 2 ^ 52 <= mx < 2 ^ 53 -> 2 ^ 52 <= my < 2 ^ 53 ->
  (0 <= t -> ma * my * 2 ^ t <= mx * 2 ^ 53) ->
  let res := rounded (mx * 2 ^ 53 / my) e l in
  e + t < snd res \/ (e + t = snd res /\ ma <= fst res).
Proof.
  intros Ha Hx Hy H res.
  destruct (quotient_bounds mx my Hx Hy) as (Hdm & Hr & Hq & Hlt).
  cbv zeta in Hdm, Hr, Hq, Hlt.
  unfold res.
  set (q := mx * 2 ^ 53 / my) in *. set (r := mx * 2 ^ 53 mod my) in *.
  clearbody q r.
  assert (HT1 : 1 <= t -> 2 <= 2 ^ t) by (intros; apply (pow2_ge t 1); lia).
  assert (HT2 : 2 <= t -> 4 <= 2 ^ t) by (intros; apply (pow2_ge t 2); lia).
  assert (Hpos : 0 < ma * my) by (apply Z.mul_pos_pos; lia).
  (* the exponents that the quotient excludes *)
  assert (Hno1 : q < 2 ^ 53 -> 1 <= t -> False).
  { intros Hq53 Ht. specialize (H ltac:(lia)). specialize (HT1 Ht).
    apply Hlt in Hq53.
    assert (ma * my * 2 <= ma * my * 2 ^ t)
      by (apply Z.mul_le_mono_nonneg_l; lia).
    assert (2 * ma < 2 ^ 53); [|lia].
    apply (mul_lt_cancel my); [lia|].
    change (2 ^ 53) with 9007199254740992 in *. lia. }
  assert (Hno2 : 2 <= t -> False).
  { intros Ht. specialize (H ltac:(lia)). specialize (HT2 Ht).
    assert (ma * my * 4 <= ma * my * 2 ^ t)
      by (apply Z.mul_le_mono_nonneg_l; lia).
    assert (2 ^ 52 * 2 ^ 52 <= ma * my) by (apply Z.mul_le_mono_nonneg; lia).
    change (2 ^ 53) with 9007199254740992 in *.
    change (2 ^ 52) with 4503599627370496 in *. lia. }
  assert (Hle0 : t = 0 -> ma <= q).
  { intros ->. specialize (H ltac:(lia)). change (2 ^ 0) with 1 in H.
    assert (ma < q + 1); [|lia].
    apply (mul_lt_cancel my); lia. }
  assert (Hle1 : t = 1 -> ma <= q / 2).
  { intros ->. specialize (H ltac:(lia)). change (2 ^ 1) with 2 in H.
    assert (2 * ma < q + 1) by (apply (mul_lt_cancel my); lia).
    apply Z.div_le_lower_bound; lia. }
  clear H HT1 HT2.
  destruct (rounded_div_cases q e l Hq) as [[Hq53 Hc]|[Hq53 Hc]];
    destruct Hc as [E|[(E & Hm & Hl)|(E & Hm & Hl)]]; rewrite E; cbn [fst snd].
  - destruct (Z_lt_le_dec t 0); [left; lia|].
    destruct (Z.eq_dec t 0); [right; split; [lia|auto]|].
    exfalso. apply Hno1; [assumption|lia].
  - destruct (Z_lt_le_dec t 0); [left; lia|].
    destruct (Z.eq_dec t 0); [right; split; [lia|]|].
    + specialize (Hle0 ltac:(assumption)). lia.
    + exfalso. apply Hno1; [assumption|lia].
  - destruct (Z_lt_le_dec t 1); [left; lia|].
    exfalso. apply Hno1; [assumption|lia].
  - destruct (Z_lt_le_dec t 1); [left; lia|].
    destruct (Z.eq_dec t 1); [right; split; [lia|auto]|].
    exfalso. apply Hno2. lia.
  - destruct (Z_lt_le_dec t 1); [left; lia|].
    destruct (Z.eq_dec t 1); [right; split; [lia|]|].
    + specialize (Hle1 ltac:(assumption)). lia.
    + exfalso. apply Hno2. lia.
  - destruct (Z_lt_le_dec t 2); [left; lia|].
    exfalso. apply Hno2. lia.
Qed.

(** Symmetrically, a mantissa [mb] at exponent [e + t] is not below the
    rounded quotient when its product with the divisor is not below the
    dividend. *)
Lemma div_upper_core (mb mx my t e : Z) :
  2 ^ 52 <= mb < 2 ^ 53 -> 2 ^ 52 <= mx < 2 ^ 53 -> 2 ^ 52 <= my < 2 ^ 53 ->
  (0 <= t -> mx * 2 ^ 53 <= mb * my * 2 ^ t) ->
  (t < 0 -> mx * 2 ^ 53 * 2 ^ (- t) <= mb * my) ->
  let res :=
    rounded (mx * 2 ^ 53 / my) e (div_loc (mx * 2 ^ 53 mod my) my) in
  snd res < e + t \/ (snd res = e + t /\ fst res <= mb).
Proof.
  intros Hb Hx Hy H Hneg res.
  destruct (quotient_bounds mx my Hx Hy) as (Hdm & Hr & Hq & Hlt).
  cbv zeta in Hdm, Hr, Hq, Hlt.
  unfold res.
  set (q := mx * 2 ^ 53 / my) in *. set (r := mx * 2 ^ 53 mod my) in *.
  clearbody q r.
  assert (Hpos : 0 < mb * my) by (apply Z.mul_pos_pos; lia).
  assert (Hinexact : div_loc r my <> loc_Exact -> 0 < r).
  { unfold div_loc. destruct (Z.eqb_spec r 0); [intros C; contradiction|lia]. }
  (* a negative [t] is excluded, and [t = 0] forces a quotient below 2^53 *)
  assert (Hno_neg : t < 0 -> False).
  { intros Ht. specialize (Hneg Ht).
    assert (2 <= 2 ^ (- t)) by (apply (pow2_ge (- t) 1); lia).
    assert (mx * 2 ^ 53 * 2 <= mx * 2 ^ 53 * 2 ^ (- t))
      by (apply Z.mul_le_mono_nonneg_l; lia).
    assert (mb * my < 2 ^ 53 * my) by (apply Z.mul_lt_mono_pos_r; lia).
    change (2 ^ 53) with 9007199254740992 in *.
    change (2 ^ 52) with 4503599627370496 in *. lia. }
  assert (Hno0 : 2 ^ 53 <= q -> t = 0 -> False).
  { intros Hq53 ->. specialize (H ltac:(lia)). change (2 ^ 0) with 1 in H.
    assert (mb * my < 2 ^ 53 * my) by (apply Z.mul_lt_mono_pos_r; lia).
    assert (2 ^ 53 * my <= q * my) by (apply Z.mul_le_mono_nonneg_r; lia).
    lia. }
  assert (Hle0 : t = 0 -> q <= mb /\ (0 < r -> q + 1 <= mb)).
  { intros ->. specialize (H ltac:(lia)). change (2 ^ 0) with 1 in H.
    split.
    - apply (mul_le_cancel my); lia.
    - intros Hr0. assert (q < mb); [|lia]. apply (mul_lt_cancel my); lia. }
  assert (Hle1 : t = 1 -> q <= 2 * mb).
  { intros ->. specialize (H ltac:(lia)). change (2 ^ 1) with 2 in H.
    apply (mul_le_cancel my); lia. }
  clear H Hneg.
  destruct (rounded_div_cases q e (div_loc r my) Hq) as [[Hq53 Hc]|[Hq53 Hc]];
    destruct Hc as [E|[(E & Hm & Hl)|(E & Hm & Hl)]]; rewrite E; cbn [fst snd].
  - destruct (Z_lt_le_dec t 0); [exfalso; auto|].
    destruct (Z.eq_dec t 0) as [E0|]; [|left; lia].
    right. split; [lia|]. apply Hle0, E0.
  - destruct (Z_lt_le_dec t 0); [exfalso; auto|].
    destruct (Z.eq_dec t 0) as [E0|]; [|left; lia].
    right. split; [lia|]. apply Hle0; [exact E0|]. apply Hinexact, Hl.
  - destruct (Z_lt_le_dec t 0); [exfalso; auto|].
    destruct (Z.eq_dec t 0) as [E0|].
    + exfalso. destruct (Hle0 E0) as [_ Hup].
      specialize (Hup (Hinexact Hl)). lia.
    + destruct (Z.eq_dec t 1); [right; split; lia|left; lia].
  - destruct (Z_lt_le_dec t 0); [exfalso; auto|].
    destruct (Z.eq_dec t 0) as [E0|]; [exfalso; auto|].
    destruct (Z.eq_dec t 1) as [E1|]; [|left; lia].
    right. split; [lia|]. specialize (Hle1 E1).
    apply Z.div_le_upper_bound; lia.
  - destruct (Z_lt_le_dec t 0); [exfalso; auto|].
    destruct (Z.eq_dec t 0) as [E0|]; [exfalso; auto|].
    destruct (Z.eq_dec t 1) as [E1|]; [|left; lia].
    right. split; [lia|]. specialize (Hle1 E1).
    pose proof (Zmod_odd q) as Ho. rewrite Hl in Ho.
    Z.div_mod_to_equations. lia.
  - destruct (Z_lt_le_dec t 0); [exfalso; auto|].
    destruct (Z.eq_dec t 0) as [E0|]; [exfalso; auto|].
    destruct (Z.eq_dec t 1) as [E1|].
    + exfalso. specialize (Hle1 E1).
      pose proof (Zmod_odd q) as Ho. rewrite Hl in Ho.
      Z.div_mod_to_equations. lia.
    + destruct (Z.eq_dec t 2); [right; split; lia|left; lia].
Qed.

Lemma int_mantissa_bounds (z : Z) :
  0 < z < 2 ^ 53 -> 2 ^ 52 <= Zpos (int_mantissa z) < 2 ^ 53.
Proof.
  intros Hz.
  pose proof (Zdigits2_bounds (Zpos (int_mantissa z)) ltac:(lia)) as B.
  rewrite int_mantissa_digits in B by lia. exact B.
Qed.

Lemma fdiv_int_form (S N : Z) :
  0 < S < 2 ^ 53 -> 0 < N < 2 ^ 53 ->
  let e := int_exponent S - int_exponent N - 53 in
  let q := Zpos (int_mantissa S) * 2 ^ 53 / Zpos (int_mantissa N) in
  let l := div_loc (Zpos (int_mantissa S) * 2 ^ 53 mod Zpos (int_mantissa N))
             (Zpos (int_mantissa N)) in
  fdiv (of_Z S) (of_Z N) =
  S754_finite false (Z.to_pos (fst (rounded q e l))) (snd (rounded q e l))
  /\ 0 < fst (rounded q e l).
Proof.
  intros HS HN e q l.
  pose proof (int_digits_range S HS). pose proof (int_digits_range N HN).
  rewrite (of_Z_pos S), (of_Z_pos N) by lia.
  split.
  - apply fdiv_normal;
      [apply int_mantissa_digits; lia|apply int_mantissa_digits; lia
      |unfold int_exponent; lia|unfold int_exponent; lia].
  - pose proof (int_mantissa_bounds S HS) as BS.
    pose proof (int_mantissa_bounds N HN) as BN.
    destruct (quotient_bounds _ _ BS BN) as (_ & _ & Hq & _).
    fold q in Hq. clearbody q.
    destruct (rounded_div_cases q e l Hq) as [[_ Hc]|[_ Hc]];
      destruct Hc as [E|[(E & _)|(E & _)]]; rewrite E; cbn [fst];
      change (2 ^ 52) with 4503599627370496 in *; try lia.
    + apply Z.div_str_pos. lia.
    + assert (0 <= q / 2) by (apply Z.div_pos; lia). lia.
Qed.

(** The quotient of two integers held exactly is correctly rounded, so
    it lies between any two integers that bound the exact quotient. *)
Lemma fdiv_int_lower (a S N : Z) :
  0 <= a -> 0 <= S < 2 ^ 53 -> 0 < N < 2 ^ 53 -> a * N <= S ->
  fle (of_Z a) (fdiv (of_Z S) (of_Z N)) = true.
Proof.
  intros Ha HS HN Hle.
  destruct (Z.eq_dec S 0) as [->|HS0].
  - assert (a = 0) by nia. subst a.
    rewrite (of_Z_pos N) by lia. reflexivity.
  - destruct (fdiv_int_form S N ltac:(lia) HN) as [Hdiv Hpos].
    cbv zeta in Hdiv, Hpos. rewrite Hdiv.
    destruct (Z.eq_dec a 0) as [->|Ha0]; [reflexivity|].
    assert (Ha53 : 0 < a < 2 ^ 53) by nia.
    rewrite (of_Z_pos a) by lia. apply fle_lex.
    pose proof (int_digits_range a Ha53).
    pose proof (int_digits_range S ltac:(lia)).
    pose proof (int_digits_range N HN).
    pose proof (div_lower_core (Zpos (int_mantissa a)) (Zpos (int_mantissa S))
                  (Zpos (int_mantissa N))
                  (int_exponent a - (int_exponent S - int_exponent N - 53))
                  (int_exponent S - int_exponent N - 53)
                  (div_loc (Zpos (int_mantissa S) * 2 ^ 53
                            mod Zpos (int_mantissa N))
                     (Zpos (int_mantissa N)))
                  (int_mantissa_bounds a Ha53)
                  (int_mantissa_bounds S ltac:(lia))
                  (int_mantissa_bounds N HN)) as Hcore.
    cbv zeta in Hcore.
    match type of Hcore with ?P -> _ => assert (Hhyp : P) end.
    { intros Ht. rewrite !int_mantissa_pos by lia.
      unfold int_exponent in *.
      set (da := Zdigits2 a) in *. set (dS := Zdigits2 S) in *.
      set (dN := Zdigits2 N) in *.
      assert (Hpow : 2 ^ (53 - da) * 2 ^ (53 - dN)
                     * 2 ^ (da - 53 - (dS - 53 - (dN - 53) - 53))
                     = 2 ^ (53 - dS) * 2 ^ 53).
      { rewrite <- !Z.pow_add_r by lia. f_equal. lia. }
      assert (0 < 2 ^ (53 - dS) * 2 ^ 53)
        by (apply Z.mul_pos_pos; apply Z.pow_pos_nonneg; lia).
      replace (a * 2 ^ (53 - da) * (N * 2 ^ (53 - dN))
               * 2 ^ (da - 53 - (dS - 53 - (dN - 53) - 53)))
        with (a * N * (2 ^ (53 - da) * 2 ^ (53 - dN)
                       * 2 ^ (da - 53 - (dS - 53 - (dN - 53) - 53)))) by ring.
      rewrite Hpow.
      replace (S * 2 ^ (53 - dS) * 2 ^ 53) with (S * (2 ^ (53 - dS) * 2 ^ 53))
        by ring.
      apply Z.mul_le_mono_nonneg_r; lia. }
    specialize (Hcore Hhyp).
    destruct Hcore as [Hlt|[Heq Hm]]; [left; lia|right].
    split; [lia|]. lia.
Qed.

Lemma fdiv_int_upper (b S N : Z) :
  0 <= b < 2 ^ 53 -> 0 <= S < 2 ^ 53 -> 0 < N < 2 ^ 53 -> S <= b * N ->
  fle (fdiv (of_Z S) (of_Z N)) (of_Z b) = true.
Proof.
  intros Hb HS HN Hle.
  destruct (Z.eq_dec S 0) as [->|HS0].
  - rewrite (of_Z_pos N) by lia.
    destruct (Z.eq_dec b 0) as [->|Hb0]; [reflexivity|].
    rewrite (of_Z_pos b) by lia. reflexivity.
  - destruct (fdiv_int_form S N ltac:(lia) HN) as [Hdiv Hpos].
    cbv zeta in Hdiv, Hpos. rewrite Hdiv.
    assert (Hb53 : 0 < b < 2 ^ 53) by nia.
    rewrite (of_Z_pos b) by lia. apply fle_lex.
    pose proof (int_digits_range b Hb53).
    pose proof (int_digits_range S ltac:(lia)).
    pose proof (int_digits_range N HN).
    pose proof (div_upper_core (Zpos (int_mantissa b)) (Zpos (int_mantissa S))
                  (Zpos (int_mantissa N))
                  (int_exponent b - (int_exponent S - int_exponent N - 53))
                  (int_exponent S - int_exponent N - 53)
                  (int_mantissa_bounds b Hb53)
                  (int_mantissa_bounds S ltac:(lia))
                  (int_mantissa_bounds N HN)) as Hcore.
    cbv zeta in Hcore.
    match type of Hcore with ?P -> ?Q -> _ =>
      assert (Hhyp1 : P); [|assert (Hhyp2 : Q)] end.
    { intros Ht. rewrite !int_mantissa_pos by lia.
      unfold int_exponent in *.
      set (db := Zdigits2 b) in *. set (dS := Zdigits2 S) in *.
      set (dN := Zdigits2 N) in *.
      assert (Hpow : 2 ^ (53 - db) * 2 ^ (53 - dN)
                     * 2 ^ (db - 53 - (dS - 53 - (dN - 53) - 53))
                     = 2 ^ (53 - dS) * 2 ^ 53).
      { rewrite <- !Z.pow_add_r by lia. f_equal. lia. }
      assert (0 < 2 ^ (53 - dS) * 2 ^ 53)
        by (apply Z.mul_pos_pos; apply Z.pow_pos_nonneg; lia).
      replace (b * 2 ^ (53 - db) * (N * 2 ^ (53 - dN))
               * 2 ^ (db - 53 - (dS - 53 - (dN - 53) - 53)))
        with (b * N * (2 ^ (53 - db) * 2 ^ (53 - dN)
                       * 2 ^ (db - 53 - (dS - 53 - (dN - 53) - 53)))) by ring.
      rewrite Hpow.
      replace (S * 2 ^ (53 - dS) * 2 ^ 53) with (S * (2 ^ (53 - dS) * 2 ^ 53))
        by ring.
      apply Z.mul_le_mono_nonneg_r; lia. }
    { intros Ht. rewrite !int_mantissa_pos by lia.
      unfold int_exponent in *.
      set (db := Zdigits2 b) in *. set (dS := Zdigits2 S) in *.
      set (dN := Zdigits2 N) in *.
      assert (Hpow : 2 ^ (53 - dS) * 2 ^ 53
                     * 2 ^ (- (db - 53 - (dS - 53 - (dN - 53) - 53)))
                     = 2 ^ (53 - db) * 2 ^ (53 - dN)).
      { rewrite <- !Z.pow_add_r by lia. f_equal. lia. }
      assert (0 < 2 ^ (53 - db) * 2 ^ (53 - dN))
        by (apply Z.mul_pos_pos; apply Z.pow_pos_nonneg; lia).
      replace (S * 2 ^ (53 - dS) * 2 ^ 53
               * 2 ^ (- (db - 53 - (dS - 53 - (dN - 53) - 53))))
        with (S * (2 ^ (53 - dS) * 2 ^ 53
                   * 2 ^ (- (db - 53 - (dS - 53 - (dN - 53) - 53))))) by ring.
      rewrite Hpow.
      replace (b * 2 ^ (53 - db) * (N * 2 ^ (53 - dN)))
        with (b * N * (2 ^ (53 - db) * 2 ^ (53 - dN))) by ring.
      apply Z.mul_le_mono_nonneg_r; lia. }
    specialize (Hcore Hhyp1 Hhyp2).
    destruct Hcore as [Hlt|[Heq Hm]]; [left; lia|right].
    split; lia.
Qed.

(** An exact quotient is returned as it is. *)
Lemma fdiv_int_exact (k N : Z) :
  0 <= k -> 0 < N < 2 ^ 53 -> k * N < 2 ^ 53 ->
  fdiv (of_Z (k * N)) (of_Z N) = of_Z k.
Proof.
  intros Hk HN53 HkN.
  destruct (Z.eq_dec k 0) as [->|Hk0].
  - rewrite Z.mul_0_l, (of_Z_pos N) by lia. reflexivity.
  - assert (Hk53 : 0 < k < 2 ^ 53) by nia.
    pose proof (fdiv_int_lower k (k * N) N ltac:(lia) ltac:(nia) HN53
                  ltac:(lia)) as Hlo.
    pose proof (fdiv_int_upper k (k * N) N ltac:(lia) ltac:(nia) HN53
                  ltac:(lia)) as Hhi.
    destruct (fdiv_int_form (k * N) N ltac:(nia) HN53) as [Hdiv Hpos].
    cbv zeta in Hdiv. rewrite Hdiv in *.
    rewrite (of_Z_pos k) in * by lia.
    apply fle_lex_inv in Hlo, Hhi.
    f_equal; lia.
Qed.

(** The running sum of integer durations is exact. *)
Lemma sum_int_nonneg (zs : list Z) :
  Forall (fun z => 0 <= z < 2 ^ 53) zs -> 0 <= sum_int zs.
Proof.
  induction 1 as [|z zs Hz _ IH]; unfold sum_int; cbn [fold_right]; [lia|].
  fold (sum_int zs). lia.
Qed.

Lemma fold_fadd_int (zs : list Z) :
  forall acc,
    Forall (fun z => 0 <= z < 2 ^ 53) zs -> 0 <= acc ->
    acc + sum_int zs < 2 ^ 53 ->
    fold_left fadd (map of_Z zs) (of_Z acc) = of_Z (acc + sum_int zs).
Proof.
  induction zs as [|z zs IH]; intros acc Hs Hacc Hsum.
  - unfold sum_int. cbn [map fold_left fold_right]. f_equal. lia.
  - inversion Hs as [|? ? Hz Hzs]; subst.
    pose proof (sum_int_nonneg zs Hzs).
    unfold sum_int in *. cbn [map fold_left fold_right] in *.
    rewrite fadd_int by lia. rewrite IH by (try assumption; lia).
    f_equal. lia.
Qed.

Lemma mean_of_int (zs : list Z) :
  Forall (fun z => 0 <= z < 2 ^ 53) zs -> sum_int zs < 2 ^ 53 ->
  mean_of (map of_Z zs) = fdiv (of_Z (sum_int zs)) (of_Z (Z.of_nat (length zs))).
Proof.
  intros Hs Hsum. unfold mean_of, of_nat. rewrite length_map.
  change pos_zero with (of_Z 0).
  rewrite fold_fadd_int by (try assumption; lia). reflexivity.
Qed.

Lemma sum_int_bounds (zs : list Z) :
  zs <> [] ->
  min_int zs * Z.of_nat (length zs) <= sum_int zs
  <= max_int zs * Z.of_nat (length zs).
Proof.
  intros Hne.
  assert (H : forall l, Forall (fun z => min_int zs <= z <= max_int zs) l ->
            min_int zs * Z.of_nat (length l) <= sum_int l
            <= max_int zs * Z.of_nat (length l)).
  { induction 1 as [|z l Hz _ IH]; unfold sum_int in *;
      cbn [length fold_right]; [lia|]. rewrite Nat2Z.inj_succ. lia. }
  apply H. apply List.Forall_forall. intros z Hz. apply min_max_int_In, Hz.
Qed.

Lemma fold_min_max_In (l : list Z) (y : Z) :
  In (fold_right Z.min y l) (y :: l) /\ In (fold_right Z.max y l) (y :: l).
Proof.
  induction l as [|z l [IHmin IHmax]]; cbn [fold_right].
  - split; left; reflexivity.
  - split.
    + destruct (Z.min_spec z (fold_right Z.min y l)) as [[_ ->]|[_ ->]].
      * right; left; reflexivity.
      * destruct IHmin as [<-|H]; [left; reflexivity|right; right; exact H].
    + destruct (Z.max_spec z (fold_right Z.max y l)) as [[_ ->]|[_ ->]].
      * destruct IHmax as [<-|H]; [left; reflexivity|right; right; exact H].
      * right; left; reflexivity.
Qed.

Lemma min_max_int_elem (zs : list Z) :
  zs <> [] -> In (min_int zs) zs /\ In (max_int zs) zs.
Proof.
  destruct zs as [|y l]; [contradiction|]. intros _.
  apply fold_min_max_In.
Qed.

(** C5, as stated, fails: thirty-three equal durations whose sum is
    not exact have a mean above all of them. *)
Lemma mean_above_maximum :
  exists r w',
    formatMetrics "node" "v20.11.0" "fibonacci" 0%nat example_memory
      example_cpuUsage (example_world (map of_Z long_durations))
    = (Return r, w') /\
    Forall (fun z => 0 <= z < 2 ^ 53) long_durations /\
    fle (mean (statistics r)) (of_Z (max_int long_durations)) = false /\
    flt (of_Z (max_int long_durations)) (mean (statistics r)) = true.
Proof.
  rewrite (formatMetrics_run _ _ _ _ _ _ _ (map of_Z long_durations))
    by reflexivity.
  eexists _, _. split; [reflexivity|]. split.
  - unfold long_durations. apply List.Forall_forall. intros z Hz.
    apply repeat_spec in Hz. subst z. lia.
  - split; vm_compute; reflexivity.
Qed.

(** C5, amended: the two fields [statistics.mean] and
    [metrics.averageExecutionTime] are the same Number for every input.
    For non-empty durations that are non-negative integers with a sum
    below 2^53, that Number is the sum divided by N, correctly rounded
    (the exact mean when N divides the sum), and it lies between the
    least and the greatest duration. *)
Theorem mean_is_average (rt ver exp : string) (l : loc)
    (mem : MemoryUsageArg) (cpu : CpuUsageArg) (w : World) :
  (forall xs, heap w !! l = Some xs ->
     exists r w',
       formatMetrics rt ver exp l mem cpu w = (Return r, w') /\
       mean (statistics r) = averageExecutionTime (metrics r)) /\
  (forall zs,
     heap w !! l = Some (map of_Z zs) -> safe_durations zs ->
     sum_int zs < 2 ^ 53 -> zs <> [] ->
     exists r w',
       formatMetrics rt ver exp l mem cpu w = (Return r, w') /\
       mean (statistics r) = averageExecutionTime (metrics r) /\
       mean (statistics r) =
       fdiv (of_Z (sum_int zs)) (of_Z (Z.of_nat (length zs))) /\
       (forall k, sum_int zs = k * Z.of_nat (length zs) ->
          mean (statistics r) = of_Z k) /\
       fle (of_Z (min_int zs)) (mean (statistics r)) = true /\
       fle (mean (statistics r)) (of_Z (max_int zs)) = true).
Proof.
  split.
  - intros xs Hl. rewrite (formatMetrics_run _ _ _ _ _ _ _ _ Hl).
    eexists _, _. split; reflexivity.
  - intros zs Hl [Hs Hlen] Hsum Hne.
    rewrite (formatMetrics_run _ _ _ _ _ _ _ _ Hl).
    eexists _, _. split; [reflexivity|].
    cbn [statistics metrics report_of statistics_of metrics_of mean
         averageExecutionTime].
    rewrite mean_of_int by assumption.
    assert (Hpos : 0 < Z.of_nat (length zs))
      by (destruct zs; [contradiction|simpl; lia]).
    assert (HN : 0 < Z.of_nat (length zs) < 2 ^ 53).
    { split; [lia|].
      assert (2 ^ 32 < 2 ^ 53) by (apply Z.pow_lt_mono_r; lia). lia. }
    pose proof (sum_int_nonneg zs Hs) as Hnn.
    pose proof (sum_int_bounds zs Hne) as [Hlo Hhi].
    destruct (min_max_int_elem zs Hne) as [Hmin Hmax].
    rewrite List.Forall_forall in Hs.
    pose proof (Hs _ Hmin) as Bmin. pose proof (Hs _ Hmax) as Bmax.
    split; [reflexivity|]. split; [reflexivity|]. split; [|split].
    + intros k Hk. rewrite Hk. apply fdiv_int_exact; [nia|lia|lia].
    + apply fdiv_int_lower; lia.
    + apply fdiv_int_upper; lia.
Qed.

Lemma mean_is_average_witness :
  heap (example_world (map of_Z [100; 200; 300; 400; 500])) !! 0%nat
  = Some (map of_Z [100; 200; 300; 400; 500]) /\
  safe_durations [100; 200; 300; 400; 500] /\
  sum_int [100; 200; 300; 400; 500] < 2 ^ 53 /\
  exists r w',
    formatMetrics "node" "v20.11.0" "fibonacci" 0%nat example_memory
      example_cpuUsage
      (example_world (map of_Z [100; 200; 300; 400; 500]))
    = (Return r, w') /\
    mean (statistics r) = averageExecutionTime (metrics r) /\
    mean (statistics r) = of_Z 300.
Proof.
  assert (Hs : safe_durations [100; 200; 300; 400; 500]).
  { split; [repeat constructor; lia|simpl; lia]. }
  assert (Hsum : sum_int [100; 200; 300; 400; 500] < 2 ^ 53)
    by (vm_compute; reflexivity).
  split; [reflexivity|]. split; [exact Hs|]. split; [exact Hsum|].
  destruct (mean_is_average "node"%string "v20.11.0"%string
              "fibonacci"%string 0%nat example_memory example_cpuUsage
              (example_world (map of_Z [100; 200; 300; 400; 500])))
    as [_ H].
  destruct (H [100; 200; 300; 400; 500] eq_refl Hs Hsum ltac:(discriminate))
    as (r & w' & Hrun & Havg & _ & Hexact & _).
  exists r, w'. split; [exact Hrun|]. split; [exact Havg|].
  apply Hexact. reflexivity.
Defined.
(** *** Shape of sums, differences, squares, quotients and roots *)

Lemma normal_weaken (s : bool) (lo lo' : Z) (x : float) :
  normal s lo x -> lo' <= lo -> normal s lo' x.
Proof.
  intros [|m e Hd He] H; [constructor|constructor; [assumption|lia]].
Qed.

Lemma nonneg_weaken (lo lo' : Z) (x : float) :
  nonneg lo x -> lo' <= lo -> nonneg lo' x.
Proof.
  intros [->|H] Hl; [left; reflexivity|right; eapply normal_weaken; eauto].
Qed.

Lemma binary_round_aux_is_normal (s : bool) (m e : Z) (l : location) :
  0 < m -> 53 <= Zdigits2 m -> -1074 <= Zdigits2 m + e - 53 ->
  normal s (Zdigits2 m + e - 53) (binary_round_aux 53 1024 s m e l).
Proof.
  intros Hm Hd Hlo.
  rewrite binary_round_aux_rounded by assumption.
  destruct (rounded_range m e l Hm Hd) as [Hf Hs].
  destruct (snd (rounded m e l) <=? 971); [|constructor].
  constructor; [|lia].
  rewrite Z2Pos.id by lia. apply Zdigits2_unique; simpl; lia.
Qed.

Lemma binary_round_is_normal (s : bool) (m : positive) (e : Z) :
  -1074 <= Zdigits2 (Zpos m) + e - 53 ->
  normal s (Zdigits2 (Zpos m) + e - 53) (binary_round 53 1024 s m e).
Proof.
  intros Hlo. unfold binary_round.
  change (Z.pos (digits2_pos m)) with (Zdigits2 (Zpos m)).
  rewrite fexp_normal by lia.
  pose proof (Zdigits2_pos_positive m) as Hdp.
  set (d := Zdigits2 (Zpos m)) in *.
  destruct (Z_le_gt_dec (d + e - 53) e) as [Hle|Hgt].
  - rewrite shl_align_le by lia.
    replace (e - (d + e - 53)) with (53 - d) by lia.
    assert (Hp : 0 < Zpos m * 2 ^ (53 - d)).
    { apply Z.mul_pos_pos; [lia|apply Z.pow_pos_nonneg; lia]. }
    assert (Hdm : Zdigits2 (Zpos m * 2 ^ (53 - d)) = 53).
    { rewrite Zdigits2_mul_pow2 by lia. fold d. lia. }
    rewrite Z2Pos.id by lia.
    replace (d + e - 53) with (Zdigits2 (Zpos m * 2 ^ (53 - d)) + (d + e - 53) - 53)
      at 1 by lia.
    apply binary_round_aux_is_normal; lia.
  - rewrite shl_align_ge by lia.
    apply binary_round_aux_is_normal; fold d; lia.
Qed.

Lemma digits_ge (m k : Z) : 0 <= k -> 2 ^ k <= m -> k + 1 <= Zdigits2 m.
Proof.
  intros Hk H.
  assert (0 < 2 ^ k) by (apply Z.pow_pos_nonneg; lia).
  pose proof (Zdigits2_bounds m ltac:(lia)) as B.
  destruct (Z_le_gt_dec (k + 1) (Zdigits2 m)) as [|Hgt]; [easy|].
  assert (2 ^ Zdigits2 m <= 2 ^ k).
  { apply Z.pow_le_mono_r; lia. }
  lia.
Qed.

Lemma mantissa_53 (m : positive) :
  Zdigits2 (Zpos m) = 53 -> 2 ^ 52 <= Zpos m < 2 ^ 53.
Proof.
  intros H. pose proof (Zdigits2_bounds (Zpos m) ltac:(lia)) as B.
  rewrite H in B. exact B.
Qed.

Lemma aligned_lower (m : positive) (e ez : Z) :
  Zdigits2 (Zpos m) = 53 -> ez <= e ->
  Zpos (fst (shl_align m e ez)) = Zpos m * 2 ^ (e - ez) /\
  2 ^ (52 + (e - ez)) <= Zpos m * 2 ^ (e - ez) < 2 ^ (53 + (e - ez)).
Proof.
  intros Hd He. pose proof (mantissa_53 m Hd) as B.
  assert (0 < 2 ^ (e - ez)) by (apply Z.pow_pos_nonneg; lia).
  rewrite shl_align_le by lia. cbn [fst].
  rewrite Z2Pos.id by nia. split; [reflexivity|].
  rewrite !Z.pow_add_r by lia. nia.
Qed.

Lemma fadd_finite (m1 m2 : positive) (e1 e2 : Z) :
  Zdigits2 (Zpos m1) = 53 -> Zdigits2 (Zpos m2) = 53 ->
  -1074 <= e1 -> -1074 <= e2 ->
  normal false (Z.max e1 e2)
    (fadd (S754_finite false m1 e1) (S754_finite false m2 e2)).
Proof.
  intros H1 H2 L1 L2. unfold fadd, SFadd. cbv zeta. cbn [cond_Zopp].
  set (ez := Z.min e1 e2).
  destruct (aligned_lower m1 e1 ez H1 ltac:(unfold ez; lia)) as [-> B1].
  destruct (aligned_lower m2 e2 ez H2 ltac:(unfold ez; lia)) as [-> B2].
  set (a1 := Zpos m1 * 2 ^ (e1 - ez)) in *.
  set (a2 := Zpos m2 * 2 ^ (e2 - ez)) in *.
  assert (P1 : 0 < 2 ^ (52 + (e1 - ez))) by (apply Z.pow_pos_nonneg; unfold ez; lia).
  assert (P2 : 0 < 2 ^ (52 + (e2 - ez))) by (apply Z.pow_pos_nonneg; unfold ez; lia).
  destruct (a1 + a2) as [|p|p] eqn:E; try lia.
  unfold binary_normalize.
  assert (D1 : 53 + (e1 - ez) <= Zdigits2 (Zpos p)).
  { replace (53 + (e1 - ez)) with (52 + (e1 - ez) + 1) by lia.
    apply digits_ge; [unfold ez; lia|lia]. }
  assert (D2 : 53 + (e2 - ez) <= Zdigits2 (Zpos p)).
  { replace (53 + (e2 - ez)) with (52 + (e2 - ez) + 1) by lia.
    apply digits_ge; [unfold ez; lia|lia]. }
  eapply normal_weaken.
  - apply binary_round_is_normal. unfold ez in *. lia.
  - unfold ez in *. lia.
Qed.

Lemma fadd_nonneg (lo : Z) (x y : float) :
  -1074 <= lo -> nonneg lo x -> nonneg lo y -> nonneg lo (fadd x y).
Proof.
  intros Hlo [->|Hx] [->|Hy].
  - left. reflexivity.
  - right. destruct Hy; [constructor|]. constructor; assumption.
  - right. destruct Hx; [constructor|]. constructor; assumption.
  - right. destruct Hx as [|m1 e1 D1 L1]; destruct Hy as [|m2 e2 D2 L2];
      try constructor.
    eapply normal_weaken; [apply fadd_finite; try assumption; lia|lia].
Qed.

Lemma fadd_normal_l (lo : Z) (x y : float) :
  -1074 <= lo -> normal false lo x -> nonneg lo y ->
  normal false lo (fadd x y).
Proof.
  intros Hlo Hx [->|Hy].
  - destruct Hx; [constructor|]. constructor; assumption.
  - destruct Hx as [|m1 e1 D1 L1]; destruct Hy as [|m2 e2 D2 L2];
      try constructor.
    eapply normal_weaken; [apply fadd_finite; try assumption; lia|lia].
Qed.

Lemma fadd_normal_r (lo : Z) (x y : float) :
  -1074 <= lo -> nonneg lo x -> normal false lo y ->
  normal false lo (fadd x y).
Proof.
  intros Hlo [->|Hx] Hy.
  - destruct Hy; [constructor|]. constructor; assumption.
  - apply fadd_normal_l; [assumption|assumption|right; assumption].
Qed.

Lemma fold_fadd_nonneg (lo : Z) (ys : list float) (acc : float) :
  -1074 <= lo -> Forall (nonneg lo) ys -> nonneg lo acc ->
  nonneg lo (fold_left fadd ys acc).
Proof.
  intros Hlo Hys. revert acc.
  induction Hys as [|y ys Hy _ IH]; intros acc Hacc; cbn [fold_left].
  - exact Hacc.
  - apply IH. apply fadd_nonneg; assumption.
Qed.

Lemma fold_fadd_normal_acc (lo : Z) (ys : list float) (acc : float) :
  -1074 <= lo -> Forall (nonneg lo) ys -> normal false lo acc ->
  normal false lo (fold_left fadd ys acc).
Proof.
  intros Hlo Hys. revert acc.
  induction Hys as [|y ys Hy _ IH]; intros acc Hacc; cbn [fold_left].
  - exact Hacc.
  - apply IH. apply fadd_normal_l; assumption.
Qed.

Lemma fold_fadd_normal (lo : Z) (ys : list float) (acc y : float) :
  -1074 <= lo -> Forall (nonneg lo) ys -> nonneg lo acc ->
  In y ys -> normal false lo y ->
  normal false lo (fold_left fadd ys acc).
Proof.
  intros Hlo Hys. revert acc.
  induction Hys as [|y' ys Hy' Hys IH]; intros acc Hacc Hin Hy;
    cbn [fold_left].
  - destruct Hin.
  - destruct Hin as [->|Hin].
    + apply fold_fadd_normal_acc; [assumption|assumption|].
      apply fadd_normal_r; assumption.
    + apply IH; [apply fadd_nonneg; assumption|assumption|assumption].
Qed.
(** The difference of two positive normal Numbers is zero only when
    they are the same Number. *)
Lemma fsub_finite (m1 m2 : positive) (e1 e2 : Z) :
  Zdigits2 (Zpos m1) = 53 -> Zdigits2 (Zpos m2) = 53 ->
  -1021 <= e1 -> -1021 <= e2 ->
  (fsub (S754_finite false m1 e1) (S754_finite false m2 e2) = pos_zero
   /\ m1 = m2 /\ e1 = e2)
  \/ exists s, normal s (Z.min e1 e2 - 52)
       (fsub (S754_finite false m1 e1) (S754_finite false m2 e2)).
Proof.
  intros H1 H2 L1 L2. unfold fsub, SFsub. cbv zeta. cbn [cond_Zopp].
  set (ez := Z.min e1 e2).
  destruct (aligned_lower m1 e1 ez H1 ltac:(unfold ez; lia)) as [-> B1].
  destruct (aligned_lower m2 e2 ez H2 ltac:(unfold ez; lia)) as [-> B2].
  pose proof (mantissa_53 m1 H1) as M1. pose proof (mantissa_53 m2 H2) as M2.
  set (a1 := Zpos m1 * 2 ^ (e1 - ez)) in *.
  set (a2 := Zpos m2 * 2 ^ (e2 - ez)) in *.
  destruct (a1 - a2) as [|p|p] eqn:E; unfold binary_normalize.
  - left. split; [reflexivity|].
    assert (Ha : a1 = a2) by lia.
    destruct (Z.lt_trichotomy e1 e2) as [Hlt|[Heq|Hgt]].
    + exfalso. unfold a1, a2, ez in *.
      replace (Z.min e1 e2) with e1 in * by lia.
      replace (e1 - e1) with 0 in * by lia.
      assert (2 ^ 1 <= 2 ^ (e2 - e1)) by (apply Z.pow_le_mono_r; lia).
      change (2 ^ 1) with 2 in *. change (2 ^ 0) with 1 in *. nia.
    + subst e2. unfold a1, a2, ez in *.
      replace (Z.min e1 e1) with e1 in * by lia.
      replace (e1 - e1) with 0 in * by lia.
      change (2 ^ 0) with 1 in *. split; [lia|reflexivity].
    + exfalso. unfold a1, a2, ez in *.
      replace (Z.min e1 e2) with e2 in * by lia.
      replace (e2 - e2) with 0 in * by lia.
      assert (2 ^ 1 <= 2 ^ (e1 - e2)) by (apply Z.pow_le_mono_r; lia).
      change (2 ^ 1) with 2 in *. change (2 ^ 0) with 1 in *. nia.
  - right. exists false.
    eapply normal_weaken.
    + apply binary_round_is_normal.
      pose proof (Zdigits2_pos_positive p). unfold ez. lia.
    + pose proof (Zdigits2_pos_positive p). fold ez. lia.
  - right. exists true.
    eapply normal_weaken.
    + apply binary_round_is_normal.
      pose proof (Zdigits2_pos_positive p). unfold ez. lia.
    + pose proof (Zdigits2_pos_positive p). fold ez. lia.
Qed.

Lemma fmul_square (s : bool) (lo : Z) (d : float) :
  -563 <= lo -> normal s lo d -> normal false (2 * lo + 52) (Math_pow2 d).
Proof.
  intros Hlo [|m e Hd He]; unfold Math_pow2, fmul, SFmul.
  - destruct s; constructor.
  - replace (xorb s s) with false by (destruct s; reflexivity).
    pose proof (Zdigits2_mul_53 m m Hd Hd) as D.
    eapply normal_weaken.
    + apply binary_round_aux_is_normal; lia.
    + lia.
Qed.

Lemma fdiv_is_normal (lo : Z) (x : float) (my : positive) (ey : Z) :
  normal false lo x -> Zdigits2 (Zpos my) = 53 ->
  -1074 <= lo - ey - 53 ->
  normal false (lo - ey - 53) (fdiv x (S754_finite false my ey)).
Proof.
  intros [|mx ex Hx He] Hy Hlo.
  - constructor.
  - destruct (fdiv_core mx my ex ey Hx Hy ltac:(lia)) as (E & Hq & Hd).
    rewrite E. eapply normal_weaken.
    + apply binary_round_aux_is_normal; lia.
    + lia.
Qed.

Lemma sqrt_is_normal (lo : Z) (x : float) :
  -1074 <= lo -> normal false lo x ->
  exists lo', normal false lo' (Math_sqrt x).
Proof.
  intros Hlo [|m e Hd He].
  - exists 0. constructor.
  - pose proof (mantissa_53 m Hd) as B.
    unfold Math_sqrt, SFsqrt, SFsqrt_core_binary. rewrite Hd.
    rewrite !Z.div2_div.
    assert (E54 : (53 + e + 1) / 2 = e / 2 + 27).
    { replace (53 + e + 1) with (e + 27 * 2) by lia.
      rewrite Z.div_add by lia. reflexivity. }
    rewrite E54. rewrite fexp_normal by (Z.div_mod_to_equations; lia).
    replace (Z.min (e / 2 + 27 - 53) (e / 2)) with (e / 2 - 26) by lia.
    cbv zeta.
    set (s := e - 2 * (e / 2 - 26)).
    assert (Hs : s = 52 \/ s = 53) by (unfold s; Z.div_mod_to_equations; lia).
    assert (Hm' : match s with
                  | 0 => Zpos m
                  | Z.pos _ => Z.shiftl (Zpos m) s
                  | Z.neg _ => 0
                  end = Zpos m * 2 ^ s).
    { destruct s; try lia. apply Z.shiftl_mul_pow2. lia. }
    rewrite Hm'.
    pose proof (Z.sqrtrem_spec (Zpos m * 2 ^ s)) as Hspec.
    assert (Hnn : 0 <= Zpos m * 2 ^ s).
    { apply Z.mul_nonneg_nonneg; [lia|apply Z.pow_nonneg; lia]. }
    specialize (Hspec Hnn).
    destruct (Z.sqrtrem (Zpos m * 2 ^ s)) as [q r].
    destruct Hspec as [Hqr Hr].
    assert (Hq : 2 ^ 52 <= q < 2 ^ 53).
    { destruct Hs as [-> | ->].
      - change (2 ^ 52) with 4503599627370496 in *.
        change (2 ^ 53) with 9007199254740992 in *. nia.
      - change (2 ^ 52) with 4503599627370496 in *.
        change (2 ^ 53) with 9007199254740992 in *. nia. }
    assert (Hdq : Zdigits2 q = 53) by (apply Zdigits2_unique; simpl; lia).
    eexists. 
    replace (e / 2 - 26) with (Zdigits2 q + (e / 2 - 26) - 53) at 2 by lia.
    apply binary_round_aux_is_normal; [lia|lia|].
    rewrite Hdq. Z.div_mod_to_equations; lia.
Qed.

Lemma normal_positive (lo : Z) (x : float) :
  normal false lo x -> flt pos_zero x = true.
Proof. intros [|m e _ _]; reflexivity. Qed.

Lemma of_Z_inj (a b : Z) :
  0 <= a < 2 ^ 53 -> 0 <= b < 2 ^ 53 -> of_Z a = of_Z b -> a = b.
Proof.
  intros Ha Hb E.
  destruct (Z.eq_dec a 0) as [->|Ha0]; destruct (Z.eq_dec b 0) as [->|Hb0].
  - reflexivity.
  - rewrite of_Z_zero, (of_Z_pos b) in E by lia. discriminate.
  - rewrite of_Z_zero, (of_Z_pos a) in E by lia. discriminate.
  - rewrite (of_Z_pos a), (of_Z_pos b) in E by lia.
    injection E as Em Ee.
    assert (Hm : Zpos (int_mantissa a) = Zpos (int_mantissa b)) by congruence.
    rewrite !int_mantissa_pos in Hm by lia.
    unfold int_exponent in Ee.
    replace (Zdigits2 b) with (Zdigits2 a) in Hm by lia.
    pose proof (int_digits_range a ltac:(lia)).
    assert (0 < 2 ^ (53 - Zdigits2 a)) by (apply Z.pow_pos_nonneg; lia).
    nia.
Qed.

Lemma of_Z_nonneg (z : Z) : 0 <= z < 2 ^ 53 -> nonneg (-52) (of_Z z).
Proof.
  intros Hz. destruct (Z.eq_dec z 0) as [->|H0].
  - left. reflexivity.
  - right. rewrite of_Z_pos by lia.
    pose proof (int_digits_range z ltac:(lia)).
    constructor; [apply int_mantissa_digits; lia|unfold int_exponent; lia].
Qed.

Lemma of_Z_normal (z : Z) : 0 < z < 2 ^ 53 -> normal false (-52) (of_Z z).
Proof.
  intros Hz. destruct (of_Z_nonneg z ltac:(lia)) as [E|H]; [|exact H].
  rewrite of_Z_pos in E by lia. discriminate.
Qed.
(** *** The standard deviation of integer durations *)

Lemma fold_left_fadd_map (g : float -> float) (xs : list float) (acc : float) :
  fold_left (fun sum val => fadd sum (g val)) xs acc =
  fold_left fadd (map g xs) acc.
Proof.
  revert acc. induction xs as [|x xs IH]; intros acc; cbn [fold_left map].
  - reflexivity.
  - apply IH.
Qed.

Lemma stdDev_of_population (xs : list float) :
  stdDev_of xs = population_stdDev xs.
Proof.
  set (g := fun x => Math_pow2 (fsub x (mean_of xs))).
  change (population_stdDev xs)
    with (Math_sqrt (fdiv (fold_left fadd (map g xs) pos_zero)
                       (of_nat (length (map g xs))))).
  rewrite length_map, <- fold_left_fadd_map. reflexivity.
Qed.

Lemma length_normal (N : Z) :
  0 < N < 2 ^ 32 ->
  exists m e, of_Z N = S754_finite false m e /\
    Zdigits2 (Zpos m) = 53 /\ -52 <= e <= 0.
Proof.
  intros HN.
  assert (HN' : 0 < N < 2 ^ 53).
  { assert (2 ^ 32 < 2 ^ 53) by (apply Z.pow_lt_mono_r; lia). lia. }
  pose proof (int_digits_range N HN').
  exists (int_mantissa N), (int_exponent N).
  split; [apply of_Z_pos; lia|].
  split; [apply int_mantissa_digits; lia|unfold int_exponent; lia].
Qed.

Lemma safe_length (zs : list Z) (c : Z) :
  safe_durations zs -> In c zs -> 0 < Z.of_nat (length zs) < 2 ^ 32.
Proof.
  intros [_ Hlen] Hin. destruct zs; [destruct Hin|]. simpl length in *. lia.
Qed.

Lemma mean_shape (zs : list Z) (c : Z) :
  safe_durations zs -> In c zs -> 0 < c ->
  normal false (-105) (mean_of (map of_Z zs)).
Proof.
  intros Hsafe Hin Hc. pose proof (safe_length zs c Hsafe Hin) as HN.
  destruct Hsafe as [Hs Hlen].
  unfold mean_of. rewrite length_map. unfold of_nat.
  destruct (length_normal _ HN) as (mN & eN & -> & HdN & HeN).
  assert (Hc' : 0 <= c < 2 ^ 53).
  { rewrite List.Forall_forall in Hs. apply Hs. exact Hin. }
  assert (Hacc : normal false (-52) (fold_left fadd (map of_Z zs) pos_zero)).
  { apply (fold_fadd_normal (-52) _ _ (of_Z c)).
    - lia.
    - apply List.Forall_map. revert Hs. apply List.Forall_impl.
      intros z Hz. apply of_Z_nonneg. exact Hz.
    - left. reflexivity.
    - apply in_map. exact Hin.
    - apply of_Z_normal. lia. }
  eapply normal_weaken.
  - apply (fdiv_is_normal (-52)); [exact Hacc|exact HdN|lia].
  - lia.
Qed.

Lemma deviation_shape (mean : float) (z : Z) :
  normal false (-105) mean -> 0 <= z < 2 ^ 53 ->
  (fsub (of_Z z) mean = pos_zero /\ of_Z z = mean)
  \/ exists s, normal s (-157) (fsub (of_Z z) mean).
Proof.
  intros [|m e Hd He] Hz.
  - right. exists true.
    destruct (Z.eq_dec z 0) as [->|H0].
    + constructor.
    + rewrite of_Z_pos by lia. constructor.
  - destruct (Z.eq_dec z 0) as [->|H0].
    + right. exists true. rewrite of_Z_zero. cbn.
      constructor; [assumption|lia].
    + rewrite of_Z_pos by lia.
      pose proof (int_digits_range z ltac:(lia)) as Hdz.
      destruct (fsub_finite (int_mantissa z) m (int_exponent z) e)
        as [(E & Em & Ee)|[s Hs]].
      * apply int_mantissa_digits; lia.
      * exact Hd.
      * unfold int_exponent; lia.
      * lia.
      * left. split; [exact E|]. rewrite Em, Ee. reflexivity.
      * right. exists s. eapply normal_weaken; [exact Hs|].
        unfold int_exponent. lia.
Qed.

Lemma square_nonneg (mean : float) (z : Z) :
  normal false (-105) mean -> 0 <= z < 2 ^ 53 ->
  nonneg (-262) (Math_pow2 (fsub (of_Z z) mean)).
Proof.
  intros Hm Hz. destruct (deviation_shape mean z Hm Hz) as [[-> _]|[s Hs]].
  - left. reflexivity.
  - right. apply (fmul_square s (-157)); [lia|exact Hs].
Qed.

Lemma stdDev_positive (zs : list Z) (a b : Z) :
  safe_durations zs -> In a zs -> In b zs -> a <> b ->
  flt pos_zero (stdDev_of (map of_Z zs)) = true.
Proof.
  intros Hsafe Ha Hb Hab.
  pose proof (safe_length zs a Hsafe Ha) as HN.
  pose proof Hsafe as [Hs Hlen].
  rewrite List.Forall_forall in Hs.
  pose proof (Hs a Ha) as Ra. pose proof (Hs b Hb) as Rb.
  assert (Hmean : normal false (-105) (mean_of (map of_Z zs))).
  { destruct (Z.eq_dec a 0) as [Ha0|Ha0].
    - apply (mean_shape zs b); [assumption|assumption|lia].
    - apply (mean_shape zs a); [assumption|assumption|lia]. }
  unfold stdDev_of. rewrite fold_left_fadd_map, length_map.
  set (mean := mean_of (map of_Z zs)) in *.
  set (g := fun val => Math_pow2 (fsub val mean)).
  assert (Hall : Forall (nonneg (-262)) (map g (map of_Z zs))).
  { rewrite map_map. apply List.Forall_map. apply List.Forall_forall.
    intros z Hz. apply square_nonneg; [exact Hmean|apply Hs; exact Hz]. }
  assert (Hone : exists c, In c zs /\ normal false (-262) (g (of_Z c))).
  { destruct (deviation_shape mean a Hmean Ra) as [[_ Ea]|[s Hsa]].
    - destruct (deviation_shape mean b Hmean Rb) as [[_ Eb]|[s Hsb]].
      + exfalso. apply Hab. apply of_Z_inj; [lia|lia|congruence].
      + exists b. split; [exact Hb|].
        apply (fmul_square s (-157)); [lia|exact Hsb].
    - exists a. split; [exact Ha|].
      apply (fmul_square s (-157)); [lia|exact Hsa]. }
  destruct Hone as (c & Hc & Hgc).
  assert (Htotal : normal false (-262)
            (fold_left fadd (map g (map of_Z zs)) pos_zero)).
  { apply (fold_fadd_normal (-262) _ _ (g (of_Z c)));
      [lia|exact Hall|left; reflexivity| |exact Hgc].
    apply in_map. apply in_map. exact Hc. }
  unfold of_nat.
  destruct (length_normal _ HN) as (mN & eN & -> & HdN & HeN).
  assert (Hvar : normal false (-315)
            (fdiv (fold_left fadd (map g (map of_Z zs)) pos_zero)
               (S754_finite false mN eN))).
  { eapply normal_weaken.
    - apply (fdiv_is_normal (-262)); [exact Htotal|exact HdN|lia].
    - lia. }
  destruct (sqrt_is_normal (-315) _ ltac:(lia) Hvar) as [lo' Hsq].
  exact (normal_positive lo' _ Hsq).
Qed.

Lemma identical_sum (zs : list Z) (x : Z) :
  Forall (fun z => z = x) zs -> sum_int zs = x * Z.of_nat (length zs).
Proof.
  unfold sum_int. induction 1 as [|z zs Hz _ IH].
  - simpl. lia.
  - cbn [fold_right length]. rewrite IH, Hz. lia.
Qed.

Lemma identical_squares (zs : list Z) (x : Z) :
  0 <= x < 2 ^ 53 -> Forall (fun z => z = x) zs ->
  fold_left (fun sum val => fadd sum (Math_pow2 (fsub val (of_Z x))))
    (map of_Z zs) pos_zero = pos_zero.
Proof.
  intros Hx. induction 1 as [|z zs Hz _ IH]; cbn [fold_left map].
  - reflexivity.
  - subst z. rewrite fsub_int by lia. rewrite Z.sub_diag.
    change (fadd pos_zero (Math_pow2 (of_Z 0))) with pos_zero. exact IH.
Qed.

Lemma stdDev_identical (zs : list Z) :
  safe_durations zs -> zs <> [] -> sum_int zs < 2 ^ 53 ->
  (forall a b, In a zs -> In b zs -> a = b) ->
  stdDev_of (map of_Z zs) = pos_zero.
Proof.
  intros Hsafe Hne Hsum Hall.
  destruct zs as [|x zs']; [contradiction|].
  set (zs := x :: zs') in *.
  assert (Hin : In x zs) by (left; reflexivity).
  pose proof (safe_length zs x Hsafe Hin) as HN.
  assert (Hid : Forall (fun z => z = x) zs).
  { apply List.Forall_forall. intros z Hz. apply Hall; assumption. }
  pose proof Hsafe as [Hs Hlen].
  rewrite List.Forall_forall in Hs. pose proof (Hs x Hin) as Hx.
  assert (Hmean : mean_of (map of_Z zs) = of_Z x).
  { rewrite mean_of_int by (try assumption; apply Hsafe).
    rewrite (identical_sum zs x Hid).
    rewrite (identical_sum zs x Hid) in Hsum.
    assert (2 ^ 32 < 2 ^ 53) by (apply Z.pow_lt_mono_r; lia).
    apply fdiv_int_exact; lia. }
  unfold stdDev_of. rewrite Hmean.
  rewrite identical_squares by assumption.
  rewrite length_map. unfold of_nat.
  destruct (length_normal _ HN) as (mN & eN & -> & _ & _).
  reflexivity.
Qed.

(** C6, as stated, fails: the thirty-three equal durations of
    [long_durations] have a mean that is not one of them, and a
    standard deviation of 1. *)
Lemma identical_durations_stdDev_one :
  exists r w',
    formatMetrics "node" "v20.11.0" "fibonacci" 0%nat example_memory
      example_cpuUsage (example_world (map of_Z long_durations))
    = (Return r, w') /\
    Forall (fun z => 0 <= z < 2 ^ 53) long_durations /\
    (forall a b, In a long_durations -> In b long_durations -> a = b) /\
    stdDev (statistics r) = of_Z 1 /\
    flt pos_zero (stdDev (statistics r)) = true.
Proof.
  rewrite (formatMetrics_run _ _ _ _ _ _ _ (map of_Z long_durations))
    by reflexivity.
  eexists _, _. split; [reflexivity|]. split; [|split].
  - unfold long_durations. apply List.Forall_forall. intros z Hz.
    apply repeat_spec in Hz. subst z. lia.
  - unfold long_durations. intros a b Ha Hb.
    apply repeat_spec in Ha, Hb. congruence.
  - split; vm_compute; reflexivity.
Qed.

(** C6, amended: the [stdDev] field is the population standard
    deviation, the square root of the mean (divisor N) of the squared
    deviations from the mean, every operation rounded to a Number, for
    every input.  For non-empty durations that are non-negative integers
    below 2^53, it is strictly positive when the durations are not all
    identical, and it is 0 when they are all identical and their sum is
    below 2^53. *)
Theorem stdDev_is_population_deviation (rt ver exp : string) (l : loc)
    (mem : MemoryUsageArg) (cpu : CpuUsageArg) (w : World) :
  (forall xs, heap w !! l = Some xs ->
     exists r w',
       formatMetrics rt ver exp l mem cpu w = (Return r, w') /\
       stdDev (statistics r) = population_stdDev xs) /\
  (forall zs,
     heap w !! l = Some (map of_Z zs) -> safe_durations zs -> zs <> [] ->
     exists r w',
       formatMetrics rt ver exp l mem cpu w = (Return r, w') /\
       stdDev (statistics r) = population_stdDev (map of_Z zs) /\
       ((forall a b, In a zs -> In b zs -> a = b) ->
        sum_int zs < 2 ^ 53 ->
        stdDev (statistics r) = pos_zero) /\
       ((exists a b, In a zs /\ In b zs /\ a <> b) ->
        flt pos_zero (stdDev (statistics r)) = true)).
Proof.
  split.
  - intros xs Hl. rewrite (formatMetrics_run _ _ _ _ _ _ _ _ Hl).
    eexists _, _. split; [reflexivity|].
    cbn [statistics report_of statistics_of stdDev].
    apply stdDev_of_population.
  - intros zs Hl Hsafe Hne.
    rewrite (formatMetrics_run _ _ _ _ _ _ _ _ Hl).
    eexists _, _. split; [reflexivity|].
    cbn [statistics report_of statistics_of stdDev].
    split; [apply stdDev_of_population|]. split.
    + intros Hall Hsum. apply stdDev_identical; assumption.
    + intros (a & b & Ha & Hb & Hab).
      apply (stdDev_positive zs a b); assumption.
Qed.

Lemma stdDev_is_population_deviation_witness :
  (exists r w',
     formatMetrics "node" "v20.11.0" "fibonacci" 0%nat example_memory
       example_cpuUsage
       (example_world (map of_Z [100; 200; 300; 400; 500]))
     = (Return r, w') /\
     stdDev (statistics r) = Math_sqrt (of_Z 20000) /\
     flt pos_zero (stdDev (statistics r)) = true) /\
  (exists r w',
     formatMetrics "node" "v20.11.0" "fibonacci" 0%nat example_memory
       example_cpuUsage (example_world (map of_Z [10]))
     = (Return r, w') /\
     stdDev (statistics r) = pos_zero).
Proof.
  split.
  - destruct (stdDev_is_population_deviation "node"%string
                "v20.11.0"%string "fibonacci"%string 0%nat example_memory
                example_cpuUsage
                (example_world (map of_Z [100; 200; 300; 400; 500])))
      as [_ H].
    assert (Hs : safe_durations [100; 200; 300; 400; 500]).
    { split; [repeat constructor; lia|simpl; lia]. }
    destruct (H [100; 200; 300; 400; 500] eq_refl Hs ltac:(discriminate))
      as (r & w' & Hrun & Hpop & _ & Hpos).
    exists r, w'. split; [exact Hrun|]. split.
    + rewrite Hpop. vm_compute. reflexivity.
    + apply Hpos. exists 100, 200.
      split; [simpl; tauto|]. split; [simpl; tauto|lia].
  - destruct (stdDev_is_population_deviation "node"%string
                "v20.11.0"%string "fibonacci"%string 0%nat example_memory
                example_cpuUsage (example_world (map of_Z [10])))
      as [_ H].
    assert (Hs : safe_durations [10]).
    { split; [repeat constructor; lia|simpl; lia]. }
    destruct (H [10] eq_refl Hs ltac:(discriminate))
      as (r & w' & Hrun & _ & Hzero & _).
    exists r, w'. split; [exact Hrun|].
    apply Hzero.
    + intros a b [<-|[]] [<-|[]]. reflexivity.
    + vm_compute. reflexivity.
Defined.
(* ===================================================================== *)
(** ** The workloads *)
(* ===================================================================== *)

(** *** Comparing integers held in Numbers *)

Lemma compare_int (a b : Z) :
  0 <= a < 2 ^ 53 -> 0 <= b < 2 ^ 53 ->
  SFcompare (of_Z a) (of_Z b) = Some (a ?= b).
Proof.
  intros Ha Hb.
  destruct (Z.eq_dec a 0) as [->|Ha0]; destruct (Z.eq_dec b 0) as [->|Hb0].
  - reflexivity.
  - rewrite of_Z_zero, (of_Z_pos b) by lia. unfold SFcompare, pos_zero.
    f_equal. symmetry. apply Z.compare_lt_iff. lia.
  - rewrite of_Z_zero, (of_Z_pos a) by lia. unfold SFcompare, pos_zero.
    f_equal. symmetry. apply Z.compare_gt_iff. lia.
  - rewrite (of_Z_pos a), (of_Z_pos b) by lia.
    unfold SFcompare, int_exponent. f_equal.
    pose proof (Zdigits2_bounds a ltac:(lia)) as Ba.
    pose proof (Zdigits2_bounds b ltac:(lia)) as Bb.
    pose proof (int_digits_range a ltac:(lia)) as Da.
    pose proof (int_digits_range b ltac:(lia)) as Db.
    destruct (Z.compare_spec (Zdigits2 a - 53) (Zdigits2 b - 53)) as [E|L|G].
    + change (Pos.compare_cont Eq (int_mantissa a) (int_mantissa b))
        with (Pos.compare (int_mantissa a) (int_mantissa b)).
      rewrite Pos2Z.inj_compare, !int_mantissa_pos by lia.
      replace (Zdigits2 b) with (Zdigits2 a) by lia.
      assert (0 < 2 ^ (53 - Zdigits2 a)) by (apply Z.pow_pos_nonneg; lia).
      destruct (Z.compare_spec a b) as [->|L|G].
      * apply Z.compare_refl.
      * apply Z.compare_lt_iff. nia.
      * apply Z.compare_gt_iff. nia.
    + symmetry. apply Z.compare_lt_iff.
      assert (2 ^ Zdigits2 a <= 2 ^ (Zdigits2 b - 1))
        by (apply Z.pow_le_mono_r; lia).
      lia.
    + symmetry. apply Z.compare_gt_iff.
      assert (2 ^ Zdigits2 b <= 2 ^ (Zdigits2 a - 1))
        by (apply Z.pow_le_mono_r; lia).
      lia.
Qed.

Lemma fle_of_Z (a b : Z) :
  0 <= a < 2 ^ 53 -> 0 <= b < 2 ^ 53 -> fle (of_Z a) (of_Z b) = (a <=? b).
Proof.
  intros Ha Hb. unfold fle, SFleb. rewrite compare_int by assumption.
  unfold Z.leb. destruct (a ?= b); reflexivity.
Qed.

Lemma flt_of_Z (a b : Z) :
  0 <= a < 2 ^ 53 -> 0 <= b < 2 ^ 53 -> flt (of_Z a) (of_Z b) = (a <? b).
Proof.
  intros Ha Hb. unfold flt, SFltb. rewrite compare_int by assumption.
  unfold Z.ltb. destruct (a ?= b); reflexivity.
Qed.

Lemma feq_of_Z (a b : Z) :
  0 <= a < 2 ^ 53 -> 0 <= b < 2 ^ 53 -> feq (of_Z a) (of_Z b) = (a =? b).
Proof.
  intros Ha Hb. unfold feq, SFeqb. rewrite compare_int by assumption.
  unfold Z.eqb. destruct (Z.compare_spec a b) as [->|L|G].
  - destruct b; try reflexivity; cbn; rewrite Pos.eqb_refl; reflexivity.
  - destruct a, b; try reflexivity; try lia; cbn;
      symmetry; apply Pos.eqb_neq; lia.
  - destruct a, b; try reflexivity; try lia; cbn;
      symmetry; apply Pos.eqb_neq; lia.
Qed.

(** *** Fibonacci numbers *)

Lemma fib_step (n : nat) : fib (S (S n)) = fib (S n) + fib n.
Proof.
  unfold fib. cbn [fib_pair].
  destruct (fib_pair n) as [a b]. cbn. lia.
Qed.

Lemma fib_pair_spec (n : nat) : fib_pair n = (fib n, fib (S n)).
Proof.
  unfold fib. cbn [fib_pair]. destruct (fib_pair n) as [a b]. reflexivity.
Qed.

Lemma fib_nonneg (n : nat) : 0 <= fib n /\ 0 <= fib (S n).
Proof.
  induction n as [|n [IH1 IH2]].
  - cbn. lia.
  - split; [exact IH2|]. rewrite fib_step. lia.
Qed.

Lemma fib_mono (n m : nat) : (n <= m)%nat -> fib n <= fib m.
Proof.
  induction 1 as [|m Hle IH]; [lia|].
  destruct m as [|m].
  - assert (n = 0%nat) by lia. subst. cbn. lia.
  - rewrite fib_step. pose proof (fib_nonneg m). lia.
Qed.

Lemma fib_78 : fib 78 = 8944394323791464.
Proof. vm_compute. reflexivity. Qed.

Lemma fib_safe (n : nat) : (n <= 78)%nat -> 0 <= fib n < 2 ^ 53.
Proof.
  intros Hn. pose proof (fib_mono n 78 Hn) as H. rewrite fib_78 in H.
  pose proof (fib_nonneg n). change (2 ^ 53) with 9007199254740992. lia.
Qed.

Lemma fibonacci_spec (fuel n : nat) :
  (n <= 78)%nat -> (n < fuel)%nat ->
  fibonacci fuel (of_nat n) = Some (of_Z (fib n)).
Proof.
  revert n. induction fuel as [|fuel IH]; intros n Hn Hf; [lia|].
  cbn [fibonacci]. unfold of_nat.
  rewrite fle_of_Z by (change (2 ^ 53) with 9007199254740992; lia).
  destruct (Z.leb_spec (Z.of_nat n) 1) as [Hle|Hgt].
  - destruct n as [|[|n]]; try lia; reflexivity.
  - destruct n as [|[|n]]; try lia.
    rewrite !fsub_int by (change (2 ^ 53) with 9007199254740992; lia).
    replace (Z.of_nat (S (S n)) - 1) with (Z.of_nat (S n)) by lia.
    replace (Z.of_nat (S (S n)) - 2) with (Z.of_nat n) by lia.
    fold (of_nat (S n)). fold (of_nat n).
    rewrite (IH (S n)) by lia. rewrite (IH n) by lia.
    pose proof (fib_safe (S (S n)) Hn) as H2. rewrite fib_step in H2.
    pose proof (fib_nonneg n) as [H0 H1].
    rewrite fadd_int by lia. rewrite fib_step. reflexivity.
Qed.
Lemma fibonacciIterative_loop_spec (fuel n j : nat) :
  (n <= 78)%nat -> (S j <= n)%nat -> (n - j <= fuel)%nat ->
  fibonacciIterative_loop fuel (of_nat n) (of_nat (S (S j)))
    (of_Z (fib j)) (of_Z (fib (S j)))
  = Some (of_Z (fib n)).
Proof.
  revert j. induction fuel as [|fuel IH]; intros j Hn Hj Hf; [lia|].
  cbn [fibonacciIterative_loop]. unfold of_nat.
  rewrite fle_of_Z by (change (2 ^ 53) with 9007199254740992; lia).
  destruct (Z.leb_spec (Z.of_nat (S (S j))) (Z.of_nat n)) as [Hle|Hgt].
  - pose proof (fib_safe (S (S j)) ltac:(lia)) as H2. rewrite fib_step in H2.
    pose proof (fib_nonneg j) as [H0 H1].
    rewrite !fadd_int by (change (2 ^ 53) with 9007199254740992 in *; lia).
    replace (Z.of_nat (S (S j)) + 1) with (Z.of_nat (S (S (S j)))) by lia.
    replace (fib j + fib (S j)) with (fib (S (S j))) by (rewrite fib_step; lia).
    apply (IH (S j)); lia.
  - assert (n = S j) by lia. subst n. reflexivity.
Qed.

Lemma fibonacciIterative_spec (fuel n : nat) :
  (n <= 78)%nat -> (n <= fuel)%nat ->
  fibonacciIterative fuel (of_nat n) = Some (of_Z (fib n)).
Proof.
  intros Hn Hf. unfold fibonacciIterative, of_nat.
  rewrite fle_of_Z by (change (2 ^ 53) with 9007199254740992; lia).
  destruct (Z.leb_spec (Z.of_nat n) 1) as [Hle|Hgt].
  - destruct n as [|[|n]]; try lia; reflexivity.
  - change (of_Z 2) with (of_nat 2). change (of_Z 0) with (of_Z (fib 0)).
    change (of_Z 1) with (of_Z (fib 1)).
    apply (fibonacciIterative_loop_spec fuel n 0); lia.
Qed.

(** For every integer n from 0 to 78 the recursive [fibonacci] returns
    the n-th Fibonacci number, exactly, as soon as the stack admits a
    depth of n + 1 calls. *)
Theorem fibonacci_returns_fib (fuel n : nat) :
  (n <= 78)%nat -> (n < fuel)%nat ->
  fibonacci fuel (of_nat n) = Some (of_Z (fib n)) /\
  0 <= fib n < 2 ^ 53.
Proof.
  intros Hn Hf. split; [apply fibonacci_spec; assumption|apply fib_safe, Hn].
Qed.

Lemma fibonacci_returns_fib_witness :
  fibonacci 11 (of_nat 10) = Some (of_Z 55).
Proof.
  destruct (fibonacci_returns_fib 11 10 ltac:(lia) ltac:(lia)) as [H _].
  exact H.
Defined.

(** For every integer n from 0 to 78 [fibonacciIterative] returns the
    n-th Fibonacci number, exactly, after at most n tests of the loop
    condition; so it agrees with the recursive [fibonacci] there. *)
Theorem fibonacciIterative_returns_fib (fuel n : nat) :
  (n <= 78)%nat -> (n <= fuel)%nat ->
  fibonacciIterative fuel (of_nat n) = Some (of_Z (fib n)) /\
  fibonacciIterative fuel (of_nat n) = fibonacci (S fuel) (of_nat n).
Proof.
  intros Hn Hf. rewrite fibonacciIterative_spec by assumption.
  rewrite fibonacci_spec by lia. split; reflexivity.
Qed.

Lemma fibonacciIterative_returns_fib_witness :
  fibonacciIterative 40 (of_nat 40) = Some (of_Z 102334155).
Proof.
  destruct (fibonacciIterative_returns_fib 40 40 ltac:(lia) ltac:(lia))
    as [H _].
  exact H.
Defined.

(** On [NaN] and on [+Infinity] the recursive [fibonacci] never returns,
    whatever depth the stack admits: the argument is not [<= 1] and
    subtracting from it leaves it unchanged.  [fibonacciIterative]
    returns 1 on [NaN], its loop condition being false at once. *)
Theorem fibonacci_never_returns (fuel : nat) (n : float) :
  n = NaN \/ n = S754_infinity false ->
  fibonacci fuel n = None /\
  fibonacciIterative (S fuel) NaN = Some (of_Z 1).
Proof.
  intros Hn. split; [|reflexivity].
  induction fuel as [|fuel IH]; [reflexivity|].
  cbn [fibonacci]. destruct Hn as [-> | ->].
  - change (fle NaN (of_Z 1)) with false. cbv iota.
    change (fsub NaN (of_Z 1)) with NaN. rewrite IH. reflexivity.
  - change (fle (S754_infinity false) (of_Z 1)) with false. cbv iota.
    change (fsub (S754_infinity false) (of_Z 1)) with (S754_infinity false).
    rewrite IH. reflexivity.
Qed.

Lemma fibonacci_never_returns_witness :
  fibonacci 1000 NaN = None.
Proof.
  destruct (fibonacci_never_returns 1000 NaN (or_introl eq_refl)) as [H _].
  exact H.
Defined.
(** *** The order of Numbers *)

Ltac fold_pos_compare :=
  repeat match goal with
  | |- context [Pos.compare_cont Eq ?a ?b] =>
      change (Pos.compare_cont Eq a b) with (Pos.compare a b)
  end.

Lemma compare_defined (x y : float) :
  is_nan x = false -> is_nan y = false ->
  exists c, SFcompare x y = Some c.
Proof.
  destruct x as [sx|sx| |sx mx ex]; destruct y as [sy|sy| |sy my ey];
    try discriminate; intros _ _; eexists; reflexivity.
Qed.

Lemma compare_nan (x y : float) :
  is_nan x = true \/ is_nan y = true -> SFcompare x y = None.
Proof.
  destruct x as [sx|sx| |sx mx ex]; destruct y as [sy|sy| |sy my ey];
    intros [H|H]; try discriminate; reflexivity.
Qed.

Lemma compare_antisym (x y : float) :
  SFcompare y x = option_map CompOpp (SFcompare x y).
Proof.
  destruct x as [sx|sx| |sx mx ex]; destruct y as [sy|sy| |sy my ey];
    try destruct sx; try destruct sy; try reflexivity;
    cbn [SFcompare option_map]; f_equal;
    rewrite (Z.compare_antisym ex ey);
    destruct (ex ?= ey); cbn [CompOpp]; try reflexivity;
    fold_pos_compare; rewrite (Pos.compare_antisym mx my);
    destruct (mx ?= my)%positive; reflexivity.
Qed.

Lemma compare_refl (x : float) :
  is_nan x = false -> SFcompare x x = Some Eq.
Proof.
  destruct x as [sx|sx| |sx mx ex]; try discriminate; intros _;
    try destruct sx; try reflexivity;
    cbn [SFcompare]; fold_pos_compare;
    rewrite Z.compare_refl, Pos.compare_refl; reflexivity.
Qed.

Lemma fle_trans (x y z : float) :
  fle x y = true -> fle y z = true -> fle x z = true.
Proof.
  unfold fle, SFleb.
  destruct x as [sx|sx| |sx mx ex]; destruct y as [sy|sy| |sy my ey];
    destruct z as [sz|sz| |sz mz ez];
    try destruct sx; try destruct sy; try destruct sz;
    cbn [SFcompare]; try discriminate; try reflexivity;
    fold_pos_compare;
    destruct (Z.compare_spec ex ey); try discriminate;
    destruct (Z.compare_spec ey ez); try discriminate;
    destruct (Z.compare_spec ex ez); try reflexivity; try lia;
    subst;
    destruct (Pos.compare_spec mx my); try discriminate;
    destruct (Pos.compare_spec my mz); try discriminate;
    destruct (Pos.compare_spec mx mz); try reflexivity; try discriminate;
    lia.
Qed.

Lemma flt_fle (x y : float) : flt x y = true -> fle x y = true.
Proof.
  unfold flt, fle, SFltb, SFleb. destruct (SFcompare x y) as [[]|];
    try discriminate; reflexivity.
Qed.

Lemma feq_fle (x y : float) :
  feq x y = true -> fle x y = true /\ fle y x = true.
Proof.
  unfold feq, fle, SFeqb, SFleb. rewrite (compare_antisym x y).
  destruct (SFcompare x y) as [[]|]; try discriminate. split; reflexivity.
Qed.

Lemma flt_false_fle (x y : float) :
  is_nan x = false -> is_nan y = false -> flt y x = false -> fle x y = true.
Proof.
  intros Hx Hy. unfold flt, fle, SFltb, SFleb. rewrite (compare_antisym x y).
  destruct (compare_defined x y Hx Hy) as [c ->]. destruct c;
    cbn; try discriminate; reflexivity.
Qed.

Lemma flt_not_nan (x y : float) :
  flt x y = true -> is_nan x = false /\ is_nan y = false.
Proof.
  unfold flt, SFltb.
  destruct x as [sx|sx| |sx mx ex]; destruct y as [sy|sy| |sy my ey];
    try discriminate; split; reflexivity.
Qed.

Lemma feq_not_nan (x y : float) :
  feq x y = true -> is_nan x = false /\ is_nan y = false.
Proof.
  unfold feq, SFeqb.
  destruct x as [sx|sx| |sx mx ex]; destruct y as [sy|sy| |sy my ey];
    try discriminate; split; reflexivity.
Qed.

(** Of [x < p], [x === p] and [x > p] at most one holds, and exactly
    one when neither Number is [NaN]. *)
Lemma trichotomy (x p : float) :
  match SFcompare x p with
  | Some Lt => flt x p = true /\ feq x p = false /\ flt p x = false
  | Some Eq => flt x p = false /\ feq x p = true /\ flt p x = false
  | Some Gt => flt x p = false /\ feq x p = false /\ flt p x = true
  | None => flt x p = false /\ feq x p = false /\ flt p x = false
  end.
Proof.
  unfold flt, feq, SFltb, SFeqb. rewrite (compare_antisym x p).
  destruct (SFcompare x p) as [[]|]; cbn; repeat split.
Qed.
(** *** quickSort *)

Lemma sorted_app (l1 l2 : list float) :
  ascending l1 -> ascending l2 ->
  (forall x y, In x l1 -> In y l2 -> fle x y = true) ->
  ascending (l1 ++ l2).
Proof.
  unfold ascending. intros H1 H2 H12.
  induction H1 as [|x l1 Hl1 IH Hx]; cbn [app]; [exact H2|].
  constructor.
  - apply IH. intros a b Ha Hb. apply H12; [right; exact Ha|exact Hb].
  - apply List.Forall_app. split; [exact Hx|].
    apply List.Forall_forall. intros y Hy. apply H12; [left; reflexivity|exact Hy].
Qed.

Lemma filter_length_lt {A : Type} (f : A -> bool) (l : list A) (p : A) :
  In p l -> f p = false -> (length (List.filter f l) < length l)%nat.
Proof.
  induction l as [|x l IH]; intros Hin Hf; [destruct Hin|].
  cbn [List.filter length]. pose proof (List.filter_length_le f l) as Hle.
  destruct Hin as [->|Hin].
  - rewrite Hf. lia.
  - specialize (IH Hin Hf). destruct (f x); cbn [length]; lia.
Qed.

(** An array falls apart into the elements that satisfy one of three
    conditions of which no two hold together, and the others. *)
Lemma partition_three {A : Type} (f g h : A -> bool) (l : list A) :
  (forall x, In x l ->
     (f x && g x = false) /\ (f x && h x = false) /\ (g x && h x = false)) ->
  Permutation l
    (List.filter f l ++ List.filter g l ++ List.filter h l ++
     List.filter (fun x => negb (f x || g x || h x)) l).
Proof.
  induction l as [|x l IH]; intros Hex; [reflexivity|].
  assert (IH' := IH (fun y Hy => Hex y (or_intror Hy))).
  destruct (Hex x (or_introl eq_refl)) as (Hfg & Hfh & Hgh).
  cbn [List.filter].
  destruct (f x) eqn:Ef; destruct (g x) eqn:Eg; destruct (h x) eqn:Eh;
    try discriminate; cbn [negb orb app].
  - constructor. exact IH'.
  - rewrite <- Permutation_middle. constructor. exact IH'.
  - rewrite app_assoc, <- Permutation_middle, <- app_assoc.
    constructor. exact IH'.
  - rewrite !app_assoc, <- Permutation_middle, <- !app_assoc.
    constructor. exact IH'.
Qed.

Lemma pivot_read (arr : list float) :
  (2 <= length arr)%nat -> Z.of_nat (length arr) < 2 ^ 32 ->
  exists p,
    array_get arr (Math_floor (fdiv (of_nat (length arr)) (of_Z 2))) = JNum p
    /\ In p arr.
Proof.
  intros H2 Hlen. unfold array_get, of_nat.
  rewrite index_half by lia.
  assert (Hidx : (Z.to_nat (Z.of_nat (length arr) / 2) < length arr)%nat).
  { change 2 with (Z.of_nat 2). rewrite <- Nat2Z.inj_div, Nat2Z.id.
    apply Nat.div_lt; lia. }
  destruct (arr !! Z.to_nat (Z.of_nat (length arr) / 2)) as [p|] eqn:E.
  - exists p. split; [reflexivity|].
    apply list_elem_of_In. eapply list_elem_of_lookup_2. exact E.
  - apply lookup_ge_None in E. lia.
Qed.

Lemma filter_In_incl {A : Type} (f : A -> bool) (l : list A) (x : A) :
  In x (List.filter f l) -> In x l /\ f x = true.
Proof. apply List.filter_In. Qed.

Lemma flt_irrefl (x : float) : flt x x = false.
Proof.
  unfold flt, SFltb. pose proof (compare_antisym x x) as H.
  destruct (SFcompare x x) as [[]|]; try reflexivity. discriminate.
Qed.

Lemma filter_nil {A : Type} (f : A -> bool) (l : list A) :
  (forall x, In x l -> f x = false) -> List.filter f l = [].
Proof.
  induction l as [|x l IH]; intros H; [reflexivity|].
  cbn [List.filter]. rewrite (H x (or_introl eq_refl)).
  apply IH. intros y Hy. apply H. right. exact Hy.
Qed.

Lemma sorted_pairwise (l : list float) :
  (forall x y, In x l -> In y l -> fle x y = true) -> ascending l.
Proof.
  unfold ascending. induction l as [|x l IH]; intros H; constructor.
  - apply IH. intros a b Ha Hb. apply H; right; assumption.
  - apply List.Forall_forall. intros y Hy.
    apply H; [left; reflexivity|right; exact Hy].
Qed.

Lemma quickSort_general (fuel : nat) :
  forall arr : list float,
    Z.of_nat (length arr) < 2 ^ 32 -> (length arr < fuel)%nat ->
    exists r rest,
      quickSort fuel arr = Some r /\
      Permutation arr (r ++ rest) /\
      ((2 <= length arr)%nat -> Forall (fun x => is_nan x = false) r) /\
      (Forall (fun x => is_nan x = false) arr -> rest = [] /\ ascending r).
Proof.
  induction fuel as [|fuel IH]; intros arr Hlen Hf; [lia|].
  cbn [quickSort].
  destruct (length arr <=? 1)%nat eqn:E1.
  - apply Nat.leb_le in E1. exists arr, []. split; [reflexivity|].
    split; [rewrite app_nil_r; reflexivity|]. split; [lia|].
    intros _. split; [reflexivity|].
    destruct arr as [|x [|y arr]]; cbn [length] in E1; try lia;
      unfold ascending; repeat constructor.
  - apply Nat.leb_gt in E1.
    destruct (pivot_read arr ltac:(lia) Hlen) as (p & -> & Hp).
    unfold js_lt, js_gt. cbn [js_strict_eq to_number].
    set (left := List.filter (fun x => flt x p) arr).
    set (middle := List.filter (fun x => feq x p) arr).
    set (right := List.filter (fun x => flt p x) arr).
    pose proof (flt_irrefl p) as Hpl.
    assert (Hll : (length left < length arr)%nat)
      by (apply (filter_length_lt _ _ p); assumption).
    assert (Hlr : (length right < length arr)%nat)
      by (apply (filter_length_lt _ _ p); assumption).
    destruct (IH left ltac:(lia) ltac:(lia)) as (rl & restl & -> & Pl & _ & Sl).
    destruct (IH right ltac:(lia) ltac:(lia)) as (rr & restr & -> & Pr & _ & Sr).
    set (others :=
      List.filter (fun x => negb (flt x p || feq x p || flt p x)) arr).
    exists (rl ++ middle ++ rr), (restl ++ restr ++ others).
    split; [reflexivity|].
    assert (Part : Permutation arr (left ++ middle ++ right ++ others)).
    { apply partition_three. intros x _.
      pose proof (trichotomy x p) as T.
      destruct (SFcompare x p) as [[]|]; destruct T as (-> & -> & ->);
        repeat split. }
    assert (Hleft : forall x, In x left -> flt x p = true /\ In x arr).
    { intros x Hx. apply List.filter_In in Hx. tauto. }
    assert (Hmid : forall x, In x middle -> feq x p = true /\ In x arr).
    { intros x Hx. apply List.filter_In in Hx. tauto. }
    assert (Hright : forall x, In x right -> flt p x = true /\ In x arr).
    { intros x Hx. apply List.filter_In in Hx. tauto. }
    assert (Hrl : forall x, In x rl -> In x left).
    { intros x Hx. apply (Permutation_in x (Permutation_sym Pl)).
      apply in_or_app. left. exact Hx. }
    assert (Hrr : forall x, In x rr -> In x right).
    { intros x Hx. apply (Permutation_in x (Permutation_sym Pr)).
      apply in_or_app. left. exact Hx. }
    split; [|split].
    + rewrite Part, Pl, Pr.
      rewrite <- !app_assoc.
      apply Permutation_app_head.
      rewrite !(app_assoc middle rr).
      apply Permutation_app_swap_app.
    + intros _. apply List.Forall_forall. intros x Hx.
      apply in_app_or in Hx. destruct Hx as [Hx|Hx].
      * apply Hrl, Hleft in Hx. apply (flt_not_nan x p), Hx.
      * apply in_app_or in Hx. destruct Hx as [Hx|Hx].
        -- apply Hmid in Hx. apply (feq_not_nan x p), Hx.
        -- apply Hrr, Hright in Hx. apply (flt_not_nan p x), Hx.
    + intros Hnan. rewrite List.Forall_forall in Hnan.
      assert (Nl : Forall (fun x => is_nan x = false) left).
      { apply List.Forall_forall. intros x Hx. apply Hnan, Hleft, Hx. }
      assert (Nr : Forall (fun x => is_nan x = false) right).
      { apply List.Forall_forall. intros x Hx. apply Hnan, Hright, Hx. }
      destruct (Sl Nl) as [-> Al]. destruct (Sr Nr) as [-> Ar].
      assert (Np : is_nan p = false) by (apply Hnan, Hp).
      assert (Ho : others = []).
      { unfold others. apply filter_nil. intros x Hx.
        pose proof (trichotomy x p) as T.
        destruct (compare_defined x p (Hnan x Hx) Np) as [c Hc].
        rewrite Hc in T. destruct c; destruct T as (-> & -> & ->); reflexivity. }
      split; [rewrite Ho; reflexivity|].
      rewrite app_nil_r in Pl, Pr.
      assert (Hrl' : forall x, In x rl -> flt x p = true)
        by (intros x Hx; apply Hleft, Hrl, Hx).
      assert (Hrr' : forall x, In x rr -> flt p x = true)
        by (intros x Hx; apply Hright, Hrr, Hx).
      apply sorted_app; [exact Al| |].
      * apply sorted_app; [|exact Ar|].
        -- apply sorted_pairwise. intros x y Hx Hy.
           apply Hmid in Hx, Hy. destruct Hx as [Hx _], Hy as [Hy _].
           apply feq_fle in Hx, Hy.
           apply (fle_trans x p y); tauto.
        -- intros x y Hx Hy. apply Hmid in Hx. destruct Hx as [Hx _].
           apply feq_fle in Hx. apply (fle_trans x p y); [tauto|].
           apply flt_fle, Hrr', Hy.
      * intros x y Hx Hy. apply Hrl' in Hx. apply flt_fle in Hx.
        apply in_app_or in Hy. destruct Hy as [Hy|Hy].
        -- apply Hmid in Hy. destruct Hy as [Hy _]. apply feq_fle in Hy.
           apply (fle_trans x p y); tauto.
        -- apply (fle_trans x p y); [exact Hx|apply flt_fle, Hrr', Hy].
Qed.
(** What [quickSort] returns on an array without [NaN]: the same
    elements in ascending order, within a call depth of the length of
    the array. *)
Theorem quickSort_sorts (fuel : nat) (arr : list float) :
  Forall (fun x => is_nan x = false) arr ->
  Z.of_nat (length arr) < 2 ^ 32 -> (length arr < fuel)%nat ->
  exists r,
    quickSort fuel arr = Some r /\ Permutation arr r /\ ascending r.
Proof.
  intros Hnan Hlen Hf.
  destruct (quickSort_general fuel arr Hlen Hf) as (r & rest & Hq & P & _ & S).
  destruct (S Hnan) as [-> A]. rewrite app_nil_r in P.
  exists r. repeat split; assumption.
Qed.

Lemma quickSort_sorts_witness :
  exists r,
    quickSort 6 [of_Z 3; S754_infinity false; of_Z 1; S754_zero true; of_Z 2]
    = Some r /\
    Permutation
      [of_Z 3; S754_infinity false; of_Z 1; S754_zero true; of_Z 2] r /\
    ascending r.
Proof.
  apply (quickSort_sorts 6
           [of_Z 3; S754_infinity false; of_Z 1; S754_zero true; of_Z 2]).
  - repeat constructor.
  - vm_compute. reflexivity.
  - simpl. lia.
Defined.

(** [quickSort] loses the elements that compare with nothing: the
    result of a call on two elements or more holds no [NaN], so an array
    with a [NaN] comes back shorter.  Every element returned is an
    element of the array. *)
Theorem quickSort_drops_NaN (fuel : nat) (arr : list float) :
  In NaN arr -> (2 <= length arr)%nat ->
  Z.of_nat (length arr) < 2 ^ 32 -> (length arr < fuel)%nat ->
  exists r,
    quickSort fuel arr = Some r /\
    Forall (fun x => is_nan x = false) r /\
    (forall x, In x r -> In x arr) /\
    (length r < length arr)%nat.
Proof.
  intros Hin H2 Hlen Hf.
  destruct (quickSort_general fuel arr Hlen Hf) as (r & rest & Hq & P & N & _).
  specialize (N H2). exists r. split; [exact Hq|]. split; [exact N|]. split.
  - intros x Hx. apply (Permutation_in x (Permutation_sym P)).
    apply in_or_app. left. exact Hx.
  - pose proof (Permutation_in NaN P Hin) as Hin'.
    apply in_app_or in Hin'. destruct Hin' as [Hr|Hr].
    + rewrite List.Forall_forall in N. specialize (N NaN Hr). discriminate.
    + apply Permutation_length in P. rewrite length_app in P.
      destruct rest; [destruct Hr|]. cbn [length] in P. lia.
Qed.

Lemma quickSort_drops_NaN_witness :
  exists r,
    quickSort 4 [of_Z 2; NaN; of_Z 1] = Some r /\
    Forall (fun x => is_nan x = false) r /\
    (forall x, In x r -> In x [of_Z 2; NaN; of_Z 1]) /\
    (length r < 3)%nat.
Proof.
  apply (quickSort_drops_NaN 4 [of_Z 2; NaN; of_Z 1]).
  - right. left. reflexivity.
  - simpl. lia.
  - vm_compute. reflexivity.
  - simpl. lia.
Defined.

(** *** insertionSort *)

Lemma elem_middle (A B : list jsval) (d : jsval) :
  elem (A ++ d :: B) (Z.of_nat (length A)) = d.
Proof.
  unfold elem.
  replace (Z.of_nat (length A) <? 0) with false by (symmetry; apply Z.ltb_ge; lia).
  rewrite Nat2Z.id, list_lookup_middle by reflexivity. reflexivity.
Qed.

Lemma store_middle (A B : list jsval) (d v : jsval) :
  store (A ++ d :: B) (Z.of_nat (length A)) v = A ++ v :: B.
Proof.
  unfold store.
  replace (Z.of_nat (length A) <? 0) with false by (symmetry; apply Z.ltb_ge; lia).
  rewrite Nat2Z.id.
  replace (length A <? length (A ++ d :: B))%nat with true
    by (symmetry; apply Nat.ltb_lt; rewrite length_app; simpl; lia).
  rewrite insert_app_r_alt by lia. rewrite Nat.sub_diag. reflexivity.
Qed.

Lemma insertionSort_shift_spec (current : jsval) (A : list jsval) :
  forall (fuel : nat) (d : jsval) (B : list jsval),
    (length A < fuel)%nat ->
    exists A1 B0 d',
      A = A1 ++ B0 /\
      Forall (val_gt current) B0 /\
      (forall x, last A1 = Some x -> js_gt x current = false) /\
      insertionSort_shift fuel (A ++ d :: B) current
        (Z.of_nat (length A) - 1)
      = Some (A1 ++ d' :: B0 ++ B, Z.of_nat (length A1) - 1).
Proof.
  induction A as [|x A IH] using rev_ind; intros fuel d B Hf.
  - exists [], [], d. destruct fuel as [|fuel]; [simpl in Hf; lia|].
    repeat split; [constructor|discriminate].
  - rewrite length_app in Hf. cbn [length] in Hf.
    destruct fuel as [|fuel]; [lia|].
    cbn [insertionSort_shift].
    rewrite length_app. cbn [length].
    replace (Z.of_nat (length A + 1) - 1) with (Z.of_nat (length A)) by lia.
    replace (0 <=? Z.of_nat (length A)) with true
      by (symmetry; apply Z.leb_le; lia).
    rewrite <- app_assoc. cbn [app]. rewrite elem_middle. cbn [andb].
    destruct (js_gt x current) eqn:G.
    + replace (Z.of_nat (length A) + 1) with (Z.of_nat (length (A ++ [x])))
        by (rewrite length_app; simpl; lia).
      replace (A ++ x :: d :: B) with ((A ++ [x]) ++ d :: B)
        by (rewrite <- app_assoc; reflexivity).
      rewrite store_middle. rewrite <- app_assoc. cbn [app].
      destruct (IH fuel x (x :: B) ltac:(lia))
        as (A1 & B0 & d' & HA & HB & HL & Hs).
      exists A1, (B0 ++ [x]), d'. split; [rewrite HA, app_assoc; reflexivity|].
      split; [apply List.Forall_app; split; [exact HB|repeat constructor; exact G]|].
      split; [exact HL|].
      rewrite Hs. rewrite <- !app_assoc. reflexivity.
    + exists (A ++ [x]), [], d. rewrite app_nil_r.
      split; [reflexivity|]. split; [constructor|]. split.
      * intros y Hy. rewrite last_snoc in Hy. injection Hy as <-. exact G.
      * rewrite length_app. cbn [length app].
        replace (Z.of_nat (length A + 1) - 1) with (Z.of_nat (length A)) by lia.
        rewrite <- app_assoc. reflexivity.
Qed.
Lemma StronglySorted_app_iff {A : Type} (R : A -> A -> Prop) (l1 l2 : list A) :
  StronglySorted R (l1 ++ l2) <->
  StronglySorted R l1 /\ StronglySorted R l2 /\
  (forall x y, In x l1 -> In y l2 -> R x y).
Proof.
  induction l1 as [|a l1 IH]; cbn [app].
  - split.
    + intros H. split; [constructor|]. split; [exact H|]. intros x y [].
    + tauto.
  - split.
    + intros H. apply StronglySorted_inv in H. destruct H as [H Ha].
      apply IH in H. destruct H as (H1 & H2 & H12).
      apply List.Forall_app in Ha. destruct Ha as [Ha1 Ha2].
      split; [constructor; assumption|]. split; [exact H2|].
      intros x y [<-|Hx] Hy.
      * rewrite List.Forall_forall in Ha2. apply Ha2, Hy.
      * apply H12; assumption.
    + intros (H1 & H2 & H12). apply StronglySorted_inv in H1.
      destruct H1 as [H1 Ha]. constructor.
      * apply IH. split; [exact H1|]. split; [exact H2|].
        intros x y Hx Hy. apply H12; [right; exact Hx|exact Hy].
      * apply List.Forall_app. split; [exact Ha|].
        apply List.Forall_forall. intros y Hy.
        apply H12; [left; reflexivity|exact Hy].
Qed.

Lemma last_In {A : Type} (l : list A) (x : A) : last l = Some x -> In x l.
Proof.
  induction l as [|a l IH] using rev_ind; [discriminate|].
  rewrite last_snoc. intros [= <-]. apply in_or_app. right. left. reflexivity.
Qed.

Lemma sorted_le_last (l : list jsval) (x y : jsval) :
  StronglySorted val_le l -> Forall val_number l ->
  last l = Some x -> In y l -> val_le y x.
Proof.
  induction l as [|a l IH] using rev_ind; [discriminate|].
  rewrite last_snoc. intros Hs Hn [= <-] Hy.
  apply StronglySorted_app_iff in Hs. destruct Hs as (_ & _ & H12).
  apply in_app_or in Hy. destruct Hy as [Hy|[<-|[]]].
  - apply H12; [exact Hy|left; reflexivity].
  - rewrite List.Forall_forall in Hn.
    unfold val_le, fle, SFleb. rewrite compare_refl; [reflexivity|].
    apply Hn. apply in_or_app. right. left. reflexivity.
Qed.

(** Placing [current] behind the elements that are not greater keeps
    an ascending array ascending. *)
Lemma insert_keeps_sorted (A1 B0 : list jsval) (c : jsval) :
  StronglySorted val_le (A1 ++ B0) -> Forall val_number (A1 ++ B0) ->
  val_number c -> Forall (val_gt c) B0 ->
  (forall x, last A1 = Some x -> js_gt x c = false) ->
  StronglySorted val_le (A1 ++ c :: B0).
Proof.
  intros Hs Hn Hc HB HL.
  apply StronglySorted_app_iff in Hs. destruct Hs as (S1 & S2 & S12).
  apply List.Forall_app in Hn. destruct Hn as [N1 N2].
  rewrite List.Forall_forall in HB.
  assert (Hcb : forall b, In b B0 -> val_le c b).
  { intros b Hb. apply flt_fle. apply (HB b Hb). }
  assert (Hac : forall a, In a A1 -> val_le a c).
  { intros a Ha. destruct (last A1) as [x|] eqn:EL.
    - pose proof (sorted_le_last A1 x a S1 N1 EL Ha) as Hax.
      apply (fle_trans _ (to_number x)); [exact Hax|].
      apply flt_false_fle; [|exact Hc|apply (HL x eq_refl)].
      rewrite List.Forall_forall in N1. apply N1, last_In, EL.
    - destruct A1 as [|a' A1] using rev_ind; [destruct Ha|].
      rewrite last_snoc in EL. discriminate. }
  apply StronglySorted_app_iff. split; [exact S1|]. split.
  - constructor; [exact S2|]. apply List.Forall_forall. exact Hcb.
  - intros x y Hx [<-|Hy]; [apply Hac, Hx|apply S12; assumption].
Qed.

Lemma insertionSort_loop_spec (rest : list jsval) :
  forall (P : list jsval) (fuel : nat),
    (length P + 2 * length rest < fuel)%nat ->
    exists r,
      insertionSort_loop fuel (P ++ rest) (Z.of_nat (length P)) = Some r /\
      Permutation (P ++ rest) r /\
      (StronglySorted val_le P -> Forall val_number (P ++ rest) ->
       StronglySorted val_le r).
Proof.
  induction rest as [|c rest IH]; intros P fuel Hf.
  - destruct fuel as [|fuel]; [lia|]. cbn [insertionSort_loop].
    rewrite app_nil_r.
    replace (Z.of_nat (length P) <? Z.of_nat (length P)) with false
      by (symmetry; apply Z.ltb_ge; lia).
    exists P. split; [reflexivity|]. split; [reflexivity|]. tauto.
  - cbn [length] in Hf. destruct fuel as [|fuel]; [lia|].
    cbn [insertionSort_loop].
    replace (Z.of_nat (length P) <? Z.of_nat (length (P ++ c :: rest)))
      with true
      by (symmetry; apply Z.ltb_lt; rewrite length_app; simpl; lia).
    rewrite elem_middle.
    destruct (insertionSort_shift_spec c P (S fuel) c rest ltac:(lia))
      as (A1 & B0 & d' & HP & HB & HL & Hs).
    rewrite Hs.
    replace (Z.of_nat (length A1) - 1 + 1) with (Z.of_nat (length A1)) by lia.
    rewrite store_middle.
    assert (HlenP : length P = (length A1 + length B0)%nat)
      by (rewrite HP, length_app; reflexivity).
    replace (Z.of_nat (length P) + 1)
      with (Z.of_nat (length (A1 ++ c :: B0)))
      by (rewrite length_app; cbn [length]; lia).
    replace (A1 ++ c :: B0 ++ rest) with ((A1 ++ c :: B0) ++ rest)
      by (rewrite <- app_assoc; reflexivity).
    destruct (IH (A1 ++ c :: B0) fuel) as (r & Hr & Pr & Sr).
    { rewrite length_app. cbn [length]. lia. }
    exists r. split; [exact Hr|]. split.
    + rewrite <- Pr, HP, <- !app_assoc. cbn [app].
      apply Permutation_app_head.
      rewrite (Permutation_middle B0 rest c). reflexivity.
    + intros SP NP. apply Sr.
      * rewrite HP in SP, NP.
        apply List.Forall_app in NP. destruct NP as [NP Nrest].
        apply insert_keeps_sorted; try assumption.
        apply Forall_inv in Nrest. exact Nrest.
      * rewrite HP in NP. rewrite <- !app_assoc in *. cbn [app].
        apply List.Forall_app in NP. destruct NP as [NA NP].
        apply List.Forall_app in NP. destruct NP as [NB NP].
        apply List.Forall_app. split; [exact NA|].
        apply Forall_inv in NP as Nc. apply Forall_inv_tail in NP.
        constructor; [exact Nc|]. apply List.Forall_app. split; assumption.
Qed.
Lemma sorted_map_JNum (r : list float) :
  StronglySorted val_le (map JNum r) -> ascending r.
Proof.
  unfold ascending. induction r as [|x r IH]; intros H; [constructor|].
  cbn [map] in H. apply StronglySorted_inv in H. destruct H as [H Hx].
  constructor; [apply IH, H|].
  rewrite List.Forall_map in Hx. exact Hx.
Qed.

Lemma insertionSort_general (fuel : nat) (arr : list float) :
  (2 * length arr < fuel)%nat ->
  exists r,
    insertionSort fuel arr = Some (map JNum r) /\
    Permutation arr r /\
    (Forall (fun x => is_nan x = false) arr -> ascending r).
Proof.
  intros Hf. unfold insertionSort. destruct arr as [|x xs].
  - exists []. destruct fuel as [|fuel]; [simpl in Hf; lia|].
    split; [reflexivity|]. split; [reflexivity|]. intros _. constructor.
  - cbn [length] in Hf.
    destruct (insertionSort_loop_spec (map JNum xs) [JNum x] fuel)
      as (r' & Hr & Pr & Sr).
    { rewrite length_map. cbn [length]. lia. }
    cbn [length app] in Hr. cbn [map].
    change (Z.of_nat 1) with 1 in Hr. rewrite Hr.
    change ([JNum x] ++ map JNum xs) with (map JNum (x :: xs)) in Pr, Sr.
    destruct (Permutation_map_inv JNum (x :: xs) (Permutation_sym Pr))
      as (r & -> & P).
    exists r. split; [reflexivity|]. split; [exact P|].
    intros Hn. apply sorted_map_JNum. apply Sr.
    + repeat constructor.
    + rewrite List.Forall_map. exact Hn.
Qed.

(** [insertionSort] returns, for every array of Numbers, an array of
    the same elements: none is lost or repeated, [NaN] included.  Each
    loop tests its condition at most twice the length of the array plus
    one times. *)
Theorem insertionSort_permutes (fuel : nat) (arr : list float) :
  (2 * length arr < fuel)%nat ->
  exists r,
    insertionSort fuel arr = Some (map JNum r) /\ Permutation arr r.
Proof.
  intros Hf. destruct (insertionSort_general fuel arr Hf) as (r & H & P & _).
  exists r. split; assumption.
Qed.

Lemma insertionSort_permutes_witness :
  exists r,
    insertionSort 7 [of_Z 2; NaN; of_Z 1] = Some (map JNum r) /\
    Permutation [of_Z 2; NaN; of_Z 1] r.
Proof.
  apply (insertionSort_permutes 7 [of_Z 2; NaN; of_Z 1]). simpl. lia.
Defined.

(** On an array without [NaN], [insertionSort] returns the elements in
    ascending order. *)
Theorem insertionSort_sorts (fuel : nat) (arr : list float) :
  Forall (fun x => is_nan x = false) arr -> (2 * length arr < fuel)%nat ->
  exists r,
    insertionSort fuel arr = Some (map JNum r) /\
    Permutation arr r /\ ascending r.
Proof.
  intros Hn Hf. destruct (insertionSort_general fuel arr Hf) as (r & H & P & S).
  exists r. repeat split; try assumption. apply S, Hn.
Qed.

Lemma insertionSort_sorts_witness :
  exists r,
    insertionSort 11
      [of_Z 3; S754_infinity false; of_Z 1; S754_zero true; of_Z 2]
    = Some (map JNum r) /\
    Permutation
      [of_Z 3; S754_infinity false; of_Z 1; S754_zero true; of_Z 2] r /\
    ascending r.
Proof.
  apply (insertionSort_sorts 11
           [of_Z 3; S754_infinity false; of_Z 1; S754_zero true; of_Z 2]).
  - repeat constructor.
  - simpl. lia.
Defined.

(** *** The three sorts on integers *)

Lemma sorted_unique (l1 : list Z) :
  forall l2, StronglySorted Z.le l1 -> StronglySorted Z.le l2 ->
    Permutation l1 l2 -> l1 = l2.
Proof.
  induction l1 as [|x l1 IH]; intros l2 S1 S2 P.
  - apply Permutation_nil in P. symmetry. exact P.
  - destruct l2 as [|y l2].
    { apply Permutation_sym, Permutation_nil in P. discriminate. }
    apply StronglySorted_inv in S1. destruct S1 as [S1 Hx].
    apply StronglySorted_inv in S2. destruct S2 as [S2 Hy].
    rewrite List.Forall_forall in Hx, Hy.
    assert (Hxy : x = y).
    { assert (Hy1 : In y (x :: l1))
        by (apply (Permutation_in y (Permutation_sym P)); left; reflexivity).
      assert (Hx2 : In x (y :: l2))
        by (apply (Permutation_in x P); left; reflexivity).
      destruct Hy1 as [E|Hy1]; [exact E|].
      destruct Hx2 as [E|Hx2]; [symmetry; exact E|].
      specialize (Hx y Hy1). specialize (Hy x Hx2). lia. }
    subst y. f_equal. apply IH; [exact S1|exact S2|].
    apply Permutation_cons_inv in P. exact P.
Qed.

Lemma ascending_int (zs : list Z) :
  Forall (fun z => 0 <= z < 2 ^ 53) zs ->
  ascending (map of_Z zs) -> StronglySorted Z.le zs.
Proof.
  unfold ascending. induction 1 as [|z zs Hz Hzs IH]; intros H; [constructor|].
  cbn [map] in H. apply StronglySorted_inv in H. destruct H as [H Hall].
  constructor; [apply IH, H|].
  rewrite List.Forall_map in Hall.
  rewrite List.Forall_forall in Hall, Hzs. apply List.Forall_forall.
  intros y Hy. specialize (Hall y Hy). cbv beta in Hall.
  rewrite fle_of_Z in Hall by (first [exact Hz|apply Hzs; exact Hy]).
  apply Z.leb_le. exact Hall.
Qed.

Lemma ascending_int_unique (zs : list Z) (r : list float) :
  Forall (fun z => 0 <= z < 2 ^ 53) zs ->
  Permutation (map of_Z zs) r -> ascending r ->
  r = js_sort compare_numbers (map of_Z zs).
Proof.
  intros Hs P A. rewrite js_sort_int by exact Hs.
  destruct (Permutation_map_inv of_Z zs (Permutation_sym P)) as (zs' & -> & P').
  f_equal. apply sorted_unique.
  - apply ascending_int; [|exact A].
    apply (Permutation_Forall P'). exact Hs.
  - apply sort_int_sorted.
  - rewrite <- P'. apply sort_int_perm.
Qed.

(** On an array of non-negative integers below 2^53, [quickSort],
    [insertionSort] and the built-in [sort] with the comparator
    [(a, b) => a - b] return the same sequence. *)
Theorem sorts_agree (zs : list Z) (fuel : nat) :
  Forall (fun z => 0 <= z < 2 ^ 53) zs ->
  Z.of_nat (length zs) < 2 ^ 32 -> (2 * length zs < fuel)%nat ->
  quickSort fuel (map of_Z zs)
  = Some (js_sort compare_numbers (map of_Z zs)) /\
  insertionSort fuel (map of_Z zs)
  = Some (map JNum (js_sort compare_numbers (map of_Z zs))).
Proof.
  intros Hs Hlen Hf.
  assert (Hn : Forall (fun x => is_nan x = false) (map of_Z zs)).
  { rewrite List.Forall_map. revert Hs. apply List.Forall_impl.
    intros z Hz. destruct (Z.eq_dec z 0) as [->|H0]; [reflexivity|].
    rewrite of_Z_pos by lia. reflexivity. }
  split.
  - destruct (quickSort_general fuel (map of_Z zs))
      as (r & rest & Hq & P & _ & S).
    { rewrite length_map. exact Hlen. }
    { rewrite length_map. lia. }
    destruct (S Hn) as [-> A]. rewrite app_nil_r in P.
    rewrite Hq. f_equal. apply ascending_int_unique; assumption.
  - destruct (insertionSort_general fuel (map of_Z zs))
      as (r & Hi & P & S).
    { rewrite length_map. lia. }
    rewrite Hi. do 2 f_equal. apply ascending_int_unique; auto.
Qed.

Lemma sorts_agree_witness :
  quickSort 9 (map of_Z [30; 10; 20; 10])
  = Some (js_sort compare_numbers (map of_Z [30; 10; 20; 10])) /\
  insertionSort 9 (map of_Z [30; 10; 20; 10])
  = Some (map JNum (js_sort compare_numbers (map of_Z [30; 10; 20; 10]))).
Proof.
  apply (sorts_agree [30; 10; 20; 10] 9).
  - repeat constructor; lia.
  - vm_compute. reflexivity.
  - simpl. lia.
Defined.
(** *** Matrix multiplication *)

Lemma for_each_states {St : Type} (body : nat -> St -> outcome St)
    (st : nat -> St) (n : nat) :
  forall start,
    (forall t, (start <= t < start + n)%nat -> body t (st t) = Value (st (S t))) ->
    for_each (seq start n) body (st start) = Value (st (start + n)%nat).
Proof.
  induction n as [|n IH]; intros start H.
  - cbn. rewrite Nat.add_0_r. reflexivity.
  - cbn [seq for_each]. rewrite H by lia. cbn [outcome_bind].
    rewrite IH by (intros t Ht; apply H; lia).
    f_equal. f_equal. lia.
Qed.

Lemma grid_ext (rows cols : nat) (f g : nat -> nat -> float) :
  (forall i j, (i < rows)%nat -> (j < cols)%nat -> f i j = g i j) ->
  grid rows cols f = grid rows cols g.
Proof.
  intros H. unfold grid. apply map_ext_in. intros i Hi.
  apply in_seq in Hi. apply map_ext_in. intros j Hj. apply in_seq in Hj.
  f_equal. apply H; lia.
Qed.

Lemma zero_matrix_grid (rows cols : nat) :
  zero_matrix rows cols = grid rows cols (fun _ _ => pos_zero).
Proof.
  unfold zero_matrix, grid.
  assert (R : forall {A : Type} (x : A) n s,
            replicate n x = map (fun _ => x) (seq s n)).
  { intros A x n. induction n as [|n IH]; intros s; [reflexivity|].
    cbn [replicate seq map]. f_equal. apply IH. }
  rewrite (R _ _ rows 0%nat). apply map_ext. intros _. apply R.
Qed.

Lemma lookup_map_seq {A : Type} (f : nat -> A) (n i : nat) :
  (i < n)%nat -> map f (seq 0 n) !! i = Some (f i).
Proof.
  intros Hi. change (map f (seq 0 n)) with (f <$> seq 0 n).
  rewrite list_lookup_fmap, lookup_seq_lt by exact Hi. reflexivity.
Qed.

Lemma insert_map_seq {A : Type} (f : nat -> A) (n i : nat) (v : A) :
  <[i := v]> (map f (seq 0 n)) =
  map (fun i' => if (i' =? i)%nat then v else f i') (seq 0 n).
Proof.
  apply list_eq. intros k.
  destruct (Nat.lt_ge_cases k n) as [Hk|Hk].
  - rewrite lookup_map_seq by exact Hk.
    destruct (Nat.eqb_spec k i) as [->|Hne].
    + apply list_lookup_insert_eq. rewrite length_map, length_seq. exact Hk.
    + rewrite list_lookup_insert_ne by congruence.
      apply lookup_map_seq. exact Hk.
  - rewrite !(proj2 (lookup_ge_None _ _));
      [reflexivity|rewrite length_map, length_seq; exact Hk|].
    rewrite length_insert, length_map, length_seq. exact Hk.
Qed.

Lemma cell_entry (m : matrix) (i k : nat) :
  (i < length m)%nat -> cell m i k = Value (entry m i k).
Proof.
  intros Hi. unfold cell, entry.
  destruct (m !! i) eqn:E; [reflexivity|].
  apply lookup_ge_None in E. lia.
Qed.

(** One step of either loop nest on a matrix of Numbers. *)
Lemma multiply_add_grid (a b : matrix) (rows cols : nat)
    (f : nat -> nat -> float) (i j k : nat) :
  (i < length a)%nat -> (k < length b)%nat ->
  (i < rows)%nat -> (j < cols)%nat ->
  multiply_add a b i j k (grid rows cols f) =
  Value (grid rows cols
           (fun i' j' =>
              if (i' =? i)%nat && (j' =? j)%nat
              then fadd (f i j) (term a b i j k)
              else f i' j')).
Proof.
  intros Hi Hk Hr Hc. unfold multiply_add.
  rewrite (cell_entry a) by exact Hi. rewrite (cell_entry b) by exact Hk.
  cbn [outcome_bind]. unfold add_to, grid.
  rewrite lookup_map_seq by exact Hr.
  unfold elem, store.
  replace (Z.of_nat j <? 0) with false by (symmetry; apply Z.ltb_ge; lia).
  rewrite Nat2Z.id, length_map, length_seq.
  replace (j <? cols)%nat with true by (symmetry; apply Nat.ltb_lt; exact Hc).
  rewrite lookup_map_seq by exact Hc. cbn [default to_number].
  f_equal. rewrite !insert_map_seq.
  apply map_ext_in. intros i' Hi'.
  destruct (Nat.eqb_spec i' i) as [->|Hne]; cbn [andb].
  - apply map_ext. intros j'. destruct (j' =? j)%nat; reflexivity.
  - reflexivity.
Qed.

Lemma partial_dot_S (a b : matrix) (i j n : nat) :
  partial_dot a b i j (S n) =
  fadd (partial_dot a b i j n) (term a b i j n).
Proof.
  unfold partial_dot. rewrite seq_S, fold_left_app. reflexivity.
Qed.
Ltac nat_cases :=
  repeat match goal with
  | |- context [(?x <? ?y)%nat] => destruct (Nat.ltb_spec x y)
  | |- context [(?x =? ?y)%nat] => destruct (Nat.eqb_spec x y)
  end;
  cbn [andb orb]; subst; try lia; try reflexivity.

Section MatrixLoops.

Variables (a b : matrix) (rows cols n : nat).
Hypothesis Hrows : rows = length a.
Hypothesis Hn : n = length b.

Local Abbreviation at_naive := (naive_state a b rows cols n).
Local Abbreviation at_optimized := (optimized_state a b rows cols n).

Lemma naive_loops :
  for_each (seq 0 rows) (fun i =>
    for_each (seq 0 cols) (fun j =>
      for_each (seq 0 n) (fun k => multiply_add a b i j k)))
    (zero_matrix rows cols)
  = Value (grid rows cols (fun i j => partial_dot a b i j n)).
Proof.
  assert (Hk : forall i j, (i < rows)%nat -> (j < cols)%nat ->
    for_each (seq 0 n) (fun k => multiply_add a b i j k) (at_naive i j 0)
    = Value (at_naive i (S j) 0)).
  { intros i j Hi Hj.
    rewrite (for_each_states _ (fun k => at_naive i j k) n 0).
    - f_equal. apply grid_ext. intros i' j' Hi' Hj'. cbn [Nat.add].
      nat_cases.
    - intros k Hkn. unfold naive_state.
      rewrite multiply_add_grid by lia. f_equal.
      apply grid_ext. intros i' j' Hi' Hj'.
      nat_cases. symmetry. apply partial_dot_S. }
  assert (Hj : forall i, (i < rows)%nat ->
    for_each (seq 0 cols) (fun j =>
      for_each (seq 0 n) (fun k => multiply_add a b i j k))
      (at_naive i 0 0)
    = Value (at_naive (S i) 0 0)).
  { intros i Hi.
    rewrite (for_each_states _ (fun j => at_naive i j 0) cols 0).
    - f_equal. apply grid_ext. intros i' j' Hi' Hj'. cbn [Nat.add].
      nat_cases.
    - intros j Hjc. apply Hk; lia. }
  replace (zero_matrix rows cols) with (at_naive 0 0 0).
  - rewrite (for_each_states _ (fun i => at_naive i 0 0) rows 0).
    + f_equal. apply grid_ext. intros i' j' Hi' Hj'. cbn [Nat.add].
      nat_cases.
    + intros i Hi. apply Hj. lia.
  - rewrite zero_matrix_grid. apply grid_ext. intros i' j' Hi' Hj'.
    nat_cases.
Qed.

Lemma optimized_loops :
  for_each (seq 0 rows) (fun i =>
    for_each (seq 0 n) (fun k =>
      for_each (seq 0 cols) (fun j => multiply_add a b i j k)))
    (zero_matrix rows cols)
  = Value (grid rows cols (fun i j => partial_dot a b i j n)).
Proof.
  assert (Hj : forall i k, (i < rows)%nat -> (k < n)%nat ->
    for_each (seq 0 cols) (fun j => multiply_add a b i j k)
      (at_optimized i k 0)
    = Value (at_optimized i (S k) 0)).
  { intros i k Hi Hk.
    rewrite (for_each_states _ (fun j => at_optimized i k j) cols 0).
    - f_equal. apply grid_ext. intros i' j' Hi' Hj'. cbn [Nat.add].
      nat_cases.
    - intros j Hjc. unfold optimized_state.
      rewrite multiply_add_grid by lia. f_equal.
      apply grid_ext. intros i' j' Hi' Hj'.
      nat_cases. symmetry. apply partial_dot_S. }
  assert (Hk : forall i, (i < rows)%nat ->
    for_each (seq 0 n) (fun k =>
      for_each (seq 0 cols) (fun j => multiply_add a b i j k))
      (at_optimized i 0 0)
    = Value (at_optimized (S i) 0 0)).
  { intros i Hi.
    rewrite (for_each_states _ (fun k => at_optimized i k 0) n 0).
    - f_equal. apply grid_ext. intros i' j' Hi' Hj'. cbn [Nat.add].
      nat_cases.
    - intros k Hkn. apply Hj; lia. }
  replace (zero_matrix rows cols) with (at_optimized 0 0 0).
  - rewrite (for_each_states _ (fun i => at_optimized i 0 0) rows 0).
    + f_equal. apply grid_ext. intros i' j' Hi' Hj'. cbn [Nat.add].
      nat_cases.
    + intros i Hi. apply Hk. lia.
  - rewrite zero_matrix_grid. apply grid_ext. intros i' j' Hi' Hj'.
    nat_cases.
Qed.

End MatrixLoops.
Lemma naiveMatrixMultiply_value (a b : matrix) :
  naiveMatrixMultiply a b =
  match a, b with
  | a0 :: _, b0 :: _ =>
      if (length a0 =? length b)%nat then
        Value (grid (length a) (length b0)
                 (fun i j => partial_dot a b i j (length a0)))
      else Raise (Exception_Error incompatible)
  | _, _ => Raise Exception_TypeError
  end.
Proof.
  unfold naiveMatrixMultiply.
  destruct a as [|a0 a']; [reflexivity|].
  destruct b as [|b0 b']; [reflexivity|].
  cbn [lookup list_lookup].
  destruct (Nat.eqb_spec (length a0) (length (b0 :: b'))) as [E|E];
    cbn [negb]; [|reflexivity].
  apply naive_loops; [reflexivity|exact E].
Qed.

Lemma optimizedMatrixMultiply_value (a b : matrix) :
  optimizedMatrixMultiply a b =
  match a, b with
  | a0 :: _, b0 :: _ =>
      if (length a0 =? length b)%nat then
        Value (grid (length a) (length b0)
                 (fun i j => partial_dot a b i j (length a0)))
      else Raise (Exception_Error incompatible)
  | _, _ => Raise Exception_TypeError
  end.
Proof.
  unfold optimizedMatrixMultiply.
  destruct a as [|a0 a']; [reflexivity|].
  destruct b as [|b0 b']; [reflexivity|].
  cbn [lookup list_lookup].
  destruct (Nat.eqb_spec (length a0) (length (b0 :: b'))) as [E|E];
    cbn [negb]; [|reflexivity].
  apply optimized_loops; [reflexivity|exact E].
Qed.

(** What [naiveMatrixMultiply] returns.  With an empty [a] or [b] the
    read of the first row's length throws the [TypeError]; when the
    first row of [a] and [b] differ in length, the [Error] of the
    dimension check; otherwise a matrix of as many rows as [a] and as
    many columns as the first row of [b], whose cell (i, j) is the sum,
    in the order of k and from 0, of the products a[i][k] * b[k][j]
    (an element missing from a short row counting as [NaN]). *)
Theorem naiveMatrixMultiply_spec (a b : matrix) :
  naiveMatrixMultiply a b =
  match a, b with
  | a0 :: _, b0 :: _ =>
      if (length a0 =? length b)%nat then
        Value (grid (length a) (length b0)
                 (fun i j => partial_dot a b i j (length a0)))
      else Raise (Exception_Error incompatible)
  | _, _ => Raise Exception_TypeError
  end.
Proof. apply naiveMatrixMultiply_value. Qed.

(** Interchanging the two inner loops changes nothing:
    [optimizedMatrixMultiply] returns for every pair of arguments what
    [naiveMatrixMultiply] returns, the same matrix bit for bit or the
    same exception. *)
Theorem optimizedMatrixMultiply_same (a b : matrix) :
  optimizedMatrixMultiply a b = naiveMatrixMultiply a b.
Proof.
  rewrite naiveMatrixMultiply_value, optimizedMatrixMultiply_value.
  reflexivity.
Qed.

(** *** Products of integer matrices *)

Lemma fmul_int (x y : Z) :
  0 <= x < 2 ^ 53 -> 0 <= y < 2 ^ 53 -> x * y < 2 ^ 53 ->
  fmul (of_Z x) (of_Z y) = of_Z (x * y).
Proof.
  intros Hx Hy Hxy.
  destruct (Z.eq_dec x 0) as [->|Hx0].
  { rewrite Z.mul_0_l, of_Z_zero.
    destruct (Z.eq_dec y 0) as [->|Hy0]; [reflexivity|].
    rewrite of_Z_pos by lia. reflexivity. }
  destruct (Z.eq_dec y 0) as [->|Hy0].
  { rewrite Z.mul_0_r, of_Z_zero. rewrite of_Z_pos by lia. reflexivity. }
  assert (Hx53 : 0 < x < 2 ^ 53) by lia.
  assert (Hy53 : 0 < y < 2 ^ 53) by lia.
  assert (Hp : 0 < x * y < 2 ^ 53) by nia.
  pose proof (int_digits_range x Hx53) as Dx.
  pose proof (int_digits_range y Hy53) as Dy.
  pose proof (int_digits_range (x * y) Hp) as Dp.
  rewrite (of_Z_pos x), (of_Z_pos y), (of_Z_pos (x * y)) by lia.
  pose proof (int_mantissa_digits x Hx53) as Mx.
  pose proof (int_mantissa_digits y Hy53) as My.
  rewrite fmul_normal by (try assumption; unfold int_exponent; lia).
  pose proof (Zdigits2_mul_53 _ _ Mx My) as D.
  rewrite Pos2Z.inj_mul in D.
  set (m := Zpos (int_mantissa x) * Zpos (int_mantissa y)) in *.
  assert (Hm : m = x * y * 2 ^ (106 - Zdigits2 x - Zdigits2 y)).
  { unfold m. rewrite !int_mantissa_pos by lia.
    replace (106 - Zdigits2 x - Zdigits2 y)
      with ((53 - Zdigits2 x) + (53 - Zdigits2 y)) by lia.
    rewrite Z.pow_add_r by lia. lia. }
  assert (Hdm : Zdigits2 m = Zdigits2 (x * y) + (106 - Zdigits2 x - Zdigits2 y)).
  { rewrite Hm. apply Zdigits2_mul_pow2; lia. }
  set (s := Zdigits2 m - 53) in *.
  assert (Hs : 0 <= s) by lia.
  assert (Hsplit : m = x * y * 2 ^ (53 - Zdigits2 (x * y)) * 2 ^ s).
  { rewrite Hm.
    replace (106 - Zdigits2 x - Zdigits2 y)
      with ((53 - Zdigits2 (x * y)) + s) by (unfold s; lia).
    rewrite Z.pow_add_r by lia. lia. }
  assert (Pm : 0 < m) by (unfold m; lia).
  assert (Ps : 0 < 2 ^ s) by (apply Z.pow_pos_nonneg; lia).
  rewrite rounded_exact; [|exact Pm|lia|fold s; rewrite Hsplit; apply Z.mod_mul; lia].
  fold s. cbn [fst snd]. rewrite Hsplit at 1. rewrite Z.div_mul by lia.
  unfold int_exponent, int_mantissa. f_equal. lia.
Qed.
Lemma entry_int (zm : list (list Z)) (cols i k : nat) :
  Forall (fun row => length row = cols) zm ->
  (i < length zm)%nat -> (k < cols)%nat ->
  entry (map (map of_Z) zm) i k = JNum (of_Z (int_entry zm i k)).
Proof.
  intros Hrect Hi Hk. unfold entry, int_entry, matrix.
  change (map (map of_Z) zm) with (map of_Z <$> zm).
  rewrite list_lookup_fmap.
  destruct (zm !! i) as [row|] eqn:E.
  - cbn [fmap option_fmap option_map].
    rewrite (nth_lookup_Some _ _ _ _ E).
    change (map of_Z row) with (of_Z <$> row). rewrite list_lookup_fmap.
    rewrite List.Forall_forall in Hrect.
    assert (Hlen : length row = cols).
    { apply Hrect. apply list_elem_of_In. eapply list_elem_of_lookup_2, E. }
    destruct (row !! k) as [x|] eqn:Ek.
    + cbn. rewrite (nth_lookup_Some _ _ _ _ Ek). reflexivity.
    + apply lookup_ge_None in Ek. lia.
  - apply lookup_ge_None in E. lia.
Qed.

Lemma int_entry_bounds (zm : list (list Z)) (B : Z) (cols i k : nat) :
  Forall (fun row => length row = cols) zm ->
  Forall (Forall (fun x => 0 <= x <= B)) zm ->
  (i < length zm)%nat -> (k < cols)%nat ->
  0 <= int_entry zm i k <= B.
Proof.
  intros Hrect Hb Hi Hk. unfold int_entry.
  rewrite List.Forall_forall in Hrect, Hb.
  assert (Hrow : In (nth i zm []) zm) by (apply nth_In; exact Hi).
  specialize (Hb _ Hrow). rewrite List.Forall_forall in Hb.
  apply Hb. apply nth_In. rewrite (Hrect _ Hrow). exact Hk.
Qed.

Lemma int_dot_S (za zb : list (list Z)) (i j k : nat) :
  int_dot za zb i j (S k) =
  int_dot za zb i j k + int_entry za i k * int_entry zb k j.
Proof. unfold int_dot. rewrite seq_S, fold_left_app. reflexivity. Qed.

Lemma partial_dot_int (za zb : list (list Z)) (n m : nat) (B : Z)
    (i j : nat) :
  Forall (fun row => length row = n) za -> length zb = n ->
  Forall (fun row => length row = m) zb ->
  Forall (Forall (fun x => 0 <= x <= B)) za ->
  Forall (Forall (fun x => 0 <= x <= B)) zb ->
  Z.of_nat n * B * B < 2 ^ 53 ->
  (i < length za)%nat -> (j < m)%nat ->
  forall k, (k <= n)%nat ->
    partial_dot (map (map of_Z) za) (map (map of_Z) zb) i j k
    = of_Z (int_dot za zb i j k) /\
    0 <= int_dot za zb i j k <= Z.of_nat k * B * B.
Proof.
  intros Ra Lb Rb Ba Bb Hbound Hi Hj.
  induction k as [|k IH]; intros Hk.
  - split; [reflexivity|]. unfold int_dot. cbn. lia.
  - destruct (IH ltac:(lia)) as [E Hd].
    pose proof (int_entry_bounds za B n i k Ra Ba Hi ltac:(lia)) as Ha.
    pose proof (int_entry_bounds zb B m k j Rb Bb ltac:(lia) Hj) as Hb.
    assert (HB : 0 <= B) by lia.
    assert (Hprod : 0 <= int_entry za i k * int_entry zb k j <= B * B) by nia.
    assert (Hstep : Z.of_nat (S k) * B * B <= Z.of_nat n * B * B) by nia.
    assert (HBB : B * B < 2 ^ 53) by nia.
    assert (HB53 : B < 2 ^ 53) by nia.
    rewrite partial_dot_S, int_dot_S, E. unfold term.
    rewrite (entry_int za n) by (try assumption; lia).
    rewrite (entry_int zb m) by (try assumption; lia).
    cbn [to_number].
    rewrite fmul_int by lia. rewrite fadd_int by nia.
    split; [reflexivity|nia].
Qed.

(** On matrices of integers from 0 to [B], rectangular and of matching
    dimensions, with n * B * B below 2^53 for the inner dimension n,
    both multiplications return the exact matrix product. *)
Theorem matrix_product_exact (za zb : list (list Z)) (n m : nat) (B : Z) :
  za <> [] -> zb <> [] ->
  Forall (fun row => length row = n) za -> length zb = n ->
  Forall (fun row => length row = m) zb ->
  Forall (Forall (fun x => 0 <= x <= B)) za ->
  Forall (Forall (fun x => 0 <= x <= B)) zb ->
  Z.of_nat n * B * B < 2 ^ 53 ->
  naiveMatrixMultiply (map (map of_Z) za) (map (map of_Z) zb)
  = Value (grid (length za) m (fun i j => of_Z (int_dot za zb i j n))) /\
  optimizedMatrixMultiply (map (map of_Z) za) (map (map of_Z) zb)
  = Value (grid (length za) m (fun i j => of_Z (int_dot za zb i j n))).
Proof.
  intros Na Nb Ra Lb Rb Ba Bb Hbound.
  assert (Hval :
    match map (map of_Z) za, map (map of_Z) zb with
    | a0 :: _, b0 :: _ =>
        if (length a0 =? length (map (map of_Z) zb))%nat then
          Value (grid (length (map (map of_Z) za)) (length b0)
                   (fun i j =>
                      partial_dot (map (map of_Z) za) (map (map of_Z) zb)
                        i j (length a0)))
        else Raise (Exception_Error incompatible)
    | _, _ => Raise Exception_TypeError
    end
    = Value (grid (length za) m (fun i j => of_Z (int_dot za zb i j n)))).
  { destruct za as [|a0 za']; [contradiction|].
    destruct zb as [|b0 zb']; [contradiction|].
    apply Forall_inv in Ra as Ha0. apply Forall_inv in Rb as Hb0.
    cbn [map length] in *. rewrite !length_map.
    rewrite Ha0, Hb0, Lb, Nat.eqb_refl.
    f_equal. apply grid_ext. intros i j Hi Hj.
    apply (partial_dot_int (a0 :: za') (b0 :: zb') n m B i j);
      try assumption; cbn [length]; lia. }
  rewrite naiveMatrixMultiply_value, optimizedMatrixMultiply_value.
  split; exact Hval.
Qed.

Lemma matrix_product_exact_witness :
  naiveMatrixMultiply (map (map of_Z) [[1; 2]; [3; 4]])
    (map (map of_Z) [[5; 6; 7]; [8; 9; 0]])
  = Value [[JNum (of_Z 21); JNum (of_Z 24); JNum (of_Z 7)];
           [JNum (of_Z 47); JNum (of_Z 54); JNum (of_Z 21)]].
Proof.
  destruct (matrix_product_exact [[1; 2]; [3; 4]] [[5; 6; 7]; [8; 9; 0]]
              2 3 9) as [H _].
  - discriminate.
  - discriminate.
  - repeat constructor.
  - reflexivity.
  - repeat constructor.
  - repeat constructor; lia.
  - repeat constructor; lia.
  - vm_compute. reflexivity.
  - exact H.
Defined.
(* ===================================================================== *)
(** ** More on the report *)
(* ===================================================================== *)

Lemma sort_int_permutation (zs zs' : list Z) :
  Permutation zs zs' -> sort_int zs = sort_int zs'.
Proof.
  intros P. apply sorted_unique; try apply sort_int_sorted.
  rewrite <- (sort_int_perm zs), <- (sort_int_perm zs'). exact P.
Qed.

Lemma sum_int_permutation (zs zs' : list Z) :
  Permutation zs zs' -> sum_int zs = sum_int zs'.
Proof.
  unfold sum_int. induction 1; cbn [fold_right]; lia.
Qed.

(** A single duration is its own mean, median, p95 and p99, and its
    standard deviation is 0. *)
Theorem single_sample_statistics (rt ver exp : string) (l : loc)
    (mem : MemoryUsageArg) (cpu : CpuUsageArg) (w : World) (x : Z) :
  heap w !! l = Some [of_Z x] -> 0 <= x < 2 ^ 53 ->
  exists r w',
    formatMetrics rt ver exp l mem cpu w = (Return r, w') /\
    mean (statistics r) = of_Z x /\
    averageExecutionTime (metrics r) = of_Z x /\
    median (statistics r) = JNum (of_Z x) /\
    p95 (statistics r) = JNum (of_Z x) /\
    p99 (statistics r) = JNum (of_Z x) /\
    stdDev (statistics r) = pos_zero.
Proof.
  intros Hl Hx.
  change [of_Z x] with (map of_Z [x]) in Hl.
  rewrite (formatMetrics_run _ _ _ _ _ _ _ _ Hl).
  eexists _, _. split; [reflexivity|].
  cbn [statistics metrics report_of statistics_of metrics_of mean median
       stdDev p95 p99 averageExecutionTime].
  assert (Hs : safe_durations [x]).
  { split; [repeat constructor; lia|simpl; lia]. }
  assert (Hne : [x] <> []) by discriminate.
  assert (Hsum : sum_int [x] < 2 ^ 53) by (unfold sum_int; cbn; lia).
  assert (Hmean : mean_of (map of_Z [x]) = of_Z x).
  { rewrite mean_of_int by (try assumption; apply Hs).
    unfold sum_int. cbn [fold_right length].
    replace (x + 0) with (x * Z.of_nat 1) by lia.
    apply fdiv_int_exact; simpl; lia. }
  destruct (median_of_int [x] Hs Hne) as [_ Hmed].
  destruct (p95_of_int [x] Hs Hne) as [_ H95].
  destruct (p99_of_int [x] Hs Hne) as [_ H99].
  rewrite Hmean, Hmed, H95, H99.
  repeat split.
  apply stdDev_identical; try assumption.
  intros a b [<-|[]] [<-|[]]. reflexivity.
Qed.

Lemma single_sample_statistics_witness :
  exists r w',
    formatMetrics "node" "v20.11.0" "fibonacci" 0%nat example_memory
      example_cpuUsage (example_world [of_Z 10]) = (Return r, w') /\
    mean (statistics r) = of_Z 10 /\
    averageExecutionTime (metrics r) = of_Z 10 /\
    median (statistics r) = JNum (of_Z 10) /\
    p95 (statistics r) = JNum (of_Z 10) /\
    p99 (statistics r) = JNum (of_Z 10) /\
    stdDev (statistics r) = pos_zero.
Proof.
  apply (single_sample_statistics "node" "v20.11.0" "fibonacci" 0%nat
           example_memory example_cpuUsage (example_world [of_Z 10]) 10).
  - reflexivity.
  - lia.
Defined.

(** The order in which the durations were measured does not matter to
    the median and the percentiles: two arrays with the same integers
    give the same median, p95 and p99, and the same mean when the sum
    is below 2^53. *)
Theorem order_statistics_ignore_order (rt ver exp : string) (l l' : loc)
    (mem : MemoryUsageArg) (cpu : CpuUsageArg) (w w' : World)
    (zs zs' : list Z) :
  heap w !! l = Some (map of_Z zs) -> heap w' !! l' = Some (map of_Z zs') ->
  safe_durations zs -> zs <> [] -> Permutation zs zs' ->
  exists r w1 r' w1',
    formatMetrics rt ver exp l mem cpu w = (Return r, w1) /\
    formatMetrics rt ver exp l' mem cpu w' = (Return r', w1') /\
    median (statistics r) = median (statistics r') /\
    p95 (statistics r) = p95 (statistics r') /\
    p99 (statistics r) = p99 (statistics r') /\
    (sum_int zs < 2 ^ 53 -> mean (statistics r) = mean (statistics r')).
Proof.
  intros Hl Hl' Hs Hne P.
  assert (Hs' : safe_durations zs').
  { destruct Hs as [Hs Hlen]. split.
    - apply (Permutation_Forall P). exact Hs.
    - rewrite <- (Permutation_length P). exact Hlen. }
  assert (Hne' : zs' <> []).
  { intros ->. apply Permutation_sym, Permutation_nil in P. contradiction. }
  rewrite (formatMetrics_run _ _ _ _ _ _ _ _ Hl).
  rewrite (formatMetrics_run _ _ _ _ _ _ _ _ Hl').
  eexists _, _, _, _. split; [reflexivity|]. split; [reflexivity|].
  cbn [statistics report_of statistics_of mean median p95 p99].
  destruct (median_of_int zs Hs Hne) as [_ ->].
  destruct (median_of_int zs' Hs' Hne') as [_ ->].
  destruct (p95_of_int zs Hs Hne) as [_ ->].
  destruct (p95_of_int zs' Hs' Hne') as [_ ->].
  destruct (p99_of_int zs Hs Hne) as [_ ->].
  destruct (p99_of_int zs' Hs' Hne') as [_ ->].
  rewrite <- (sort_int_permutation zs zs' P), <- (Permutation_length P).
  repeat split.
  intros Hsum. rewrite !mean_of_int;
    [|apply Hs'|rewrite <- (sum_int_permutation zs zs' P); exact Hsum
     |apply Hs|exact Hsum].
  rewrite (sum_int_permutation zs zs' P), (Permutation_length P).
  reflexivity.
Qed.

Lemma order_statistics_ignore_order_witness :
  exists r w1 r' w1',
    formatMetrics "node" "v20.11.0" "fibonacci" 0%nat example_memory
      example_cpuUsage (example_world (map of_Z [300; 100; 200]))
    = (Return r, w1) /\
    formatMetrics "node" "v20.11.0" "fibonacci" 0%nat example_memory
      example_cpuUsage (example_world (map of_Z [100; 200; 300]))
    = (Return r', w1') /\
    median (statistics r) = median (statistics r') /\
    p95 (statistics r) = p95 (statistics r') /\
    p99 (statistics r) = p99 (statistics r') /\
    (sum_int [300; 100; 200] < 2 ^ 53 ->
     mean (statistics r) = mean (statistics r')).
Proof.
  apply (order_statistics_ignore_order "node" "v20.11.0" "fibonacci"
           0%nat 0%nat example_memory example_cpuUsage
           (example_world (map of_Z [300; 100; 200]))
           (example_world (map of_Z [100; 200; 300]))
           [300; 100; 200] [100; 200; 300]).
  - reflexivity.
  - reflexivity.
  - split; [repeat constructor; lia|simpl; lia].
  - discriminate.
  - apply (perm_trans (l' := [100; 300; 200])).
    + apply perm_swap.
    + apply perm_skip. apply perm_swap.
Defined.

Lemma sorted_last_max (zs : list Z) :
  zs <> [] -> nth (length zs - 1) (sort_int zs) 0 = max_int zs.
Proof.
  intros Hne.
  assert (Hpos : (0 < length zs)%nat) by (destruct zs; [contradiction|simpl; lia]).
  assert (Hin : In (nth (length zs - 1) (sort_int zs) 0) zs)
    by (apply sort_int_nth_In; lia).
  pose proof (min_max_int_In zs _ Hin) as [_ Hle].
  destruct (min_max_int_elem zs Hne) as [_ Hmax].
  apply (Permutation_in _ (sort_int_perm zs)) in Hmax.
  destruct (In_nth _ _ 0 Hmax) as (k & Hk & Ek).
  rewrite sort_int_length in Hk.
  pose proof (sorted_nth_le (sort_int zs) k (length zs - 1)
                (sort_int_sorted zs)) as Hord.
  rewrite sort_int_length in Hord. specialize (Hord ltac:(lia)).
  lia.
Qed.

(** With few samples the high percentiles are the maximum: p99 is the
    largest duration when there are at most 100 samples, and so is p95
    when there are at most 20. *)
Theorem small_sample_percentiles (rt ver exp : string) (l : loc)
    (mem : MemoryUsageArg) (cpu : CpuUsageArg) (w : World) (zs : list Z) :
  heap w !! l = Some (map of_Z zs) -> safe_durations zs -> zs <> [] ->
  exists r w',
    formatMetrics rt ver exp l mem cpu w = (Return r, w') /\
    ((length zs <= 100)%nat ->
     p99 (statistics r) = JNum (of_Z (max_int zs))) /\
    ((length zs <= 20)%nat ->
     p95 (statistics r) = JNum (of_Z (max_int zs))).
Proof.
  intros Hl Hs Hne. rewrite (formatMetrics_run _ _ _ _ _ _ _ _ Hl).
  eexists _, _. split; [reflexivity|].
  cbn [statistics report_of statistics_of p95 p99].
  assert (Hpos : (0 < length zs)%nat) by (destruct zs; [contradiction|simpl; lia]).
  destruct (p95_of_int zs Hs Hne) as [_ ->].
  destruct (p99_of_int zs Hs Hne) as [_ ->].
  split; intros HN; do 2 f_equal; rewrite <- (sorted_last_max zs Hne); f_equal.
  - symmetry. apply (Nat.div_unique _ _ _ (100 - length zs)); lia.
  - symmetry. apply (Nat.div_unique _ _ _ (100 - 5 * length zs)); lia.
Qed.

Lemma small_sample_percentiles_witness :
  exists r w',
    formatMetrics "node" "v20.11.0" "fibonacci" 0%nat example_memory
      example_cpuUsage (example_world (map of_Z [300; 100; 200; 400]))
    = (Return r, w') /\
    p99 (statistics r) = JNum (of_Z 400) /\
    p95 (statistics r) = JNum (of_Z 400).
Proof.
  destruct (small_sample_percentiles "node"%string "v20.11.0"%string
              "fibonacci"%string 0%nat example_memory example_cpuUsage
              (example_world (map of_Z [300; 100; 200; 400]))
              [300; 100; 200; 400] eq_refl)
    as (r & w' & Hrun & H99 & H95).
  - split; [repeat constructor; lia|simpl; lia].
  - discriminate.
  - exists r, w'. split; [exact Hrun|].
    split; [apply H99|apply H95]; simpl; lia.
Defined.
(* ===================================================================== *)
(** ** More on the drivers *)
(* ===================================================================== *)

Lemma measure_exact (detailedMetrics : bool) (l : loc) (samples : list Sample) :
  forall (i : nat) (acc : list IterationMetrics) (xs : list float) (w : World),
    heap w !! l = Some xs ->
    measure detailedMetrics l i samples acc w =
    (Return (if detailedMetrics then acc ++ iteration_entries i samples
             else acc),
     set_heap (<[l := xs ++ map sample_time samples]> (heap w)) w).
Proof.
  induction samples as [|s rest IH]; intros i acc xs w Hl.
  - cbn [measure map iteration_entries]. rewrite !app_nil_r.
    rewrite list_insert_id by exact Hl. rewrite set_heap_id.
    destruct detailedMetrics; reflexivity.
  - cbn [measure map iteration_entries]. unfold bind at 1.
    rewrite (push_run _ _ _ _ Hl).
    assert (Hl' : heap (set_heap (<[l := xs ++ [sample_time s]]> (heap w)) w) !! l
                  = Some (xs ++ [sample_time s])).
    { cbn [heap set_heap]. apply list_lookup_insert_eq.
      apply lookup_lt_Some in Hl. exact Hl. }
    rewrite (IH (S i) _ _ _ Hl'). cbn [heap set_heap].
    rewrite list_insert_insert_eq, <- app_assoc.
    destruct detailedMetrics; [rewrite <- app_assoc|]; reflexivity.
Qed.

Lemma collect_exact (name : string) (run : Run) (options : Options) (w : World) :
  collect name run options w =
  (Return (driver_report name run options w),
   set_heap (driver_heap run w) w).
Proof.
  unfold collect. rewrite bind_alloc.
  set (l := length (heap w)).
  set (w1 := set_heap (heap w ++ [[]]) w).
  assert (Hl : heap w1 !! l = Some []) by apply heap_lookup_new.
  unfold bind at 1. rewrite (measure_exact _ _ _ _ _ _ _ Hl). cbn [app].
  set (w2 := set_heap _ w1).
  assert (Hl2 : heap w2 !! l = Some (map sample_time (run_samples run))).
  { unfold w2. cbn [heap set_heap]. apply list_lookup_insert_eq.
    unfold w1, l. cbn [heap set_heap]. rewrite length_app. simpl. lia. }
  unfold bind at 1. rewrite (formatMetrics_run _ _ _ _ _ _ _ _ Hl2).
  unfold ret, driver_report, driver_heap. f_equal.
  - destruct (default true (opt_detailedMetrics options)); reflexivity.
  - unfold w2, w1. cbn [heap set_heap]. rewrite !set_heap_set_heap.
    f_equal. unfold l. rewrite heap_insert_new, <- app_assoc. reflexivity.
Qed.
Lemma iteration_entries_length (i : nat) (samples : list Sample) :
  length (iteration_entries i samples) = length samples.
Proof.
  revert i. induction samples as [|s rest IH]; intros i; [reflexivity|].
  cbn [iteration_entries length]. rewrite IH. reflexivity.
Qed.

Lemma iteration_entries_lookup (samples : list Sample) :
  forall (i k : nat) (s : Sample),
    samples !! k = Some s -> Z.of_nat (i + k) + 1 < 2 ^ 53 ->
    iteration_entries i samples !! k =
    Some {| iteration := of_Z (Z.of_nat (i + k) + 1);
            it_executionTime := sample_time s;
            it_before := sample_before s;
            it_after := sample_after s;
            it_diff := memory_diff (sample_before s) (sample_after s) |}.
Proof.
  induction samples as [|s0 rest IH]; intros i k s Hk Hb; [discriminate|].
  destruct k as [|k]; cbn [iteration_entries].
  - injection Hk as <-. change ((?x :: ?l) !! 0%nat) with (Some x).
    unfold of_nat.
    rewrite fadd_int by lia. rewrite Nat.add_0_r. reflexivity.
  - change ((s0 :: rest) !! S k) with (rest !! k) in Hk.
    change ((?x :: ?l) !! S k) with (l !! k).
    rewrite (IH (S i) k s Hk) by lia.
    replace (S i + k)%nat with (i + S k)%nat by lia. reflexivity.
Qed.

Lemma keeps_heap_bind {A B : Type} (m : M A) (k : A -> M B) :
  keeps_heap m -> (forall a, keeps_heap (k a)) -> keeps_heap (bind m k).
Proof.
  intros Hm Hk w. unfold bind. specialize (Hm w).
  destruct (m w) as [[a|e] w1]; cbn [snd] in *; [|exact Hm].
  rewrite (Hk a w1). exact Hm.
Qed.

Lemma keeps_heap_ret {A : Type} (a : A) : keeps_heap (ret a).
Proof. intros w. reflexivity. Qed.

Lemma keeps_heap_try_catch {A : Type} (m : M A) (h : Error -> M A) :
  keeps_heap m -> (forall e, keeps_heap (h e)) -> keeps_heap (try_catch m h).
Proof.
  intros Hm Hh w. unfold try_catch. specialize (Hm w).
  destruct (m w) as [[a|e] w1]; cbn [snd] in *; [exact Hm|].
  rewrite (Hh e w1). exact Hm.
Qed.

(** Saving changes the file system and the console, never the store. *)
Lemma saveResults_heap (results : Report) (path : string) :
  keeps_heap (saveResults results path).
Proof.
  unfold saveResults. apply keeps_heap_bind; [intros w; reflexivity|].
  intros present. apply keeps_heap_bind.
  { destruct (negb present); [|apply keeps_heap_ret].
    intros w. unfold fs_mkdirSync.
    destruct (in_list _ (denied w)); reflexivity. }
  intros _. apply keeps_heap_bind.
  { unfold JSON_stringify. apply keeps_heap_bind.
    - intros w. unfold read. destruct (heap w !! _); reflexivity.
    - intros xs. apply keeps_heap_ret. }
  intros data. apply keeps_heap_bind.
  { intros w. unfold fs_writeFileSync.
    destruct (negb _); [reflexivity|].
    destruct (in_list path (denied w)); reflexivity. }
  intros _ w. reflexivity.
Qed.

(** When nothing stands in the way, [saveResults] creates the directory
    if it is missing, writes the report with the execution times as they
    are at that moment, and prints one line. *)
Lemma saveResults_succeeds (results : Report) (path : string) (w : World)
    (xs : list float) :
  heap w !! executionTimes (metrics results) = Some xs ->
  in_list (dirname path) (dirs w) = true
  \/ in_list (dirname path) (denied w) = false ->
  in_list path (denied w) = false ->
  exists w',
    saveResults results path w = (Return tt, w') /\
    files w' =
    (path, {| json_report := results; json_times := xs |}) :: files w /\
    dirs w' =
    (if in_list (dirname path) (dirs w) then dirs w
     else dirname path :: dirs w) /\
    console w' =
    console w ++ [(Stdout, ("Результаты сохранены в " ++ path)%string)] /\
    heap w' = heap w /\ denied w' = denied w.
Proof.
  intros Hl Hdir Hpath. unfold saveResults.
  unfold bind at 1. unfold fs_existsSync.
  destruct (in_list (dirname path) (dirs w)) eqn:Ed; cbn [negb].
  - rewrite bind_ret. unfold JSON_stringify.
    rewrite bind_bind, (bind_read _ _ _ _ Hl), bind_ret.
    unfold bind, fs_writeFileSync, console_log. rewrite Ed, Hpath. cbn [negb].
    eexists. split; [reflexivity|]. repeat split.
  - destruct Hdir as [Hdir|Hdir]; [discriminate|].
    unfold bind at 1. unfold fs_mkdirSync. rewrite Hdir.
    unfold JSON_stringify.
    rewrite bind_bind, (bind_read _ xs) by exact Hl.
    rewrite bind_ret.
    unfold bind, fs_writeFileSync, console_log. cbn [dirs denied set_dirs].
    rewrite in_list_head, Hpath. cbn [negb].
    eexists. split; [reflexivity|]. repeat split.
Qed.

Lemma driver_heap_times (run : Run) (w : World) :
  driver_heap run w !! length (heap w)
  = Some (map sample_time (run_samples run)).
Proof.
  unfold driver_heap.
  rewrite lookup_app_r by lia. rewrite Nat.sub_diag. reflexivity.
Qed.

Lemma driver_heap_keeps (run : Run) (w : World) (l : loc) (xs : list float) :
  heap w !! l = Some xs -> driver_heap run w !! l = Some xs.
Proof. intros H. unfold driver_heap. apply lookup_app_l_Some. exact H. Qed.

Lemma driver_report_times (name : string) (run : Run) (options : Options)
    (w : World) :
  executionTimes (metrics (driver_report name run options w))
  = length (heap w).
Proof.
  unfold driver_report.
  destruct (default true (opt_detailedMetrics options)); reflexivity.
Qed.
Lemma driver_report_detailed (name : string) (run : Run) (options : Options)
    (w : World) :
  Z.of_nat (length (run_samples run)) < 2 ^ 53 ->
  match opt_detailedMetrics options with
  | Some false =>
      detailedIterationMetrics (driver_report name run options w) = None
  | _ =>
      exists d,
        detailedIterationMetrics (driver_report name run options w) = Some d /\
        length d = length (run_samples run) /\
        forall k s, run_samples run !! k = Some s ->
                    d !! k = Some (entry_of k s)
  end.
Proof.
  intros Hlen. unfold driver_report.
  assert (H : exists d,
    Some (iteration_entries 0 (run_samples run)) = Some d /\
    length d = length (run_samples run) /\
    forall k s, run_samples run !! k = Some s -> d !! k = Some (entry_of k s)).
  { eexists. split; [reflexivity|]. split; [apply iteration_entries_length|].
    intros k s Hk. apply lookup_lt_Some in Hk as Hlt.
    rewrite (iteration_entries_lookup _ 0 k s Hk) by (cbn [Nat.add]; lia).
    reflexivity. }
  destruct (opt_detailedMetrics options) as [[|]|]; cbn [default];
    [exact H|reflexivity|exact H].
Qed.

(** The Bun driver always returns a report.  Its array of execution
    times is a new array that holds the measured times in the order of
    the passes; no array that existed is changed; and unless
    [detailedMetrics] is false there is one detailed entry per pass,
    numbered from 1, that repeats the time and the memory snapshots of
    the pass. *)
Theorem benchmark_bun_report (run : Run) (options : Options) (w : World) :
  Z.of_nat (length (run_samples run)) < 2 ^ 53 ->
  exists r w',
    benchmark_bun run options w = (Return r, w') /\
    runtime r = "bun"%string /\
    experiment r = default "unknown"%string (opt_experiment options) /\
    heap w' !! executionTimes (metrics r)
    = Some (map sample_time (run_samples run)) /\
    (forall l xs, heap w !! l = Some xs -> heap w' !! l = Some xs) /\
    match opt_detailedMetrics options with
    | Some false => detailedIterationMetrics r = None
    | _ =>
        exists d,
          detailedIterationMetrics r = Some d /\
          length d = length (run_samples run) /\
          forall k s, run_samples run !! k = Some s ->
                      d !! k = Some (entry_of k s)
    end.
Proof.
  intros Hlen. unfold benchmark_bun.
  assert (Hpath : exists p,
    (match opt_outputPath options with
     | Some p => ret p
     | None =>
         bun_default_path (default "unknown"%string (opt_experiment options))
     end) w = (Return p, w)).
  { destruct (opt_outputPath options); eexists; reflexivity. }
  destruct Hpath as [p Hp]. unfold bind at 1. rewrite Hp.
  unfold bind at 1. rewrite collect_exact.
  set (r := driver_report "bun" run options w).
  set (w1 := set_heap (driver_heap run w) w).
  change (try_catch _ ?handler) with (try_catch (saveResults r p) handler).
  set (save := try_catch (saveResults r p) _).
  assert (Hkeep : keeps_heap save).
  { apply keeps_heap_try_catch; [apply saveResults_heap|].
    intros e w0. reflexivity. }
  destruct (try_catch_console_error (saveResults r p)
              (fun e => ("Ошибка при сохранении результатов: "
                         ++ error_message e)%string) w1) as [w2 Hw2].
  fold save in Hw2. specialize (Hkeep w1). rewrite Hw2 in Hkeep.
  cbn [snd] in Hkeep.
  unfold bind. rewrite Hw2. unfold ret.
  exists r, w2. split; [reflexivity|].
  split; [unfold r, driver_report;
          destruct (default true (opt_detailedMetrics options)); reflexivity|].
  split; [unfold r, driver_report;
          destruct (default true (opt_detailedMetrics options)); reflexivity|].
  rewrite Hkeep. unfold w1. cbn [heap set_heap].
  split; [unfold r; rewrite driver_report_times; apply driver_heap_times|].
  split; [intros l xs H; apply driver_heap_keeps, H|].
  apply driver_report_detailed. exact Hlen.
Qed.

Lemma benchmark_bun_report_witness :
  exists r w',
    benchmark_bun example_run readonly_options readonly_world = (Return r, w') /\
    heap w' !! executionTimes (metrics r)
    = Some [of_Z 100; of_Z 300; of_Z 200] /\
    exists d, detailedIterationMetrics r = Some d /\ length d = 3%nat.
Proof.
  destruct (benchmark_bun_report example_run readonly_options readonly_world)
    as (r & w' & Hrun & _ & _ & Ht & _ & d & Hd & Hlen & _).
  - vm_compute. reflexivity.
  - exists r, w'. split; [exact Hrun|]. split; [exact Ht|].
    exists d. split; [exact Hd|exact Hlen].
Defined.

(** Without an output path (none, or the empty string) the Node.js
    driver returns its report and leaves the file system alone: no
    directory is created and no file is written.  The report is as for
    the Bun driver. *)
Theorem benchmark_node_without_path (run : Run) (options : Options)
    (w : World) :
  opt_outputPath options = None \/ opt_outputPath options = Some ""%string ->
  Z.of_nat (length (run_samples run)) < 2 ^ 53 ->
  exists r w',
    benchmark_node run options w = (Return r, w') /\
    files w' = files w /\ dirs w' = dirs w /\
    runtime r = "node"%string /\
    heap w' !! executionTimes (metrics r)
    = Some (map sample_time (run_samples run)) /\
    (forall l xs, heap w !! l = Some xs -> heap w' !! l = Some xs) /\
    match opt_detailedMetrics options with
    | Some false => detailedIterationMetrics r = None
    | _ =>
        exists d,
          detailedIterationMetrics r = Some d /\
          length d = length (run_samples run) /\
          forall k s, run_samples run !! k = Some s ->
                      d !! k = Some (entry_of k s)
    end.
Proof.
  intros Hp Hlen. unfold benchmark_node.
  unfold bind at 1. rewrite collect_exact.
  assert (Hsave :
    (match opt_outputPath options with
     | Some EmptyString => ret tt
     | Some outputPath =>
         saveResults_mjs (driver_report "node" run options w) outputPath
     | None => ret tt
     end) = ret tt).
  { destruct Hp as [-> | ->]; reflexivity. }
  rewrite Hsave. rewrite bind_ret. unfold ret.
  eexists _, _. split; [reflexivity|].
  split; [reflexivity|]. split; [reflexivity|].
  split; [unfold driver_report;
          destruct (default true (opt_detailedMetrics options)); reflexivity|].
  cbn [heap set_heap].
  split; [rewrite driver_report_times; apply driver_heap_times|].
  split; [intros l xs H; apply driver_heap_keeps, H|].
  apply driver_report_detailed. exact Hlen.
Qed.

Lemma benchmark_node_without_path_witness :
  exists r w',
    benchmark_node example_run no_path_options readonly_world = (Return r, w') /\
    files w' = files readonly_world /\ dirs w' = dirs readonly_world /\
    detailedIterationMetrics r = None.
Proof.
  destruct (benchmark_node_without_path example_run no_path_options
              readonly_world)
    as (r & w' & Hrun & Hf & Hd & _ & _ & _ & Hdet).
  - left. reflexivity.
  - vm_compute. reflexivity.
  - exists r, w'. repeat split; assumption.
Defined.

(** When the directory exists or can be created and the file can be
    written, the Node.js driver saves what it returns: the newest file
    is the report at the given path, with the measured times; the
    directory exists afterwards; the last line printed announces the
    path. *)
Theorem benchmark_node_saves (run : Run) (options : Options) (w : World)
    (path : string) :
  opt_outputPath options = Some path -> path <> ""%string ->
  save_possible path w ->
  exists r w',
    benchmark_node run options w = (Return r, w') /\
    files w' =
    (path, {| json_report := r;
              json_times := map sample_time (run_samples run) |})
    :: files w /\
    in_list (dirname path) (dirs w') = true /\
    last (console w')
    = Some (Stdout, ("Результаты сохранены в " ++ path)%string).
Proof.
  intros Hp Hne [Hdir Hfile]. unfold benchmark_node. rewrite Hp.
  unfold bind at 1. rewrite collect_exact.
  set (r := driver_report "node" run options w).
  set (w1 := set_heap (driver_heap run w) w).
  destruct (saveResults_succeeds r path w1
              (map sample_time (run_samples run)))
    as (w2 & Hs & Hfiles & Hdirs & Hcon & _).
  { unfold r, w1. rewrite driver_report_times. apply driver_heap_times. }
  { exact Hdir. }
  { exact Hfile. }
  apply saveResults_mjs_returned in Hs.
  destruct path as [|c path]; [contradiction|].
  unfold bind. rewrite Hs. unfold ret.
  exists r, w2. split; [reflexivity|]. split; [exact Hfiles|]. split.
  - rewrite Hdirs. cbn [dirs w1 set_heap].
    destruct (in_list (dirname (String c path)) (dirs w)) eqn:E;
      [exact E|apply in_list_head].
  - rewrite Hcon. apply last_snoc.
Qed.

Lemma benchmark_node_saves_witness :
  exists r w',
    benchmark_node example_run (results_options "/results/out.json")
      writable_world = (Return r, w') /\
    files w' =
    [("/results/out.json"%string,
      {| json_report := r;
         json_times := [of_Z 100; of_Z 300; of_Z 200] |})] /\
    in_list "/results" (dirs w') = true.
Proof.
  destruct (benchmark_node_saves example_run
              (results_options "/results/out.json") writable_world
              "/results/out.json" eq_refl)
    as (r & w' & Hrun & Hf & Hd & _).
  - discriminate.
  - split; [right; reflexivity|reflexivity].
  - exists r, w'. split; [exact Hrun|]. split; [exact Hf|exact Hd].
Defined.

(** The same for the Bun driver, when a path is given. *)
Theorem benchmark_bun_saves (run : Run) (options : Options) (w : World)
    (path : string) :
  opt_outputPath options = Some path -> save_possible path w ->
  exists r w',
    benchmark_bun run options w = (Return r, w') /\
    files w' =
    (path, {| json_report := r;
              json_times := map sample_time (run_samples run) |})
    :: files w /\
    in_list (dirname path) (dirs w') = true /\
    last (console w')
    = Some (Stdout, ("Результаты сохранены в " ++ path)%string) /\
    stderr_lines w' = stderr_lines w.
Proof.
  intros Hp [Hdir Hfile]. unfold benchmark_bun. rewrite Hp, bind_ret.
  unfold bind at 1. rewrite collect_exact.
  set (r := driver_report "bun" run options w).
  set (w1 := set_heap (driver_heap run w) w).
  change (try_catch _ ?handler) with (try_catch (saveResults r path) handler).
  destruct (saveResults_succeeds r path w1
              (map sample_time (run_samples run)))
    as (w2 & Hs & Hfiles & Hdirs & Hcon & _).
  { unfold r, w1. rewrite driver_report_times. apply driver_heap_times. }
  { exact Hdir. }
  { exact Hfile. }
  unfold bind, try_catch. rewrite Hs. unfold ret.
  exists r, w2. split; [reflexivity|]. split; [exact Hfiles|]. split; [|split].
  - rewrite Hdirs. cbn [dirs w1 set_heap].
    destruct (in_list (dirname path) (dirs w)) eqn:E;
      [exact E|apply in_list_head].
  - rewrite Hcon. apply last_snoc.
  - unfold stderr_lines. rewrite Hcon, List.filter_app. cbn.
    rewrite app_nil_r. reflexivity.
Qed.

Lemma benchmark_bun_saves_witness :
  exists r w',
    benchmark_bun example_run (results_options "/results/out.json")
      writable_world = (Return r, w') /\
    files w' =
    [("/results/out.json"%string,
      {| json_report := r;
         json_times := [of_Z 100; of_Z 300; of_Z 200] |})] /\
    stderr_lines w' = [].
Proof.
  destruct (benchmark_bun_saves example_run
              (results_options "/results/out.json") writable_world
              "/results/out.json" eq_refl)
    as (r & w' & Hrun & Hf & _ & _ & He).
  - split; [right; reflexivity|reflexivity].
  - exists r, w'. split; [exact Hrun|]. split; [exact Hf|exact He].
Defined.

(** A write that fails after the directory was created leaves the
    directory behind: the Node.js driver writes no file, the new
    directory stays, the failure goes to the error stream in one line,
    the last line printed, and the report is returned. *)
Theorem benchmark_node_leaves_directory (run : Run) (options : Options)
    (w : World) (path : string) :
  opt_outputPath options = Some path -> path <> ""%string ->
  in_list (dirname path) (dirs w) = false ->
  in_list (dirname path) (denied w) = false ->
  in_list path (denied w) = true ->
  exists r w' msg,
    benchmark_node run options w = (Return r, w') /\
    dirs w' = dirname path :: dirs w /\
    files w' = files w /\
    stderr_lines w' =
    stderr_lines w ++ [("Ошибка при сохранении результатов: " ++ msg)%string] /\
    last (console w')
    = Some (Stderr, ("Ошибка при сохранении результатов: " ++ msg)%string) /\
    heap w' !! executionTimes (metrics r)
    = Some (map sample_time (run_samples run)).
Proof.
  intros Hp Hne Hmissing Hcreate Hdenied. unfold benchmark_node. rewrite Hp.
  unfold bind at 1. rewrite collect_exact.
  set (r := driver_report "node" run options w).
  set (w1 := set_heap (driver_heap run w) w).
  assert (Hl : heap w1 !! executionTimes (metrics r)
               = Some (map sample_time (run_samples run))).
  { unfold r, w1. rewrite driver_report_times. apply driver_heap_times. }
  assert (Hs : exists e,
    saveResults r path w1 = (Throw e, set_dirs (dirname path :: dirs w1) w1)).
  { unfold saveResults. unfold bind at 1. unfold fs_existsSync.
    cbn [dirs w1 set_heap]. rewrite Hmissing. cbn [negb].
    unfold bind at 1. unfold fs_mkdirSync. cbn [denied w1 set_heap].
    rewrite Hcreate. unfold JSON_stringify.
    rewrite bind_bind, (bind_read _ (map sample_time (run_samples run)));
      [|exact Hl].
    rewrite bind_ret. unfold bind, fs_writeFileSync.
    cbn [dirs denied set_dirs set_heap w1].
    rewrite in_list_head, Hdenied. cbn [negb].
    eexists. reflexivity. }
  destruct Hs as (e & Hs).
  apply saveResults_mjs_caught in Hs.
  destruct path as [|c path]; [contradiction|].
  unfold bind. rewrite Hs. unfold ret.
  eexists r, _, (inspect e). split; [reflexivity|].
  cbn [dirs files console heap set_console set_dirs set_heap w1].
  split; [reflexivity|]. split; [reflexivity|]. split; [|split].
  - unfold stderr_lines. cbn [console set_console set_dirs set_heap].
    rewrite List.filter_app, map_app. reflexivity.
  - apply last_snoc.
  - exact Hl.
Qed.

Lemma benchmark_node_leaves_directory_witness :
  exists r w' msg,
    benchmark_node example_run (results_options "/results/locked.json")
      writable_world = (Return r, w') /\
    dirs w' = ["/results"%string] /\ files w' = [] /\
    stderr_lines w' =
    [("Ошибка при сохранении результатов: " ++ msg)%string].
Proof.
  destruct (benchmark_node_leaves_directory example_run
              (results_options "/results/locked.json") writable_world
              "/results/locked.json" eq_refl)
    as (r & w' & msg & Hrun & Hd & Hf & He & _).
  - discriminate.
  - reflexivity.
  - reflexivity.
  - reflexivity.
  - exists r, w', msg. split; [exact Hrun|].
    split; [exact Hd|]. split; [exact Hf|exact He].
Defined.

(** When saving fails, the Bun driver writes no file, adds exactly one
    line to the error stream, the last line it prints, and returns the
    report. *)
Theorem benchmark_bun_logs_failure (run : Run) (options : Options)
    (w : World) (path : string) :
  opt_outputPath options = Some path -> save_fails path w ->
  exists r w' msg,
    benchmark_bun run options w = (Return r, w') /\
    files w' = files w /\
    stderr_lines w' =
    stderr_lines w ++ [("Ошибка при сохранении результатов: " ++ msg)%string] /\
    last (console w')
    = Some (Stderr, ("Ошибка при сохранении результатов: " ++ msg)%string) /\
    heap w' !! executionTimes (metrics r)
    = Some (map sample_time (run_samples run)).
Proof.
  intros Hp Hf. unfold benchmark_bun. rewrite Hp, bind_ret.
  unfold bind at 1. rewrite collect_exact.
  set (r := driver_report "bun" run options w).
  set (w1 := set_heap (driver_heap run w) w).
  assert (Hl : heap w1 !! executionTimes (metrics r)
               = Some (map sample_time (run_samples run))).
  { unfold r, w1. rewrite driver_report_times. apply driver_heap_times. }
  change (try_catch _ ?handler) with (try_catch (saveResults r path) handler).
  destruct (saveResults_fails r path w1 _ Hf Hl)
    as (msg & w2 & Hs & Hcon & Hfiles & Hheap).
  unfold bind, try_catch. rewrite Hs.
  unfold console_error, ret. cbn [error_message].
  eexists _, _, msg. split; [reflexivity|].
  cbn [console files heap set_console]. rewrite Hcon, Hfiles, Hheap.
  split; [reflexivity|]. split; [|split].
  - unfold stderr_lines. cbn [console set_console].
    rewrite List.filter_app, map_app. reflexivity.
  - apply last_snoc.
  - exact Hl.
Qed.

Lemma benchmark_bun_logs_failure_witness :
  exists r w' msg,
    benchmark_bun example_run readonly_options readonly_world = (Return r, w') /\
    files w' = [] /\
    stderr_lines w' =
    [("Ошибка при сохранении результатов: " ++ msg)%string].
Proof.
  destruct (benchmark_bun_logs_failure example_run readonly_options
              readonly_world "/readonly/results/out.json" eq_refl)
    as (r & w' & msg & Hrun & Hf & He & _).
  - vm_compute. left. reflexivity.
  - exists r, w', msg. split; [exact Hrun|]. split; [exact Hf|exact He].
Defined.

(** The report does not copy the execution times: it refers to the
    array it was given.  An element pushed to that array after
    [formatMetrics] has returned shows in what [JSON.stringify] writes
    for the report, while the statistics stay those of the array as it
    was. *)
Theorem report_shares_executionTimes (rt ver exp : string) (l : loc)
    (mem : MemoryUsageArg) (cpu : CpuUsageArg) (w : World)
    (xs : list float) (x : float) :
  heap w !! l = Some xs ->
  exists r w1 w2 json,
    formatMetrics rt ver exp l mem cpu w = (Return r, w1) /\
    push (executionTimes (metrics r)) x w1 = (Return tt, w2) /\
    JSON_stringify r w2 = (Return json, w2) /\
    json_times json = xs ++ [x] /\
    statistics (json_report json) = statistics_of xs /\
    averageExecutionTime (metrics (json_report json)) = mean_of xs.
Proof.
  intros Hl. rewrite (formatMetrics_run _ _ _ _ _ _ _ _ Hl).
  set (w1 := set_heap _ w).
  assert (Hl1 : heap w1 !! l = Some xs)
    by (unfold w1; cbn [heap set_heap]; apply heap_lookup_alloc, Hl).
  eexists _, _, _, _. split; [reflexivity|].
  cbn [metrics report_of metrics_of executionTimes].
  split; [apply (push_run _ _ _ _ Hl1)|].
  unfold JSON_stringify. cbn [metrics report_of metrics_of executionTimes].
  rewrite (bind_read _ (xs ++ [x])).
  - unfold ret. split; [reflexivity|]. repeat split.
  - cbn [heap set_heap]. apply list_lookup_insert_eq.
    apply lookup_lt_Some in Hl1. exact Hl1.
Qed.

Lemma report_shares_executionTimes_witness :
  exists r w1 w2 json,
    formatMetrics "node" "v20.11.0" "fibonacci" 0%nat example_memory
      example_cpuUsage (example_world [of_Z 100; of_Z 300]) = (Return r, w1) /\
    push (executionTimes (metrics r)) (of_Z 200) w1 = (Return tt, w2) /\
    JSON_stringify r w2 = (Return json, w2) /\
    json_times json = [of_Z 100; of_Z 300; of_Z 200] /\
    mean (statistics (json_report json)) = of_Z 200.
Proof.
  destruct (report_shares_executionTimes "node"%string "v20.11.0"%string
              "fibonacci"%string 0%nat example_memory example_cpuUsage
              (example_world [of_Z 100; of_Z 300])
              [of_Z 100; of_Z 300] (of_Z 200) eq_refl)
    as (r & w1 & w2 & json & Hrun & Hpush & Hjson & Ht & Hs & _).
  exists r, w1, w2, json.
  split; [exact Hrun|]. split; [exact Hpush|]. split; [exact Hjson|].
  split; [exact Ht|]. rewrite Hs. vm_compute. reflexivity.
Defined.

(** For resource fields that are integers below 2^53 in both snapshots,
    the difference in the report is the exact difference after - before,
    negative when the figure went down. *)
Theorem known_diffs_are_exact (rt ver exp : string) (l : loc)
    (mem : MemoryUsageArg) (cpu : CpuUsageArg) (w : World)
    (xs : list float) (b a : Z) :
  heap w !! l = Some xs -> 0 <= b < 2 ^ 53 -> 0 <= a < 2 ^ 53 ->
  exists r w',
    formatMetrics rt ver exp l mem cpu w = (Return r, w') /\
    let d := mu_diff (memoryUsage (metrics r)) in
    (rss (mem_before mem) = Known (of_Z b) ->
     rss (mem_after mem) = Known (of_Z a) -> diff_rss d = of_Z (a - b)) /\
    (heapTotal (mem_before mem) = Known (of_Z b) ->
     heapTotal (mem_after mem) = Known (of_Z a) ->
     diff_heapTotal d = of_Z (a - b)) /\
    (heapUsed (mem_before mem) = Known (of_Z b) ->
     heapUsed (mem_after mem) = Known (of_Z a) ->
     diff_heapUsed d = of_Z (a - b)) /\
    (external (mem_before mem) = Known (of_Z b) ->
     external (mem_after mem) = Known (of_Z a) ->
     diff_external d = of_Z (a - b)) /\
    (user (cpu_before cpu) = Known (of_Z b) ->
     user (cpu_after cpu) = Known (of_Z a) ->
     diffUser (cpuUsage (metrics r)) = of_Z (a - b)) /\
    (system (cpu_before cpu) = Known (of_Z b) ->
     system (cpu_after cpu) = Known (of_Z a) ->
     diffSystem (cpuUsage (metrics r)) = of_Z (a - b)).
Proof.
  intros Hl Hb Ha. rewrite (formatMetrics_run _ _ _ _ _ _ _ _ Hl).
  eexists _, _. split; [reflexivity|].
  cbn [metrics report_of metrics_of memoryUsage cpuUsage mu_diff memory_diff
       diff_rss diff_heapTotal diff_heapUsed diff_external diffUser
       diffSystem].
  repeat split; intros E1 E2; rewrite E1, E2; unfold js_sub;
    cbn [ToNumber]; apply fsub_int; assumption.
Qed.

Lemma known_diffs_are_exact_witness :
  exists r w',
    formatMetrics "node" "v20.11.0" "fibonacci" 0%nat example_memory
      example_cpuUsage (example_world [of_Z 10]) = (Return r, w') /\
    diff_rss (mu_diff (memoryUsage (metrics r))) = of_Z (52428800 - 52428800).
Proof.
  destruct (known_diffs_are_exact "node"%string "v20.11.0"%string
              "fibonacci"%string 0%nat example_memory example_cpuUsage
              (example_world [of_Z 10]) [of_Z 10] 52428800 52428800 eq_refl)
    as (r & w' & Hrun & Hrss & _).
  - lia.
  - lia.
  - exists r, w'. split; [exact Hrun|]. apply Hrss; reflexivity.
Defined.
(* ===================================================================== *)
(** ** The Deno driver *)
(* ===================================================================== *)

Lemma deno_measure_exact (detailedMetrics : bool) (l : loc)
    (samples : list DenoSample) :
  forall (i : nat) (acc : list IterationMetrics) (xs : list float) (w : World),
    heap w !! l = Some xs ->
    deno_measure detailedMetrics l i samples acc w =
    (Return (if detailedMetrics then acc ++ deno_entries i samples else acc),
     set_heap (<[l := xs ++ map deno_executionTime samples]> (heap w)) w).
Proof.
  induction samples as [|s rest IH]; intros i acc xs w Hl.
  - cbn [deno_measure map deno_entries]. rewrite !app_nil_r.
    rewrite list_insert_id by exact Hl. rewrite set_heap_id.
    destruct detailedMetrics; reflexivity.
  - cbn [deno_measure map deno_entries]. unfold bind at 1.
    rewrite (push_run _ _ _ _ Hl).
    assert (Hl' :
      heap (set_heap (<[l := xs ++ [deno_executionTime s]]> (heap w)) w) !! l
      = Some (xs ++ [deno_executionTime s])).
    { cbn [heap set_heap]. apply list_lookup_insert_eq.
      apply lookup_lt_Some in Hl. exact Hl. }
    rewrite (IH (S i) _ _ _ Hl'). cbn [heap set_heap].
    rewrite list_insert_insert_eq, <- app_assoc.
    destruct detailedMetrics; [rewrite <- app_assoc|]; reflexivity.
Qed.

Section DenoProofs.

Variable join : list string -> string.
Variable cwd : string.

(** The driver up to the point of saving, and what follows. *)
Lemma benchmark_deno_run (run : DenoRun) (options : Options) (w : World) :
  exists p,
    (opt_outputPath options = Some p \/ opt_outputPath options = None) /\
    (forall q, opt_outputPath options = Some q -> p = q) /\
    benchmark_deno join cwd run options w =
    bind (deno_save (deno_report run options w) p)
      (fun _ => ret (deno_report run options w))
      (set_heap (deno_heap run w) w).
Proof.
  unfold benchmark_deno.
  assert (Hpath : exists p,
    (match opt_outputPath options with
     | Some p => ret p
     | None =>
         deno_default_path join cwd
           (default "unknown"%string (opt_experiment options))
     end) w = (Return p, w) /\
    (opt_outputPath options = Some p \/ opt_outputPath options = None) /\
    (forall q, opt_outputPath options = Some q -> p = q)).
  { destruct (opt_outputPath options) as [p|].
    - exists p. split; [reflexivity|]. split; [left; reflexivity|].
      intros q [= ->]. reflexivity.
    - eexists. split; [reflexivity|]. split; [right; reflexivity|].
      intros q H. discriminate. }
  destruct Hpath as (p & Hp & Hcase & Huniq). exists p.
  split; [exact Hcase|]. split; [exact Huniq|].
  unfold bind at 1. rewrite Hp. rewrite bind_alloc.
  set (l := length (heap w)).
  set (w1 := set_heap (heap w ++ [[]]) w).
  assert (Hl : heap w1 !! l = Some []) by apply heap_lookup_new.
  unfold bind at 1. rewrite (deno_measure_exact _ _ _ _ _ _ _ Hl). cbn [app].
  set (w2 := set_heap _ w1).
  assert (Hl2 : heap w2 !! l = Some (map deno_executionTime (deno_samples run))).
  { unfold w2. cbn [heap set_heap]. apply list_lookup_insert_eq.
    unfold w1, l. cbn [heap set_heap]. rewrite length_app. simpl. lia. }
  unfold bind at 1. rewrite (formatMetrics_run _ _ _ _ _ _ _ _ Hl2).
  assert (Hw : set_heap (heap w2 ++
                 [js_sort compare_numbers
                    (map deno_executionTime (deno_samples run))]) w2
               = set_heap (deno_heap run w) w).
  { unfold w2, w1, deno_heap. cbn [heap set_heap].
    rewrite !set_heap_set_heap. f_equal. unfold l.
    rewrite heap_insert_new, <- app_assoc. reflexivity. }
  rewrite Hw.
  assert (Hr :
    (if default true (opt_detailedMetrics options)
     then with_detailed
            (report_of "deno" (deno_version run)
               (default "unknown"%string (opt_experiment options)) l
               (map deno_executionTime (deno_samples run))
               {| mem_before := deno_memoryBefore run;
                  mem_after := deno_memoryAfter run |}
               {| cpu_before := deno_cpuBefore run;
                  cpu_after := deno_cpuAfter run;
                  cpu_cores := deno_cpuCores run |} w2)
            (deno_entries 0 (deno_samples run))
     else report_of "deno" (deno_version run)
            (default "unknown"%string (opt_experiment options)) l
            (map deno_executionTime (deno_samples run))
            {| mem_before := deno_memoryBefore run;
               mem_after := deno_memoryAfter run |}
            {| cpu_before := deno_cpuBefore run;
               cpu_after := deno_cpuAfter run;
               cpu_cores := deno_cpuCores run |} w2)
    = deno_report run options w).
  { unfold deno_report.
    destruct (default true (opt_detailedMetrics options)); reflexivity. }
  destruct (default true (opt_detailedMetrics options)) eqn:Ed;
    rewrite Hr; reflexivity.
Qed.

End DenoProofs.
Lemma deno_report_times (run : DenoRun) (options : Options) (w : World) :
  executionTimes (metrics (deno_report run options w)) = length (heap w).
Proof.
  unfold deno_report.
  destruct (default true (opt_detailedMetrics options)); reflexivity.
Qed.

Lemma deno_heap_times (run : DenoRun) (w : World) :
  deno_heap run w !! length (heap w)
  = Some (map deno_executionTime (deno_samples run)).
Proof.
  unfold deno_heap.
  rewrite lookup_app_r by lia. rewrite Nat.sub_diag. reflexivity.
Qed.

Lemma deno_first_attempt_succeeds (r : Report) (p : string) (w : World)
    (xs : list float) :
  heap w !! executionTimes (metrics r) = Some xs ->
  in_list (dirname p) (dirs w) = true -> in_list p (denied w) = false ->
  deno_first_attempt r p w =
  (Return tt,
   set_console
     (console w ++ [(Stdout, ("Результаты сохранены в " ++ p)%string)])
     (set_files ((p, {| json_report := r; json_times := xs |}) :: files w) w)).
Proof.
  intros Hl Hd Hp. unfold deno_first_attempt, JSON_stringify.
  rewrite bind_bind, (bind_read _ _ _ _ Hl), bind_ret.
  unfold bind, Deno_writeTextFileSync, console_log. rewrite Hd, Hp.
  reflexivity.
Qed.

Lemma deno_first_attempt_fails (r : Report) (p : string) (w : World)
    (xs : list float) :
  heap w !! executionTimes (metrics r) = Some xs ->
  in_list (dirname p) (dirs w) = false \/ in_list p (denied w) = true ->
  exists msg, deno_first_attempt r p w = (Throw (SystemError msg), w).
Proof.
  intros Hl Hf. unfold deno_first_attempt, JSON_stringify.
  rewrite bind_bind, (bind_read _ _ _ _ Hl), bind_ret.
  unfold bind, Deno_writeTextFileSync.
  destruct (in_list (dirname p) (dirs w)) eqn:Ed; cbn [negb].
  - destruct Hf as [Hf|Hf]; [discriminate|]. rewrite Hf.
    eexists. reflexivity.
  - eexists. reflexivity.
Qed.

Lemma deno_second_attempt_succeeds (r : Report) (p : string) (w : World)
    (xs : list float) :
  heap w !! executionTimes (metrics r) = Some xs ->
  in_list (dirname p) (denied w) = false -> in_list p (denied w) = false ->
  deno_second_attempt r p w =
  (Return tt,
   set_console
     (console w ++
      [(Stdout, ("Результаты сохранены в " ++ p
                 ++ " после создания директории")%string)])
     (set_files ((p, {| json_report := r; json_times := xs |}) :: files w)
        (set_dirs (dirname p :: dirs w) w))).
Proof.
  intros Hl Hd Hp. unfold deno_second_attempt.
  unfold bind at 1. unfold Deno_mkdirSync. rewrite Hd.
  unfold JSON_stringify.
  rewrite bind_bind, (bind_read _ xs) by exact Hl.
  rewrite bind_ret.
  unfold bind, Deno_writeTextFileSync, console_log.
  cbn [dirs denied set_dirs]. rewrite in_list_head, Hp. reflexivity.
Qed.

Lemma deno_second_attempt_fails (r : Report) (p : string) (w : World)
    (xs : list float) :
  heap w !! executionTimes (metrics r) = Some xs ->
  in_list (dirname p) (denied w) = true \/ in_list p (denied w) = true ->
  exists msg w',
    deno_second_attempt r p w = (Throw (SystemError msg), w') /\
    console w' = console w /\ files w' = files w /\ heap w' = heap w.
Proof.
  intros Hl Hf. unfold deno_second_attempt.
  unfold bind at 1. unfold Deno_mkdirSync.
  destruct (in_list (dirname p) (denied w)) eqn:Ed.
  - eexists _, _. repeat split.
  - destruct Hf as [Hf|Hf]; [discriminate|].
    unfold JSON_stringify.
    rewrite bind_bind, (bind_read _ xs) by exact Hl.
    rewrite bind_ret.
    unfold bind, Deno_writeTextFileSync.
    cbn [dirs denied set_dirs]. rewrite in_list_head, Hf.
    eexists _, _. repeat split.
Qed.

(** When the directory of the path is missing and can be created, the
    Deno driver fails once and then succeeds: the first write throws and
    its message goes to the error stream, the directory is created, the
    report is written, and the last line printed says that the results
    were saved after the directory was created. *)
Theorem benchmark_deno_creates_directory (join : list string -> string)
    (cwd : string) (run : DenoRun) (options : Options) (w : World)
    (path : string) :
  opt_outputPath options = Some path ->
  in_list (dirname path) (dirs w) = false ->
  in_list (dirname path) (denied w) = false ->
  in_list path (denied w) = false ->
  exists r w' msg,
    benchmark_deno join cwd run options w = (Return r, w') /\
    files w' =
    (path, {| json_report := r;
              json_times := map deno_executionTime (deno_samples run) |})
    :: files w /\
    dirs w' = dirname path :: dirs w /\
    stderr_lines w' =
    stderr_lines w ++ [("Ошибка при сохранении результатов: " ++ msg)%string] /\
    last (console w') =
    Some (Stdout, ("Результаты сохранены в " ++ path
                   ++ " после создания директории")%string).
Proof.
  intros Hp Hmissing Hcreate Hfile.
  destruct (benchmark_deno_run join cwd run options w)
    as (p & _ & Huniq & ->).
  rewrite (Huniq path Hp). clear p Huniq.
  set (r := deno_report run options w).
  set (w1 := set_heap (deno_heap run w) w).
  assert (Hl : heap w1 !! executionTimes (metrics r)
               = Some (map deno_executionTime (deno_samples run))).
  { unfold r, w1. rewrite deno_report_times. apply deno_heap_times. }
  destruct (deno_first_attempt_fails r path w1 _ Hl (or_introl Hmissing))
    as [msg H1].
  unfold bind at 1. unfold deno_save, try_catch at 1. rewrite H1.
  unfold bind at 1. unfold console_error at 1.
  set (w2 := set_console _ w1).
  assert (Hl2 : heap w2 !! executionTimes (metrics r)
                = Some (map deno_executionTime (deno_samples run)))
    by exact Hl.
  unfold try_catch.
  rewrite (deno_second_attempt_succeeds r path w2 _ Hl2 Hcreate Hfile).
  unfold ret. eexists r, _, msg. split; [reflexivity|].
  cbn [files dirs console set_console set_files set_dirs set_heap w2 w1
       error_message].
  split; [reflexivity|]. split; [reflexivity|]. split.
  - unfold stderr_lines. cbn [console set_console set_files set_dirs].
    rewrite !List.filter_app, !map_app. cbn. rewrite app_nil_r. reflexivity.
  - apply last_snoc.
Qed.

(** When the directory exists and the file can be written, the first
    attempt succeeds: the report is written, nothing goes to the error
    stream, no directory is created. *)
Theorem benchmark_deno_saves (join : list string -> string)
    (cwd : string) (run : DenoRun) (options : Options) (w : World)
    (path : string) :
  opt_outputPath options = Some path ->
  in_list (dirname path) (dirs w) = true ->
  in_list path (denied w) = false ->
  exists r w',
    benchmark_deno join cwd run options w = (Return r, w') /\
    files w' =
    (path, {| json_report := r;
              json_times := map deno_executionTime (deno_samples run) |})
    :: files w /\
    dirs w' = dirs w /\
    stderr_lines w' = stderr_lines w /\
    last (console w') =
    Some (Stdout, ("Результаты сохранены в " ++ path)%string).
Proof.
  intros Hp Hdir Hfile.
  destruct (benchmark_deno_run join cwd run options w)
    as (p & _ & Huniq & ->).
  rewrite (Huniq path Hp). clear p Huniq.
  set (r := deno_report run options w).
  set (w1 := set_heap (deno_heap run w) w).
  assert (Hl : heap w1 !! executionTimes (metrics r)
               = Some (map deno_executionTime (deno_samples run))).
  { unfold r, w1. rewrite deno_report_times. apply deno_heap_times. }
  unfold bind at 1. unfold deno_save, try_catch at 1.
  rewrite (deno_first_attempt_succeeds r path w1 _ Hl Hdir Hfile).
  unfold ret. eexists r, _. split; [reflexivity|].
  cbn [files dirs console set_console set_files set_heap w1].
  split; [reflexivity|]. split; [reflexivity|]. split.
  - unfold stderr_lines. cbn [console set_console set_files].
    rewrite List.filter_app, map_app. cbn. rewrite app_nil_r. reflexivity.
  - apply last_snoc.
Qed.

(** When saving is impossible, the Deno driver tries twice, puts two
    lines on the error stream, the second one last, writes no file, and
    returns the report all the same. *)
Theorem benchmark_deno_gives_up (join : list string -> string)
    (cwd : string) (run : DenoRun) (options : Options) (w : World)
    (path : string) :
  opt_outputPath options = Some path -> save_fails path w ->
  exists r w' msg1 msg2,
    benchmark_deno join cwd run options w = (Return r, w') /\
    files w' = files w /\
    stderr_lines w' =
    stderr_lines w ++
    [("Ошибка при сохранении результатов: " ++ msg1)%string;
     ("Не удалось сохранить результаты даже после создания директории: "
      ++ msg2)%string] /\
    last (console w') =
    Some (Stderr,
          ("Не удалось сохранить результаты даже после создания директории: "
           ++ msg2)%string) /\
    heap w' !! executionTimes (metrics r)
    = Some (map deno_executionTime (deno_samples run)).
Proof.
  intros Hp Hf.
  destruct (benchmark_deno_run join cwd run options w)
    as (p & _ & Huniq & ->).
  rewrite (Huniq path Hp). clear p Huniq.
  set (r := deno_report run options w).
  set (w1 := set_heap (deno_heap run w) w).
  assert (Hl : heap w1 !! executionTimes (metrics r)
               = Some (map deno_executionTime (deno_samples run))).
  { unfold r, w1. rewrite deno_report_times. apply deno_heap_times. }
  assert (Hfirst : in_list (dirname path) (dirs w1) = false
                   \/ in_list path (denied w1) = true).
  { unfold save_fails in Hf. cbn [dirs denied w1 set_heap].
    destruct (in_list (dirname path) (dirs w)); [right; exact Hf|left; reflexivity]. }
  assert (Hsecond : in_list (dirname path) (denied w1) = true
                    \/ in_list path (denied w1) = true).
  { unfold save_fails in Hf. cbn [dirs denied w1 set_heap].
    destruct (in_list (dirname path) (dirs w)); [right; exact Hf|exact Hf]. }
  destruct (deno_first_attempt_fails r path w1 _ Hl Hfirst) as [msg1 H1].
  unfold bind at 1. unfold deno_save, try_catch at 1. rewrite H1.
  unfold bind at 1. unfold console_error at 1.
  set (w2 := set_console _ w1).
  assert (Hl2 : heap w2 !! executionTimes (metrics r)
                = Some (map deno_executionTime (deno_samples run)))
    by exact Hl.
  destruct (deno_second_attempt_fails r path w2 _ Hl2 Hsecond)
    as (msg2 & w3 & H2 & Hcon & Hfiles & Hheap).
  unfold try_catch. rewrite H2. unfold console_error, ret.
  eexists r, _, msg1, msg2. split; [reflexivity|].
  cbn [files console heap set_console error_message].
  rewrite Hfiles, Hheap.
  split; [reflexivity|]. split; [|split].
  - unfold stderr_lines. cbn [console set_console]. rewrite Hcon.
    unfold w2. cbn [console set_console set_heap w1 error_message].
    rewrite !List.filter_app, !map_app, <- app_assoc. reflexivity.
  - apply last_snoc.
  - exact Hl.
Qed.

Lemma benchmark_deno_creates_directory_witness :
  exists r w' msg,
    benchmark_deno example_join "/app" example_deno_run
      (results_options "/results/out.json") writable_world = (Return r, w') /\
    files w' =
    [("/results/out.json"%string,
      {| json_report := r;
         json_times := [of_Z 2000000; of_Z 5000000] |})] /\
    stderr_lines w' =
    [("Ошибка при сохранении результатов: " ++ msg)%string].
Proof.
  destruct (benchmark_deno_creates_directory example_join "/app"
              example_deno_run (results_options "/results/out.json")
              writable_world "/results/out.json" eq_refl eq_refl eq_refl
              eq_refl)
    as (r & w' & msg & Hrun & Hf & _ & He & _).
  exists r, w', msg. split; [exact Hrun|]. split; [|exact He].
  rewrite Hf. vm_compute. reflexivity.
Defined.

Lemma benchmark_deno_saves_witness :
  exists r w',
    benchmark_deno example_join "/app" example_deno_run
      (results_options "/app/results/out.json") (example_world [])
    = (Return r, w') /\
    stderr_lines w' = [] /\
    dirs w' = ["/app/results"%string].
Proof.
  destruct (benchmark_deno_saves example_join "/app" example_deno_run
              (results_options "/app/results/out.json") (example_world [])
              "/app/results/out.json" eq_refl eq_refl eq_refl)
    as (r & w' & Hrun & _ & Hd & He & _).
  exists r, w'. split; [exact Hrun|]. split; [exact He|exact Hd].
Defined.

Lemma benchmark_deno_gives_up_witness :
  exists r w' msg1 msg2,
    benchmark_deno example_join "/app" example_deno_run readonly_options
      readonly_world = (Return r, w') /\
    files w' = [] /\
    stderr_lines w' =
    [("Ошибка при сохранении результатов: " ++ msg1)%string;
     ("Не удалось сохранить результаты даже после создания директории: "
      ++ msg2)%string].
Proof.
  destruct (benchmark_deno_gives_up example_join "/app" example_deno_run
              readonly_options readonly_world "/readonly/results/out.json"
              eq_refl)
    as (r & w' & msg1 & msg2 & Hrun & Hf & He & _).
  - vm_compute. left. reflexivity.
  - exists r, w', msg1, msg2. split; [exact Hrun|].
    split; [exact Hf|exact He].
Defined.
